(** * oca-github-bot: the merge bot tasks ([oca_github_bot/tasks/merge_bot.py])

    A shallow embedding of the merge orchestration: [merge_bot_start],
    [_merge_bot_merge_pr], [_get_commit_success] and [merge_bot_status],
    with the helpers they call.  The Python code talks to git and to the
    hosting API; here every such interaction is a [call] appended to a
    [trace], and its outcome is read from a [World]: a deterministic
    environment that answers each call from the history so far.  Python
    exceptions are the [Raise] results of a small state-and-error monad. *)

From Stdlib Require Import String Ascii List ZArith Bool Lia DecimalString Permutation.
Import ListNotations.
Local Open Scope string_scope.
Local Open Scope Z_scope.

(** ** Python values *)

(** What a Python call can raise here: [subprocess.CalledProcessError]
    (with its [cmd] and [output]) or any other [Exception], given by its
    [str(e)]. *)
Inductive exn : Type :=
| CalledProcessError (cmd : list string) (output : string)
| Exception (msg : string).

Inductive result (A : Type) : Type :=
| Val (a : A)
| Raise (e : exn).
Arguments Val {A} a.
Arguments Raise {A} e.

(** [needle in hay] on Python strings. *)
Fixpoint contains (needle hay : string) : bool :=
  String.prefix needle hay ||
  match hay with
  | EmptyString => false
  | String _ hay' => contains needle hay'
  end.

(** [s.startswith(p)] *)
Definition startswith (s p : string) : bool := String.prefix p s.

(** [x in xs] for a list of strings. *)
Definition str_in (x : string) (xs : list string) : bool :=
  existsb (String.eqb x) xs.

(** [" ".join(cmd)] *)
Definition join (sep : string) (l : list string) : string := String.concat sep l.

(** [f"{n}"] for an integer. *)
Definition str (n : Z) : string := NilZero.string_of_int (Z.to_int n).

(** Truthiness of an optional string ([None] and [""] are falsy). *)
Definition truthy (o : option string) : bool :=
  match o with
  | None => false
  | Some s => negb (String.eqb s "")
  end.

(** [o == s] for an optional string. *)
Definition is_str (o : option string) (s : string) : bool :=
  match o with
  | Some c => String.eqb c s
  | None => false
  end.

(** ** Objects of the hosting API *)

(** A pull request as returned by [gh.pull_request]: the fields the bot reads. *)
Record gh_pull : Type := mk_pull {
  base_ref : string;   (* gh_pr.base.ref *)
  url : string         (* gh_pr.url *)
}.

(** One entry of [gh_commit.status().statuses]. *)
Record gh_status : Type := mk_status {
  context : string;
  state : string
}.

(** One entry of [gh_commit.check_suites()]. *)
Record gh_check_suite : Type := mk_suite {
  app_name : string;              (* check_suite.app.name *)
  conclusion : option string      (* None while the suite is not complete *)
}.

(** A commit as returned by [gh_repo.commit]: its two reporting APIs,
    each an API call that answers or raises. *)
Record gh_commit : Type := mk_commit {
  status : result (list gh_status);
  check_suites : result (list gh_check_suite)
}.

(** ** Interactions with the outside *)

Inductive call : Type :=
| GitCheckOutput (cmd : list string)       (* subprocess.check_output, via _git_call *)
| SubprocessCall (cmd : list string)       (* subprocess.call *)
| Log (msg : string)                       (* _logger.info *)
| RandInt (lo hi : Z)                      (* random.randint *)
| Login                                    (* github.login() *)
| Repository (org repo : string)           (* gh.repository *)
| UserCanPush (org repo username : string) (* github.git_user_can_push *)
| PullRequest (org repo : string) (pr : Z) (* gh.pull_request *)
| CreateComment (org repo : string) (pr : Z) (body : string)
| Issue (org repo : string) (pr : Z)       (* gh_pr.issue *)
| AddLabels (org repo : string) (pr : Z) (label : string)
| ClosePR (org repo : string) (pr : Z)     (* gh_pr.close *)
| TemporaryClone (org repo branch : string)
| ReleaseClone
| HeadSha                                  (* github.git_get_head_sha *)
| Commit (org repo sha : string)           (* gh_repo.commit *)
| CommitStatus                             (* gh_commit.status *)
| CheckSuites                              (* gh_commit.check_suites *)
| ModifiedAddonDirs (dir ref : string)     (* git_modified_addon_dirs *)
| MainBranchBotActions (org repo target_branch : string)
| BumpManifestVersion (addon_dir bumpversion : string)
| BuildAndCheckWheel (addon_dir : string)
| BuildAndPublishWheel (addon_dir index_root : string) (dry_run : bool).

Definition trace : Type := list call.

(** Appending calls to a trace. *)
Notation "t +++ u" := (@app call t u) (at level 60, right associativity).

(** The environment.  Each field answers one kind of call, given the calls
    made so far. *)
Record World : Type := mk_world {
  (* exit status 0 ([None]) or a non-zero exit with the captured output *)
  check_output : trace -> list string -> option string;
  (* exit status of [subprocess.call] *)
  exit_status : trace -> list string -> Z;
  (* raw random source behind [random.randint] *)
  random_source : trace -> Z;
  (* [str(e)] of the [ValueError] of [random.randint(lo, hi)] on an empty
     range: its wording is the interpreter's *)
  empty_range_error : Z -> Z -> string;
  (* calls that return nothing the bot inspects: [None] when they succeed *)
  effect : trace -> call -> option exn;
  can_push_answer : trace -> string -> string -> string -> result bool;
  pull_request_answer : trace -> string -> string -> Z -> result gh_pull;
  head_sha_answer : trace -> result string;
  commit_answer : trace -> string -> string -> string -> result gh_commit;
  modified_addon_dirs_answer : trace -> string -> string -> result (list string)
}.

(** ** The monad: a trace threaded through calls that may raise *)

Definition M (A : Type) : Type := trace -> result A * trace.

Definition ret {A} (a : A) : M A := fun t => (Val a, t).

Definition raise {A} (e : exn) : M A := fun t => (Raise e, t).

Definition bind {A B} (m : M A) (k : A -> M B) : M B :=
  fun t =>
    match m t with
    | (Val a, t1) => k a t1
    | (Raise e, t1) => (Raise e, t1)
    end.

(** [try: m  except ... as e: h e] *)
Definition try_except {A} (m : M A) (h : exn -> M A) : M A :=
  fun t =>
    match m t with
    | (Val a, t1) => (Val a, t1)
    | (Raise e, t1) => h e t1
    end.

Declare Scope py_scope.
Delimit Scope py_scope with py.
Notation "x <- m ;; k" := (bind m (fun x => k))
  (at level 61, m at next level, right associativity) : py_scope.
Notation "m ;; k" := (bind m (fun _ => k))
  (at level 61, right associativity) : py_scope.
Local Open Scope py_scope.

(** [for x in xs: body x] *)
Fixpoint for_each {A} (body : A -> M unit) (xs : list A) : M unit :=
  match xs with
  | [] => ret tt
  | x :: xs' => body x ;; for_each body xs'
  end.

Definition LABEL_MERGED : string := "merged 🎉".

(** The newline of the message templates. *)
Definition nl : string := String (ascii_of_nat 10) EmptyString.

(** [oca_github_bot.config]: the settings this file imports. *)
Record Config : Type := mk_config {
  GITHUB_CHECK_SUITES_IGNORED : list string;
  GITHUB_STATUS_IGNORED : list string;
  MERGE_BOT_INTRO_MESSAGES : list string;
  SIMPLE_INDEX_ROOT : option string;
  (* which named feature switches are on, see [switchable] *)
  switch_enabled : string -> bool
}.

(** [oca_github_bot.version_branch]: the branch-name codec, two pure
    functions defined outside this file.  Decoding a name that is not a
    merge-bot branch raises. *)
Record Codec : Type := mk_codec {
  make_merge_bot_branch : Z -> string -> string -> option string -> string;
  parse_merge_bot_branch : string -> result (Z * string * string * option string)
}.

(** Early exit from a [for] loop: go on with the loop variables, or return. *)
Inductive flow (S R : Type) : Type :=
| Next (s : S)
| Return (r : R).
Arguments Next {S R} s.
Arguments Return {S R} r.

(** ** Example environments

    Concrete configurations, codecs and worlds on which the statements
    below are run. *)

Definition demo_config : Config :=
  mk_config ["Codecov"; "Dependabot Preview"]
            ["ci/runbot"; "codecov/project"; "codecov/patch"; "coverage/coveralls"]
            ["On my way to merge this fine PR!"; "Hey, thanks for contributing!"]
            (Some "/var/simple-index")
            (fun _ => true).

(** The same with no intro message to draw from. *)
Definition mute_config : Config :=
  mk_config (GITHUB_CHECK_SUITES_IGNORED demo_config)
            (GITHUB_STATUS_IGNORED demo_config)
            []
            (SIMPLE_INDEX_ROOT demo_config)
            (switch_enabled demo_config).

(** The merge bot switched off. *)
Definition off_config : Config :=
  mk_config (GITHUB_CHECK_SUITES_IGNORED demo_config)
            (GITHUB_STATUS_IGNORED demo_config)
            (MERGE_BOT_INTRO_MESSAGES demo_config)
            (SIMPLE_INDEX_ROOT demo_config)
            (fun name => negb (String.eqb name "merge_bot")).

Definition demo_branch : string := "12.0-ocabot-merge-pr-42-by-alice-bump-minor".

(** A codec that knows one branch. *)
Definition demo_codec : Codec :=
  mk_codec
    (fun pr target_branch username bumpversion =>
       target_branch ++ "-ocabot-merge-pr-" ++ str pr ++ "-by-" ++ username ++
       "-bump-" ++ (if truthy bumpversion
                    then match bumpversion with Some b => b | None => "" end
                    else "no"))
    (fun branch =>
       if String.eqb branch demo_branch
       then Val (42, "12.0", "alice", Some "minor")
       else Raise (Exception "not a merge bot branch")).

(** The git subcommand of a command line. *)
Definition git_verb (cmd : list string) : string := nth 1 cmd "".

Definition demo_pull : gh_pull :=
  mk_pull "12.0" "https://api.github.com/repos/OCA/mis-builder/pulls/42".

(** A text of CPython's [ValueError] for [randint(lo, hi)] on an empty
    range, that is for [randrange(lo, hi + 1)] (the wording varies with the
    version of the interpreter). *)
Definition randrange_error (lo hi : Z) : string :=
  "empty range for randrange() (" ++ str lo ++ ", " ++ str (hi + 1) ++ ", " ++
  str (hi + 1 - lo) ++ ")".

(** A world in which the head is [c0ffee] and every call succeeds, except
    that git commands of the subcommand [failing_verb] exit non-zero with
    [output], the ancestor check exits with [rc], the pull request lookup
    answers [pull], the commit has the given [statuses] and no check
    suite, and [addons] are the modified addons. *)
Definition demo_world (failing_verb output : string) (rc : Z)
    (pull : result gh_pull) (statuses : list gh_status)
    (addons : list string) : World :=
  mk_world
    (fun _ cmd => if String.eqb (git_verb cmd) failing_verb then Some output else None)
    (fun _ _ => rc)
    (fun _ => 0)
    randrange_error
    (fun _ _ => None)
    (fun _ _ _ _ => Val true)
    (fun _ _ _ _ => pull)
    (fun _ => Val "c0ffee")
    (fun _ _ _ _ => Val (mk_commit (Val statuses) (Val [])))
    (fun _ _ _ => Val addons).

Definition travis_passed : gh_status :=
  mk_status "continuous-integration/travis-ci/pr" "success".

Definition travis_failed : gh_status :=
  mk_status "continuous-integration/travis-ci/pr" "failure".

(** All is well: CI passed, nothing moved, no addon touched. *)
Definition calm_world (addons : list string) : World :=
  demo_world "" "" 0 (Val demo_pull) [travis_passed] addons.

(** The target branch moved, and the rebase of the restart conflicts. *)
Definition conflict_world : World :=
  demo_world "rebase" "CONFLICT (content): Merge conflict in __manifest__.py" 1
             (Val demo_pull) [travis_passed] [].

(** The target branch moved, and the restart goes through. *)
Definition moved_world : World :=
  demo_world "" "" 1 (Val demo_pull) [travis_passed] [].

(** The target branch moved, and the pull request was retargeted to 13.0
    after the merge command. *)
Definition retargeted_world : World :=
  demo_world "" "" 1
             (Val (mk_pull "13.0" "https://api.github.com/repos/OCA/mis-builder/pulls/42"))
             [travis_passed] [].

(** The requester has no push permission. *)
Definition denied_world : World :=
  mk_world
    (fun _ _ => None)
    (fun _ _ => 0)
    (fun _ => 0)
    randrange_error
    (fun _ _ => None)
    (fun _ _ _ _ => Val false)
    (fun _ _ _ _ => Val demo_pull)
    (fun _ => Val "c0ffee")
    (fun _ _ _ _ => Val (mk_commit (Val [travis_passed]) (Val [])))
    (fun _ _ _ => Val []).

(** CI failed, and the remote branch is already gone. *)
Definition gone_world : World :=
  demo_world "push"
             "error: unable to delete '12.0-ocabot-merge-pr-42-by-alice-bump-minor': remote ref does not exist"
             0 (Val demo_pull) [travis_failed] [].

(** The pull request cannot be looked up. *)
Definition lost_pull_world : World :=
  demo_world "" "" 0 (Raise (Exception "404 Not Found")) [travis_passed] [].

(** A first merge command: the remote merge-bot branch does not exist yet,
    so its deletion fails; everything else succeeds. *)
Definition first_start_world : World :=
  mk_world
    (fun _ cmd =>
       if list_eq_dec String.string_dec cmd
            ["git"; "push"; "origin"; ":" ++ demo_branch]
       then Some "error: unable to delete '12.0-ocabot-merge-pr-42-by-alice-bump-minor': remote ref does not exist"
       else None)
    (fun _ _ => 0)
    (fun _ => 0)
    randrange_error
    (fun _ _ => None)
    (fun _ _ _ _ => Val true)
    (fun _ _ _ _ => Val demo_pull)
    (fun _ => Val "c0ffee")
    (fun _ _ _ _ => Val (mk_commit (Val [travis_passed]) (Val [])))
    (fun _ _ _ => Val []).

(** CI is still running. *)
Definition waiting_world : World :=
  demo_world "" "" 0 (Val demo_pull) [mk_status "ci/test" "pending"] [].

(** CI failed, and the remote branch is still there. *)
Definition red_world : World :=
  demo_world "" "" 0 (Val demo_pull) [travis_failed] [].

(** CI passed and nothing moved, but the merge commit cannot be made. *)
Definition merge_conflict_world : World :=
  demo_world "merge" "CONFLICT (content): Merge conflict in README.rst" 0
             (Val demo_pull) [travis_passed] ["mis_builder"].

Section MergeBot.

(** The environment, the configuration and the codec of one run. *)
Variable w : World.
Variable cfg : Config.
Variable codec : Codec.

(** Modelled from the spec: the [switchable] decorator of
    [oca_github_bot.config], of which only the use is in this file.  "Both
    [entry points] are guarded by a named feature switch that can disable
    the whole merge-bot subsystem without code changes": a disabled task
    returns without doing anything.  The [task] decorator of the queue
    leaves a direct call as it is. *)
Definition switchable (name : string) (task : M unit) : M unit :=
  if switch_enabled cfg name then task else ret tt.

(** *** Primitive calls *)

(** A call whose answer the bot does not inspect. *)
Definition perform (c : call) : M unit :=
  fun t =>
    match effect w t c with
    | None => (Val tt, t +++ [c])
    | Some e => (Raise e, t +++ [c])
    end.

Definition log (msg : string) : M unit := fun t => (Val tt, t +++ [Log msg]).

(** A call that answers with a value, or raises. *)
Definition ask {A} (c : call) (oracle : trace -> result A) : M A :=
  fun t => (oracle t, t +++ [c]).

(** A pure computation that may raise. *)
Definition lift {A} (r : result A) : M A := fun t => (r, t).

(** [random.randint(lo, hi)], that is [randrange(lo, hi + 1)]: a value in
    [lo..hi]; on an empty range the call raises [ValueError]. *)
Definition randint (lo hi : Z) : M Z :=
  fun t =>
    if hi <? lo
    then (Raise (Exception (empty_range_error w lo hi)), t +++ [RandInt lo hi])
    else (Val (lo + random_source w t mod (hi - lo + 1)), t +++ [RandInt lo hi]).

(** [subprocess.call(cmd)]: the exit status. *)
Definition subprocess_call (cmd : list string) : M Z :=
  fun t => (Val (exit_status w t cmd), t +++ [SubprocessCall cmd]).

(** Modelled from the spec: [with github.temporary_clone(org, repo, branch):
    body], a context manager of [oca_github_bot.github] of which only the
    use is in this file.  The working copy is "scoped to the invocation's
    lifetime, released unconditionally on exit, success or failure". *)
Definition with_temporary_clone {A} (org repo branch : string) (body : M A) : M A :=
  fun t =>
    match perform (TemporaryClone org repo branch) t with
    | (Raise e, t1) => (Raise e, t1)
    | (Val _, t1) =>
        let (r, t2) := body t1 in (r, t2 +++ [ReleaseClone])
    end.

(** [github.gh_call(gh_pr.create_comment, body)] *)
Definition create_comment (org repo : string) (pr : Z) (body : string) : M unit :=
  perform (CreateComment org repo pr body).

(** [gh.pull_request(org, repo, pr)] *)
Definition pull_request (org repo : string) (pr : Z) : M gh_pull :=
  ask (PullRequest org repo pr) (fun t => pull_request_answer w t org repo pr).

(** [github.git_get_head_sha()] *)
Definition git_get_head_sha : M string :=
  ask HeadSha (fun t => head_sha_answer w t).

(** [github.git_user_can_push(gh.repository(org, repo), username)] *)
Definition git_user_can_push (org repo username : string) : M bool :=
  perform (Repository org repo) ;;
  ask (UserCanPush org repo username) (fun t => can_push_answer w t org repo username).

(** [github.gh_call(gh_repo.commit, sha)] *)
Definition commit (org repo sha : string) : M gh_commit :=
  ask (Commit org repo sha) (fun t => commit_answer w t org repo sha).

(** [git_modified_addon_dirs(dir, ref)] *)
Definition git_modified_addon_dirs (dir ref : string) : M (list string) :=
  ask (ModifiedAddonDirs dir ref) (fun t => modified_addon_dirs_answer w t dir ref).

(** *** [_git_call] *)
Definition _git_call (cmd : list string) : M unit :=
  fun t =>
    match check_output w t cmd with
    | None => (Val tt, t +++ [GitCheckOutput cmd])
    | Some out => (Raise (CalledProcessError cmd out), t +++ [GitCheckOutput cmd])
    end.

(** *** [_git_delete_branch] *)
Definition _git_delete_branch (remote branch : string) : M unit :=
  try_except
    (_git_call ["git"; "push"; remote; ":" ++ branch])
    (fun e =>
       match e with
       | CalledProcessError _ output =>
           if contains "unable to delete" output then ret tt else raise e
       | Exception _ => raise e
       end).

(** *** [_get_merge_bot_intro_message] *)
Definition _get_merge_bot_intro_message : M string :=
  i <- randint 0 (Z.of_nat (length (MERGE_BOT_INTRO_MESSAGES cfg)) - 1) ;;
  match nth_error (MERGE_BOT_INTRO_MESSAGES cfg) (Z.to_nat i) with
  | Some m => ret m
  | None => raise (Exception "list index out of range")
  end.

(** *** [merge_bot_start] *)

(** The body of the [try]: clone, rebase, force-replace the remote branch,
    announce. *)
Definition start_rebase_and_push (org repo : string) (pr : Z)
    (username : string) (bumpversion : option string)
    (intro_message : option string) (target_branch : string) : M unit :=
  with_temporary_clone org repo target_branch (
    let merge_bot_branch :=
      make_merge_bot_branch codec pr target_branch username bumpversion in
    _git_call ["git"; "fetch"; "origin";
               "pull/" ++ str pr ++ "/head:" ++ merge_bot_branch] ;;
    _git_call ["git"; "checkout"; merge_bot_branch] ;;
    _git_call ["git"; "rebase"; "--autosquash"; target_branch] ;;
    _git_delete_branch "origin" merge_bot_branch ;;
    _git_call ["git"; "push"; "origin"; merge_bot_branch] ;;
    intro_message <- (if truthy intro_message
                      then ret (match intro_message with Some m => m | None => "" end)
                      else _get_merge_bot_intro_message) ;;
    create_comment org repo pr
      (intro_message ++ nl ++
       "Rebased to [" ++ merge_bot_branch ++ "]" ++
       "(https://github.com/" ++ org ++ "/" ++ repo ++ "/commits/" ++ merge_bot_branch ++ ")" ++
       ", awaiting test results.")).

(** The comment of the two [except] clauses. *)
Definition start_failure_comment (username : string) (e : exn) : string :=
  match e with
  | CalledProcessError cmd output =>
      "@" ++ username ++ " The merge process could not start, because " ++
      "command `" ++ join " " cmd ++ "` failed with output:" ++ nl ++
      "```" ++ nl ++ output ++ nl ++ "```"
  | Exception msg =>
      "@" ++ username ++ " The merge process could not start, because " ++
      "of exception " ++ msg ++ "."
  end.

Definition merge_bot_start (org repo : string) (pr : Z) (username : string)
    (bumpversion : option string) (dry_run : bool)
    (intro_message : option string) : M unit :=
  switchable "merge_bot" (
    perform Login ;;
    can_push <- git_user_can_push org repo username ;;
    if negb can_push then
      gh_pr <- pull_request org repo pr ;;
      create_comment org repo pr
        ("Sorry @" ++ username ++ " " ++
         "you do not have push permission, so I can't merge for you.")
    else
      gh_pr <- pull_request org repo pr ;;
      let target_branch := base_ref gh_pr in
      try_except
        (start_rebase_and_push org repo pr username bumpversion intro_message
           target_branch)
        (fun e =>
           create_comment org repo pr (start_failure_comment username e) ;;
           raise e)).

(** *** [_merge_bot_merge_pr] *)

(** The body of [for addon_dir in modified_addon_dirs] before the merge. *)
Definition bump_and_check (bumpversion : option string) (addon_dir : string) : M unit :=
  match bumpversion with
  | Some b =>
      if String.eqb b "" then ret tt
      else perform (BumpManifestVersion addon_dir b) ;;
           perform (BuildAndCheckWheel addon_dir)
  | None => ret tt
  end.

Definition nonempty {A} (l : list A) : bool :=
  match l with [] => false | _ :: _ => true end.

(** [if bumpversion and modified_addon_dirs and SIMPLE_INDEX_ROOT: ...] *)
Definition publish_wheels (bumpversion : option string)
    (modified_addon_dirs : list string) (dry_run : bool) : M unit :=
  match SIMPLE_INDEX_ROOT cfg with
  | Some root =>
      if truthy bumpversion && nonempty modified_addon_dirs
         && negb (String.eqb root "")
      then for_each
             (fun addon_dir => perform (BuildAndPublishWheel addon_dir root dry_run))
             modified_addon_dirs
      else ret tt
  | None => ret tt
  end.

Definition merged_comment (org target_branch merge_sha : string) : string :=
  "Congratulations, your PR was merged at " ++ merge_sha ++ ". " ++
  "Thanks a lot for contributing to " ++ org ++ ". ❤️" ++ nl ++ nl ++
  "PS: Don't worry if GitHub says there are " ++
  "unmerged commits: it is due to a rebase before merge. " ++
  "All commits of this PR have been merged into `" ++ target_branch ++ "`.".

Definition merge_commit_msg (pr : Z) (target_branch username : string) : string :=
  "Merge PR #" ++ str pr ++ " into " ++ target_branch ++ nl ++ nl ++
  "Signed-off-by " ++ username.

Definition _merge_bot_merge_pr (org repo merge_bot_branch : string)
    (dry_run : bool) : M bool :=
  intent <- lift (parse_merge_bot_branch codec merge_bot_branch) ;;
  let '(pr, target_branch, username, bumpversion) := intent in
  (* first check if the merge bot branch is still on top of the target branch *)
  _git_call ["git"; "checkout"; target_branch] ;;
  r <- subprocess_call
         ["git"; "merge-base"; "--is-ancestor"; target_branch; merge_bot_branch] ;;
  if negb (r =? 0) then
    log (merge_bot_branch ++ " can't be fast forwarded on " ++ target_branch ++ ", " ++
         "rebasing again.") ;;
    let intro_message :=
      "It looks like something changed on `" ++ target_branch ++ "` in the meantime." ++ nl ++
      "Let me try again (no action is required from you)." in
    merge_bot_start org repo pr username bumpversion dry_run (Some intro_message) ;;
    ret false
  else
    (* modified addons of the PR, not of the merge bot branch *)
    _git_call ["git"; "fetch"; "origin";
               "refs/pull/" ++ str pr ++ "/head:tmp-pr-" ++ str pr] ;;
    _git_call ["git"; "checkout"; "tmp-pr-" ++ str pr] ;;
    modified_addon_dirs <- git_modified_addon_dirs "." target_branch ;;
    _git_call ["git"; "checkout"; merge_bot_branch] ;;
    (if nonempty modified_addon_dirs
     then perform (MainBranchBotActions org repo target_branch)
     else ret tt) ;;
    for_each (bump_and_check bumpversion) modified_addon_dirs ;;
    (* create the merge commit *)
    _git_call ["git"; "checkout"; target_branch] ;;
    _git_call ["git"; "merge"; "--no-ff"; "--m";
               merge_commit_msg pr target_branch username; merge_bot_branch] ;;
    (if dry_run
     then log ("DRY-RUN git push in " ++ org ++ "/" ++ repo ++ "@" ++ target_branch)
     else log ("git push in " ++ org ++ "/" ++ repo ++ "@" ++ target_branch) ;;
          _git_call ["git"; "push"; "origin"; target_branch]) ;;
    (* build and publish wheel *)
    publish_wheels bumpversion modified_addon_dirs dry_run ;;
    _git_delete_branch "origin" merge_bot_branch ;;
    perform Login ;;
    gh_pr <- pull_request org repo pr ;;
    merge_sha <- git_get_head_sha ;;
    create_comment org repo pr (merged_comment org target_branch merge_sha) ;;
    perform (Issue org repo pr) ;;
    (if dry_run
     then log ("DRY-RUN add " ++ LABEL_MERGED ++ " label to PR " ++ url gh_pr)
     else log ("add " ++ LABEL_MERGED ++ " label to PR " ++ url gh_pr) ;;
          perform (AddLabels org repo pr LABEL_MERGED)) ;;
    perform (ClosePR org repo pr) ;;
    ret true.

(** *** [_get_commit_success] *)

(** [for status in gh_status.statuses], with the loop variables [success]
    and [old_travis]. *)
Fixpoint statuses_loop (statuses : list gh_status) (success : option bool)
    (old_travis : bool) : flow (option bool * bool) (option bool) :=
  match statuses with
  | [] => Next (success, old_travis)
  | status :: rest =>
      if str_in (context status) (GITHUB_STATUS_IGNORED cfg) then
        statuses_loop rest success old_travis
      else if String.eqb (state status) "success" then
        statuses_loop rest (Some true)
          (if startswith (context status) "continuous-integration/travis-ci"
           then true else old_travis)
      else if String.eqb (state status) "pending" then Return None
      else Return (Some false)
  end.

(** [for check_suite in gh_check_suites] *)
Fixpoint check_suites_loop (suites : list gh_check_suite) (success : option bool)
    (old_travis : bool) : flow (option bool) (option bool) :=
  match suites with
  | [] => Next success
  | check_suite :: rest =>
      if str_in (app_name check_suite) (GITHUB_CHECK_SUITES_IGNORED cfg) then
        check_suites_loop rest success old_travis
      else
      if is_str (conclusion check_suite) "success" then
        check_suites_loop rest (Some true) old_travis
      else if negb (truthy (conclusion check_suite)) then
        (* not complete *)
        if String.eqb (app_name check_suite) "Travis CI" && old_travis
        then check_suites_loop rest success old_travis
        else Return None
      else Return (Some false)
  end.

Definition _get_commit_success (gh_commit : gh_commit) : M (option bool) :=
  gh_status <- ask CommitStatus (fun _ => status gh_commit) ;;
  match statuses_loop gh_status None false with
  | Return r => ret r
  | Next (success, old_travis) =>
      gh_check_suites <- ask CheckSuites (fun _ => check_suites gh_commit) ;;
      match check_suites_loop gh_check_suites success old_travis with
      | Return r => ret r
      | Next success => ret success
      end
  end.

(** *** [merge_bot_status] *)

Definition finalize_failure_comment (username : string) (e : exn) : string :=
  match e with
  | CalledProcessError cmd output =>
      "@" ++ username ++ " The merge process could not be " ++
      "finalized, because " ++
      "command `" ++ join " " cmd ++ "` failed with output:" ++ nl ++
      "```" ++ nl ++ output ++ nl ++ "```"
  | Exception msg =>
      "@" ++ username ++ " The merge process could not be " ++
      "finalized because an exception was raised: " ++ msg ++ "."
  end.

Definition aborted_comment (org repo merge_bot_branch sha username : string) : string :=
  "@" ++ username ++ " your merge command was aborted due to failed " ++
  "check(s), which you can inspect on " ++
  "[this commit of " ++ merge_bot_branch ++ "]" ++
  "(https://github.com/" ++ org ++ "/" ++ repo ++ "/commits/" ++ sha ++ ")." ++ nl ++ nl ++
  "After fixing the problem, you can re-issue a merge command. " ++
  "Please refrain from merging manually as it will most probably " ++
  "make the target branch red.".

Definition merge_bot_status (org repo merge_bot_branch sha : string) : M unit :=
  switchable "merge_bot" (
    with_temporary_clone org repo merge_bot_branch (
      head_sha <- git_get_head_sha ;;
      if negb (String.eqb head_sha sha) then
        (* the branch has evolved: ignore this status *)
        ret tt
      else
        intent <- lift (parse_merge_bot_branch codec merge_bot_branch) ;;
        let '(pr, _, username, _) := intent in
        perform Login ;;
        perform (Repository org repo) ;;
        gh_pr <- pull_request org repo pr ;;
        gh_commit <- commit org repo sha ;;
        success <- _get_commit_success gh_commit ;;
        match success with
        | None =>
            (* checks in progress *)
            ret tt
        | Some true =>
            try_except
              (_merge_bot_merge_pr org repo merge_bot_branch false ;; ret tt)
              (fun e =>
                 create_comment org repo pr (finalize_failure_comment username e) ;;
                 raise e)
        | Some false =>
            create_comment org repo pr
              (aborted_comment org repo merge_bot_branch sha username) ;;
            _git_call ["git"; "push"; "origin"; ":" ++ merge_bot_branch]
        end)).

(** ** Vocabulary of the claims about the verdict *)

(** The entries of a commit in the order the aggregator reads them: the
    statuses, then the check suites. *)
Inductive entry : Type :=
| OfStatus (s : gh_status)
| OfSuite (c : gh_check_suite).

Definition entries (statuses : list gh_status) (suites : list gh_check_suite)
  : list entry :=
  (map OfStatus statuses ++ map OfSuite suites)%list.

(** In the configured ignore-list of its kind. *)
Definition ignored (e : entry) : bool :=
  match e with
  | OfStatus s => str_in (context s) (GITHUB_STATUS_IGNORED cfg)
  | OfSuite c => str_in (app_name c) (GITHUB_CHECK_SUITES_IGNORED cfg)
  end.

(** A non-ignored success. *)
Definition succeeded (e : entry) : bool :=
  negb (ignored e) &&
  match e with
  | OfStatus s => String.eqb (state s) "success"
  | OfSuite c => is_str (conclusion c) "success"
  end.

(** A non-ignored legacy [continuous-integration/travis-ci] status reported
    success. *)
Definition legacy_travis_ok (statuses : list gh_status) : bool :=
  existsb (fun s => succeeded (OfStatus s) &&
                    startswith (context s) "continuous-integration/travis-ci")
          statuses.

(** A non-ignored pending status, or a non-ignored incomplete check suite
    that the Travis exception does not cover. *)
Definition in_progress (old_travis : bool) (e : entry) : bool :=
  negb (ignored e) &&
  match e with
  | OfStatus s => String.eqb (state s) "pending"
  | OfSuite c =>
      negb (truthy (conclusion c)) &&
      negb (String.eqb (app_name c) "Travis CI" && old_travis)
  end.

(** A non-ignored entry that is neither success nor pending/incomplete. *)
Definition failed (e : entry) : bool :=
  negb (ignored e) &&
  match e with
  | OfStatus s =>
      negb (String.eqb (state s) "success") && negb (String.eqb (state s) "pending")
  | OfSuite c =>
      negb (is_str (conclusion c) "success") && truthy (conclusion c)
  end.

(** ** Vocabulary of the claims about Finalize *)

(** The calls of one round of the bump loop. *)
Definition bump_events (bumpversion : option string) (addon_dir : string) : trace :=
  match bumpversion with
  | Some b =>
      if String.eqb b "" then []
      else [BumpManifestVersion addon_dir b; BuildAndCheckWheel addon_dir]
  | None => []
  end.

(** The calls of the publication step. *)
Definition publish_events (bumpversion : option string)
    (modified_addon_dirs : list string) (dry_run : bool) : trace :=
  match SIMPLE_INDEX_ROOT cfg with
  | Some root =>
      if truthy bumpversion && nonempty modified_addon_dirs
         && negb (String.eqb root "")
      then map (fun addon_dir => BuildAndPublishWheel addon_dir root dry_run)
               modified_addon_dirs
      else []
  | None => []
  end.

(** Up to the computation of the modified addons: the race check, then the
    PR head fetched into [tmp-pr-N] and checked out, and only then the
    question which addons differ from the target branch. *)
Definition survey_events (merge_bot_branch : string) (pr : Z)
    (target_branch : string) : trace :=
  [GitCheckOutput ["git"; "checkout"; target_branch];
   SubprocessCall ["git"; "merge-base"; "--is-ancestor"; target_branch; merge_bot_branch];
   GitCheckOutput ["git"; "fetch"; "origin";
                   "refs/pull/" ++ str pr ++ "/head:tmp-pr-" ++ str pr];
   GitCheckOutput ["git"; "checkout"; "tmp-pr-" ++ str pr];
   ModifiedAddonDirs "." target_branch].

(** Maintenance, version bumps and wheel checks on the merge-bot branch. *)
Definition addon_events (org repo merge_bot_branch target_branch : string)
    (bumpversion : option string) (modified_addon_dirs : list string) : trace :=
  [GitCheckOutput ["git"; "checkout"; merge_bot_branch]]
  +++ (if nonempty modified_addon_dirs
       then [MainBranchBotActions org repo target_branch] else [])
  +++ flat_map (bump_events bumpversion) modified_addon_dirs.

(** The merge commit and the push of the target branch. *)
Definition merge_events (org repo merge_bot_branch : string) (dry_run : bool)
    (pr : Z) (target_branch username : string) : trace :=
  [GitCheckOutput ["git"; "checkout"; target_branch];
   GitCheckOutput ["git"; "merge"; "--no-ff"; "--m";
                   merge_commit_msg pr target_branch username; merge_bot_branch]]
  +++ (if dry_run
       then [Log ("DRY-RUN git push in " ++ org ++ "/" ++ repo ++ "@" ++ target_branch)]
       else [Log ("git push in " ++ org ++ "/" ++ repo ++ "@" ++ target_branch);
             GitCheckOutput ["git"; "push"; "origin"; target_branch]]).

(** Cleanup and the closing of the pull request. *)
Definition closing_events (org repo merge_bot_branch : string) (dry_run : bool)
    (pr : Z) (target_branch : string) (gh_pr : gh_pull) (merge_sha : string) : trace :=
  [GitCheckOutput ["git"; "push"; "origin"; ":" ++ merge_bot_branch];
   Login;
   PullRequest org repo pr;
   HeadSha;
   CreateComment org repo pr (merged_comment org target_branch merge_sha);
   Issue org repo pr]
  +++ (if dry_run
       then [Log ("DRY-RUN add " ++ LABEL_MERGED ++ " label to PR " ++ url gh_pr)]
       else [Log ("add " ++ LABEL_MERGED ++ " label to PR " ++ url gh_pr);
             AddLabels org repo pr LABEL_MERGED])
  +++ [ClosePR org repo pr].

(** Every call of a Finalize that merges, in order. *)
Definition merged_trace (org repo merge_bot_branch : string) (dry_run : bool)
    (pr : Z) (target_branch username : string) (bumpversion : option string)
    (modified_addon_dirs : list string) (gh_pr : gh_pull) (merge_sha : string)
  : trace :=
  survey_events merge_bot_branch pr target_branch
  +++ addon_events org repo merge_bot_branch target_branch bumpversion modified_addon_dirs
  +++ merge_events org repo merge_bot_branch dry_run pr target_branch username
  +++ publish_events bumpversion modified_addon_dirs dry_run
  +++ closing_events org repo merge_bot_branch dry_run pr target_branch gh_pr merge_sha.

(** A [git push] command line. *)
Definition is_push (c : call) : bool :=
  match c with
  | GitCheckOutput ("git" :: "push" :: _) => true
  | _ => false
  end.

Definition is_add_labels (c : call) : bool :=
  match c with
  | AddLabels _ _ _ _ => true
  | _ => false
  end.

(** A real (not simulated) wheel publication. *)
Definition is_real_publish (c : call) : bool :=
  match c with
  | BuildAndPublishWheel _ _ dry_run => negb dry_run
  | _ => false
  end.

(** ** Vocabulary of the claims about Start *)

(** The git command lines of Start for a pull request whose base is
    [target_branch]. *)
Definition start_git_commands (pr : Z) (username : string)
    (bumpversion : option string) (target_branch : string) : list (list string) :=
  let merge_bot_branch :=
    make_merge_bot_branch codec pr target_branch username bumpversion in
  [["git"; "fetch"; "origin"; "pull/" ++ str pr ++ "/head:" ++ merge_bot_branch];
   ["git"; "checkout"; merge_bot_branch];
   ["git"; "rebase"; "--autosquash"; target_branch];
   ["git"; "push"; "origin"; ":" ++ merge_bot_branch];
   ["git"; "push"; "origin"; merge_bot_branch]].

(** [m] only appends calls that satisfy [P]. *)
Definition emits {A} (P : call -> Prop) (m : M A) : Prop :=
  forall t, exists new, snd (m t) = t +++ new /\ Forall P new.

(** The calls with which Start and Status open, up to the pull request. *)
Definition start_opening (org repo : string) (pr : Z) (username : string) : trace :=
  [Login; Repository org repo; UserCanPush org repo username; PullRequest org repo pr].

Definition status_opening (org repo merge_bot_branch sha : string) (pr : Z) : trace :=
  [TemporaryClone org repo merge_bot_branch; HeadSha; Login; Repository org repo;
   PullRequest org repo pr; Commit org repo sha].

(** The calls that Start may make for a given pull request. *)
Definition start_call (org repo : string) (pr : Z) (username : string)
    (bumpversion : option string) (c : call) : Prop :=
  match c with
  | Login | ReleaseClone | RandInt _ _ => True
  | Repository o r => o = org /\ r = repo
  | UserCanPush o r u => o = org /\ r = repo /\ u = username
  | PullRequest o r p => o = org /\ r = repo /\ p = pr
  | CreateComment o r p _ => o = org /\ r = repo /\ p = pr
  | TemporaryClone o r _ => o = org /\ r = repo
  | GitCheckOutput cmd =>
      exists target_branch,
        In cmd (start_git_commands pr username bumpversion target_branch)
  | _ => False
  end.

(** The progress comment of Start. *)
Definition rebased_comment (org repo merge_bot_branch intro_message : string) : string :=
  intro_message ++ nl ++
  "Rebased to [" ++ merge_bot_branch ++ "]" ++
  "(https://github.com/" ++ org ++ "/" ++ repo ++ "/commits/" ++ merge_bot_branch ++ ")" ++
  ", awaiting test results.".

(** ** Vocabulary of the claims about failures *)

Definition error_of {A} (r : result A) : option exn :=
  match r with
  | Val _ => None
  | Raise e => Some e
  end.

(** What the call [c] raises when it is made after the calls [t]; [None]
    when it returns.  Logging, [subprocess.call] and the release of the
    working copy raise nothing.  The two reporting calls of a commit object
    are answered by that object, not by the world, and neither Start nor
    Finalize makes them: they are given no failure here. *)
Definition raised (t : trace) (c : call) : option exn :=
  match c with
  | GitCheckOutput cmd => option_map (CalledProcessError cmd) (check_output w t cmd)
  | SubprocessCall _ | Log _ | ReleaseClone => None
  | RandInt lo hi =>
      if hi <? lo then Some (Exception (empty_range_error w lo hi)) else None
  | UserCanPush org repo username => error_of (can_push_answer w t org repo username)
  | PullRequest org repo pr => error_of (pull_request_answer w t org repo pr)
  | HeadSha => error_of (head_sha_answer w t)
  | Commit org repo sha => error_of (commit_answer w t org repo sha)
  | ModifiedAddonDirs dir ref => error_of (modified_addon_dirs_answer w t dir ref)
  | CommitStatus | CheckSuites => None
  | _ => effect w t c
  end.

(** A step of a sequence of calls: the call, and whether the code tolerates
    its failing with "unable to delete" in the captured output, as
    [_git_delete_branch] does for its push. *)
Definition step : Type := (call * bool)%type.

Definition strict (c : call) : step := (c, false).
Definition lenient (c : call) : step := (c, true).

Definition calls (steps : list step) : trace := map fst steps.

(** The exception with which the step [s], made after [t], stops the
    sequence it belongs to; [None] when the sequence goes on. *)
Definition stops (t : trace) (s : step) : option exn :=
  match raised t (fst s) with
  | Some (CalledProcessError cmd output) =>
      if snd s && contains "unable to delete" output then None
      else Some (CalledProcessError cmd output)
  | other => other
  end.

(** All the steps go through, each one made after those before it. *)
Fixpoint passes (steps : list step) (t : trace) : bool :=
  match steps with
  | [] => true
  | s :: rest =>
      match stops t s with
      | None => passes rest (t +++ [fst s])
      | Some _ => false
      end
  end.

(** A sequence that stops at its first step that fails: the exception that
    ended it, if any, and the calls made. *)
Fixpoint run_steps (steps : list step) (t : trace) : option exn * trace :=
  match steps with
  | [] => (None, t)
  | s :: rest =>
      match stops t s with
      | None => run_steps rest (t +++ [fst s])
      | Some e => (Some e, t +++ [fst s])
      end
  end.

(** The intro message that [_get_merge_bot_intro_message] draws after the
    calls [t]. *)
Definition drawn_message (t : trace) : string :=
  nth (Z.to_nat (random_source w t
                 mod Z.of_nat (length (MERGE_BOT_INTRO_MESSAGES cfg))))
      (MERGE_BOT_INTRO_MESSAGES cfg) "".

(** The git calls of the guarded sequence of Start, in its working copy:
    only the deletion of the remote branch is tolerant. *)
Definition start_git_steps (pr : Z) (username : string)
    (bumpversion : option string) (target_branch : string) : list step :=
  let merge_bot_branch :=
    make_merge_bot_branch codec pr target_branch username bumpversion in
  [strict (GitCheckOutput ["git"; "fetch"; "origin";
                           "pull/" ++ str pr ++ "/head:" ++ merge_bot_branch]);
   strict (GitCheckOutput ["git"; "checkout"; merge_bot_branch]);
   strict (GitCheckOutput ["git"; "rebase"; "--autosquash"; target_branch]);
   lenient (GitCheckOutput ["git"; "push"; "origin"; ":" ++ merge_bot_branch]);
   strict (GitCheckOutput ["git"; "push"; "origin"; merge_bot_branch])].

(** The guarded sequence of Start between the making and the release of
    the working copy, begun after the calls [t]: the git calls, the draw of
    an intro message when the caller gave none, the progress comment. *)
Definition start_steps (org repo : string) (pr : Z) (username : string)
    (bumpversion : option string) (intro_message : option string)
    (target_branch : string) (t : trace) : list step :=
  let merge_bot_branch :=
    make_merge_bot_branch codec pr target_branch username bumpversion in
  let git := start_git_steps pr username bumpversion target_branch in
  (git ++
   if truthy intro_message
   then [strict (CreateComment org repo pr
                   (rebased_comment org repo merge_bot_branch
                      (match intro_message with Some m => m | None => "" end)))]
   else [strict (RandInt 0 (Z.of_nat (length (MERGE_BOT_INTRO_MESSAGES cfg)) - 1));
         strict (CreateComment org repo pr
                   (rebased_comment org repo merge_bot_branch
                      (drawn_message (t +++ calls git))))])%list.

(** The comment with which Start reports the failure [e]. *)
Definition start_report (org repo : string) (pr : Z) (username : string)
    (e : exn) : call :=
  CreateComment org repo pr (start_failure_comment username e).

(** The run [m], begun after [t], is the sequence [steps]: it makes their
    calls in order, stops at the first that fails and raises its exception,
    and returns when all went through. *)
Definition follows (m : M unit) (steps : list step) (t : trace) : Prop :=
  m t = match run_steps steps t with
        | (None, t2) => (Val tt, t2)
        | (Some e, t2) => (Raise e, t2)
        end.

(** [m] stops at the first call that fails: whatever the history it starts
    from, the calls it makes all go through, except, when it raises, the
    last one, whose exception it raises.  Only calls in [tolerant] are
    given the tolerance of "unable to delete". *)
Definition fail_fast {A} (tolerant : call -> Prop) (m : M A) : Prop :=
  forall t r t',
    m t = (r, t') ->
    exists steps,
      t' = t +++ calls steps
      /\ (forall s, In s steps -> snd s = true -> tolerant (fst s))
      /\ match r with
         | Val _ => passes steps t = true
         | Raise e =>
             exists pre s,
               steps = (pre ++ [s])%list
               /\ passes pre t = true
               /\ stops (t +++ calls pre) s = Some e
         end.

(** ** The two loops of [_get_commit_success] *)

Lemma success_not_pending (x : string) :
  String.eqb x "success" = true -> String.eqb x "pending" = false.
Proof.
  intro H. apply String.eqb_eq in H. subst x. reflexivity.
Qed.

(** The status loop stops at a pending status that no failure precedes. *)
Lemma statuses_loop_pending pre s post success old_travis ot :
  (forall x, In x pre -> failed (OfStatus x) = false) ->
  in_progress ot (OfStatus s) = true ->
  statuses_loop (pre ++ s :: post) success old_travis = Return None.
Proof.
  revert success old_travis.
  induction pre as [|a pre IH]; intros success old_travis Hpre Hs; simpl.
  - unfold in_progress in Hs. simpl in Hs.
    destruct (str_in (context s) (GITHUB_STATUS_IGNORED cfg)); [discriminate|].
    simpl in Hs.
    destruct (String.eqb (state s) "success") eqn:E.
    + apply success_not_pending in E. congruence.
    + now rewrite Hs.
  - assert (Ha := Hpre a (or_introl eq_refl)).
    assert (Hrest : forall x, In x pre -> failed (OfStatus x) = false)
      by (intros x Hx; apply Hpre; now right).
    unfold failed in Ha. simpl in Ha.
    destruct (str_in (context a) (GITHUB_STATUS_IGNORED cfg)); [now apply IH|].
    destruct (String.eqb (state a) "success"); [now apply IH|].
    destruct (String.eqb (state a) "pending"); [reflexivity|discriminate].
Qed.

(** The status loop stops at a failed status that no pending one precedes. *)
Lemma statuses_loop_failed pre s post success old_travis ot :
  (forall x, In x pre -> in_progress ot (OfStatus x) = false) ->
  failed (OfStatus s) = true ->
  statuses_loop (pre ++ s :: post) success old_travis = Return (Some false).
Proof.
  revert success old_travis.
  induction pre as [|a pre IH]; intros success old_travis Hpre Hs; simpl.
  - unfold failed in Hs. simpl in Hs.
    destruct (str_in (context s) (GITHUB_STATUS_IGNORED cfg)); [discriminate|].
    destruct (String.eqb (state s) "success"); [discriminate|].
    destruct (String.eqb (state s) "pending"); [discriminate|reflexivity].
  - assert (Ha := Hpre a (or_introl eq_refl)).
    assert (Hrest : forall x, In x pre -> in_progress ot (OfStatus x) = false)
      by (intros x Hx; apply Hpre; now right).
    unfold in_progress in Ha. simpl in Ha.
    destruct (str_in (context a) (GITHUB_STATUS_IGNORED cfg)); [now apply IH|].
    destruct (String.eqb (state a) "success"); [now apply IH|].
    destruct (String.eqb (state a) "pending"); [discriminate|reflexivity].
Qed.

(** What a status loop that runs to its end has seen. *)
Lemma statuses_loop_next sts success old_travis s1 ot1 :
  statuses_loop sts success old_travis = Next (s1, ot1) ->
  s1 = (if existsb (fun s => succeeded (OfStatus s)) sts then Some true else success)
  /\ ot1 = (legacy_travis_ok sts || old_travis)%bool
  /\ (forall x ot, In x sts ->
        failed (OfStatus x) = false /\ in_progress ot (OfStatus x) = false).
Proof.
  revert success old_travis.
  induction sts as [|a sts IH]; intros success old_travis H; simpl in H.
  - inversion H; subst. split; [|split]; try reflexivity. intros; contradiction.
  - unfold legacy_travis_ok, succeeded, failed, in_progress. simpl.
    destruct (str_in (context a) (GITHUB_STATUS_IGNORED cfg)) eqn:Ei; simpl.
    + destruct (IH _ _ H) as (-> & -> & Hall). split; [|split]; try reflexivity.
      intros x ot [<-|Hx]; [now rewrite ?Ei | now apply (Hall x ot)].
    + destruct (String.eqb (state a) "success") eqn:Es; simpl.
      * destruct (IH _ _ H) as (-> & -> & Hall).
        split; [|split].
        -- now destruct (existsb _ sts).
        -- unfold legacy_travis_ok.
           destruct (startswith (context a) "continuous-integration/travis-ci");
             simpl; [now rewrite orb_true_r | reflexivity].
        -- intros x ot [<-|Hx]; [|now apply (Hall x ot)].
           rewrite Ei, Es. simpl. now rewrite (success_not_pending _ Es).
      * destruct (String.eqb (state a) "pending"); discriminate.
Qed.

(** The check-suite loop stops at an incomplete suite, outside the Travis
    exception, that no failure precedes. *)
Lemma check_suites_loop_pending pre c post success old_travis :
  (forall x, In x pre -> failed (OfSuite x) = false) ->
  in_progress old_travis (OfSuite c) = true ->
  check_suites_loop (pre ++ c :: post) success old_travis = Return None.
Proof.
  revert success.
  induction pre as [|a pre IH]; intros success Hpre Hc; simpl.
  - unfold in_progress in Hc. simpl in Hc.
    destruct (str_in (app_name c) (GITHUB_CHECK_SUITES_IGNORED cfg)); [discriminate|].
    simpl in Hc. apply andb_true_iff in Hc. destruct Hc as [Hf Ht].
    destruct (is_str (conclusion c) "success") eqn:E.
    + destruct (conclusion c) as [x|]; simpl in *; [|discriminate].
      apply String.eqb_eq in E. subst x. discriminate.
    + rewrite Hf. apply negb_true_iff in Ht. now rewrite Ht.
  - assert (Ha := Hpre a (or_introl eq_refl)).
    assert (Hrest : forall x, In x pre -> failed (OfSuite x) = false)
      by (intros x Hx; apply Hpre; now right).
    unfold failed in Ha. simpl in Ha.
    destruct (str_in (app_name a) (GITHUB_CHECK_SUITES_IGNORED cfg)); [now apply IH|].
    destruct (is_str (conclusion a) "success"); [now apply IH|].
    simpl in Ha. rewrite Ha. simpl.
    destruct (String.eqb (app_name a) "Travis CI" && old_travis)%bool;
      [now apply IH | reflexivity].
Qed.

(** The check-suite loop stops at a failed suite that no incomplete one,
    outside the Travis exception, precedes. *)
Lemma check_suites_loop_failed pre c post success old_travis :
  (forall x, In x pre -> in_progress old_travis (OfSuite x) = false) ->
  failed (OfSuite c) = true ->
  check_suites_loop (pre ++ c :: post) success old_travis = Return (Some false).
Proof.
  revert success.
  induction pre as [|a pre IH]; intros success Hpre Hc; simpl.
  - unfold failed in Hc. simpl in Hc.
    destruct (str_in (app_name c) (GITHUB_CHECK_SUITES_IGNORED cfg)); [discriminate|].
    destruct (is_str (conclusion c) "success"); [discriminate|].
    simpl in Hc. now rewrite Hc.
  - assert (Ha := Hpre a (or_introl eq_refl)).
    assert (Hrest : forall x, In x pre -> in_progress old_travis (OfSuite x) = false)
      by (intros x Hx; apply Hpre; now right).
    unfold in_progress in Ha. simpl in Ha.
    destruct (str_in (app_name a) (GITHUB_CHECK_SUITES_IGNORED cfg)); [now apply IH|].
    destruct (is_str (conclusion a) "success"); [now apply IH|].
    simpl in Ha.
    destruct (truthy (conclusion a)); simpl in *.
    + reflexivity.
    + apply negb_false_iff in Ha. rewrite Ha. now apply IH.
Qed.

(** What a check-suite loop that runs to its end has seen. *)
Lemma check_suites_loop_next css success old_travis s2 :
  check_suites_loop css success old_travis = Next s2 ->
  s2 = (if existsb (fun c => succeeded (OfSuite c)) css then Some true else success)
  /\ (forall x, In x css ->
        failed (OfSuite x) = false /\ in_progress old_travis (OfSuite x) = false).
Proof.
  revert success.
  induction css as [|a css IH]; intros success H; simpl in H.
  - inversion H; subst. split; [reflexivity | intros; contradiction].
  - unfold succeeded, failed, in_progress. simpl.
    destruct (str_in (app_name a) (GITHUB_CHECK_SUITES_IGNORED cfg)) eqn:Ei; simpl.
    + destruct (IH _ H) as (-> & Hall). split; [reflexivity|].
      intros x [<-|Hx]; [now rewrite ?Ei | now apply Hall].
    + destruct (is_str (conclusion a) "success") eqn:Es; simpl.
      * destruct (IH _ H) as (-> & Hall). split.
        -- now destruct (existsb _ css).
        -- intros x [<-|Hx]; [|now apply Hall].
           rewrite Ei, Es. simpl. split; [reflexivity|].
           destruct (conclusion a) as [y|]; simpl in *; [|discriminate].
           apply String.eqb_eq in Es. now subst y.
      * destruct (truthy (conclusion a)) eqn:Et; simpl in H; [discriminate|].
        destruct (String.eqb (app_name a) "Travis CI" && old_travis)%bool eqn:Ec;
          [|discriminate].
        destruct (IH _ H) as (-> & Hall). split; [reflexivity|].
        intros x [<-|Hx]; [|now apply Hall].
        rewrite Ei, Es, Et, Ec. now split.
Qed.

(** A status loop that returns early was stopped by a pending or by a
    failed status. *)
Lemma statuses_loop_return sts success old_travis r ot :
  statuses_loop sts success old_travis = Return r ->
  exists s, In s sts /\
    ((r = None /\ in_progress ot (OfStatus s) = true) \/
     (r = Some false /\ failed (OfStatus s) = true)).
Proof.
  revert success old_travis.
  induction sts as [|a sts IH]; intros success old_travis H; simpl in H;
    [discriminate|].
  destruct (str_in (context a) (GITHUB_STATUS_IGNORED cfg)) eqn:Ei.
  { destruct (IH _ _ H) as (s & Hs & Hc). exists s. split; [now right | exact Hc]. }
  destruct (String.eqb (state a) "success") eqn:Es.
  { destruct (IH _ _ H) as (s & Hs & Hc). exists s. split; [now right | exact Hc]. }
  exists a. split; [now left|].
  unfold in_progress, failed. simpl. rewrite Ei, Es. simpl.
  destruct (String.eqb (state a) "pending"); inversion H; subst; auto.
Qed.

Lemma check_suites_loop_return css success old_travis r :
  check_suites_loop css success old_travis = Return r ->
  exists c, In c css /\
    ((r = None /\ in_progress old_travis (OfSuite c) = true) \/
     (r = Some false /\ failed (OfSuite c) = true)).
Proof.
  revert success.
  induction css as [|a css IH]; intros success H; simpl in H; [discriminate|].
  destruct (str_in (app_name a) (GITHUB_CHECK_SUITES_IGNORED cfg)) eqn:Ei.
  { destruct (IH _ H) as (c & Hc & Hr). exists c. split; [now right | exact Hr]. }
  destruct (is_str (conclusion a) "success") eqn:Es.
  { destruct (IH _ H) as (c & Hc & Hr). exists c. split; [now right | exact Hr]. }
  destruct (truthy (conclusion a)) eqn:Et; simpl in H.
  { exists a. split; [now left|]. right. inversion H; subst.
    unfold failed. simpl. now rewrite Ei, Es, Et. }
  destruct (String.eqb (app_name a) "Travis CI" && old_travis)%bool eqn:Ec.
  { destruct (IH _ H) as (c & Hc & Hr). exists c. split; [now right | exact Hr]. }
  exists a. split; [now left|]. left. inversion H; subst.
  unfold in_progress. simpl. now rewrite Ei, Et, Ec.
Qed.

(** Where an entry of the evaluation order sits: among the statuses, or
    among the check suites after all the statuses. *)
Lemma entries_split sts css pre e post :
  entries sts css = (pre ++ e :: post)%list ->
  (exists p s q, sts = (p ++ s :: q)%list /\ e = OfStatus s /\ pre = map OfStatus p) \/
  (exists p c q, css = (p ++ c :: q)%list /\ e = OfSuite c /\
                 pre = (map OfStatus sts ++ map OfSuite p)%list).
Proof.
  unfold entries. revert pre.
  induction sts as [|a sts IH]; intros pre H; simpl in H.
  - right. revert pre H.
    induction css as [|b css IHc]; intros pre H; simpl in H.
    + destruct pre; discriminate.
    + destruct pre as [|x pre]; simpl in H; inversion H; subst.
      * exists [], b, css. now repeat split.
      * destruct (IHc _ H2) as (p & c & q & -> & -> & Hp). simpl in Hp. subst pre.
        exists (b :: p), c, q. now repeat split.
  - destruct pre as [|x pre]; simpl in H; inversion H; subst.
    + left. exists [], a, sts. now repeat split.
    + destruct (IH _ H2) as [(p & s & q & -> & -> & ->)|(p & c & q & -> & -> & ->)].
      * left. exists (a :: p), s, q. now repeat split.
      * right. exists p, c, q. now repeat split.
Qed.

(** The verdict, once both API calls have answered. *)
Lemma _get_commit_success_verdict c sts css t :
  status c = Val sts ->
  check_suites c = Val css ->
  fst (_get_commit_success c t) =
  Val match statuses_loop sts None false with
      | Return r => r
      | Next (success, old_travis) =>
          match check_suites_loop css success old_travis with
          | Return r => r
          | Next success => success
          end
      end.
Proof.
  intros Hs Hc. unfold _get_commit_success, bind, ask, ret. rewrite Hs.
  destruct (statuses_loop sts None false) as [[s1 ot1]|r]; [|reflexivity].
  rewrite Hc. now destruct (check_suites_loop css s1 ot1).
Qed.

(** ** Claims about the verdict *)

(** C2 (amended): a non-ignored pending status, or a non-ignored incomplete
    check suite that is not a ["Travis CI"] suite covered by a successful
    legacy status, makes the verdict Pending ([None]) whatever the other
    entries are, provided no non-ignored failure is read before it (statuses
    first, then check suites, each in order).  The covered Travis suites are
    skipped: with a successful legacy status and no other pending or failed
    entry the verdict is Success. *)
Theorem C2_pending_unless_failure_first c sts css t :
  status c = Val sts ->
  check_suites c = Val css ->
  (forall pre e post,
      entries sts css = (pre ++ e :: post)%list ->
      in_progress (legacy_travis_ok sts) e = true ->
      (forall x, In x pre -> failed x = false) ->
      fst (_get_commit_success c t) = Val None)
  /\ (legacy_travis_ok sts = true ->
      (forall x, In x (entries sts css) ->
         failed x = false /\ in_progress (legacy_travis_ok sts) x = false) ->
      fst (_get_commit_success c t) = Val (Some true)).
Proof.
  intros Hs Hc. rewrite (_get_commit_success_verdict c sts css t Hs Hc). split.
  - intros pre e post Hsplit He Hpre.
    destruct (entries_split _ _ _ _ _ Hsplit)
      as [(p & s & q & -> & -> & ->)|(p & x & q & -> & -> & ->)].
    + rewrite (statuses_loop_pending p s q None false (legacy_travis_ok (p ++ s :: q))); auto.
      intros y Hy. apply Hpre. now apply in_map.
    + destruct (statuses_loop sts None false) as [[s1 ot1]|r] eqn:El.
      * destruct (statuses_loop_next _ _ _ _ _ El) as (_ & -> & _).
        rewrite orb_false_r.
        rewrite check_suites_loop_pending; auto.
        intros y Hy. apply Hpre. apply in_or_app. right. now apply in_map.
      * destruct (statuses_loop_return _ _ _ _ false El) as (s & Hin & [[-> _]|[_ Hf]]);
          [reflexivity|].
        rewrite Hpre in Hf; [discriminate|].
        apply in_or_app. left. now apply in_map.
  - intros Hot Hall.
    assert (Hst : forall s, In s sts ->
              failed (OfStatus s) = false /\
              in_progress (legacy_travis_ok sts) (OfStatus s) = false).
    { intros s Hin. apply Hall. apply in_or_app. left. now apply in_map. }
    assert (Hcs : forall x, In x css ->
              failed (OfSuite x) = false /\
              in_progress (legacy_travis_ok sts) (OfSuite x) = false).
    { intros x Hin. apply Hall. apply in_or_app. right. now apply in_map. }
    destruct (statuses_loop sts None false) as [[s1 ot1]|r] eqn:El.
    + destruct (statuses_loop_next _ _ _ _ _ El) as (-> & -> & _).
      rewrite orb_false_r.
      assert (Hseen : existsb (fun s => succeeded (OfStatus s)) sts = true).
      { unfold legacy_travis_ok in Hot. apply existsb_exists in Hot.
        destruct Hot as (s & Hin & Hs'). apply andb_true_iff in Hs'.
        apply existsb_exists. exists s. now split. }
      rewrite Hseen.
      destruct (check_suites_loop css (Some true) (legacy_travis_ok sts)) as [s2|r] eqn:Ec.
      * destruct (check_suites_loop_next _ _ _ _ Ec) as (-> & _).
        now destruct (existsb _ css).
      * destruct (check_suites_loop_return _ _ _ _ Ec) as (x & Hin & [[_ Hp]|[_ Hf]]);
          destruct (Hcs x Hin); congruence.
    + destruct (statuses_loop_return _ _ _ _ (legacy_travis_ok sts) El)
        as (s & Hin & [[_ Hp]|[_ Hf]]); destruct (Hst s Hin); congruence.
Qed.

(** C3 (amended): a non-ignored failed entry makes the verdict Failure
    ([Some false]) whatever the other entries are, provided no non-ignored
    pending or incomplete entry (outside the Travis exception) is read
    before it. *)
Theorem C3_failure_unless_pending_first c sts css t pre e post :
  status c = Val sts ->
  check_suites c = Val css ->
  entries sts css = (pre ++ e :: post)%list ->
  failed e = true ->
  (forall x, In x pre -> in_progress (legacy_travis_ok sts) x = false) ->
  fst (_get_commit_success c t) = Val (Some false).
Proof.
  intros Hs Hc Hsplit He Hpre.
  rewrite (_get_commit_success_verdict c sts css t Hs Hc).
  destruct (entries_split _ _ _ _ _ Hsplit)
    as [(p & s & q & -> & -> & ->)|(p & x & q & -> & -> & ->)].
  - rewrite (statuses_loop_failed p s q None false (legacy_travis_ok (p ++ s :: q))); auto.
    intros y Hy. apply Hpre. now apply in_map.
  - destruct (statuses_loop sts None false) as [[s1 ot1]|r] eqn:El.
    + destruct (statuses_loop_next _ _ _ _ _ El) as (_ & -> & _).
      rewrite orb_false_r.
      rewrite check_suites_loop_failed; auto.
      intros y Hy. apply Hpre. apply in_or_app. right. now apply in_map.
    + destruct (statuses_loop_return _ _ _ _ (legacy_travis_ok sts) El)
        as (s & Hin & [[_ Hp]|[-> _]]); [|reflexivity].
      rewrite Hpre in Hp; [discriminate|].
      apply in_or_app. left. now apply in_map.
Qed.

(** What the two loops have seen when both run to their end. *)
Lemma loops_completed sts css s1 ot s2 :
  statuses_loop sts None false = Next (s1, ot) ->
  check_suites_loop css s1 ot = Next s2 ->
  ot = legacy_travis_ok sts
  /\ s2 = (if existsb succeeded (entries sts css) then Some true else None)
  /\ (forall x, In x (entries sts css) ->
        failed x = false /\ in_progress (legacy_travis_ok sts) x = false).
Proof.
  intros El Ec.
  destruct (statuses_loop_next _ _ _ _ _ El) as (-> & -> & Hst).
  rewrite orb_false_r in *.
  destruct (check_suites_loop_next _ _ _ _ Ec) as (-> & Hcs).
  split; [reflexivity|]. split.
  - unfold entries. rewrite existsb_app.
    assert (E1 : existsb succeeded (map OfStatus sts) =
                 existsb (fun s => succeeded (OfStatus s)) sts).
    { clear. induction sts as [|a l IH]; simpl; [reflexivity | now rewrite IH]. }
    assert (E2 : existsb succeeded (map OfSuite css) =
                 existsb (fun x => succeeded (OfSuite x)) css).
    { clear. induction css as [|a l IH]; simpl; [reflexivity | now rewrite IH]. }
    rewrite E1, E2.
    destruct (existsb (fun s => succeeded (OfStatus s)) sts);
      destruct (existsb (fun x => succeeded (OfSuite x)) css); reflexivity.
  - intros x Hin. unfold entries in Hin. apply in_app_or in Hin.
    destruct Hin as [Hin|Hin]; apply in_map_iff in Hin; destruct Hin as (y & <- & Hy).
    + now apply Hst.
    + now apply Hcs.
Qed.

(** Both loops run to their end when no entry is pending or failed. *)
Lemma loops_complete sts css :
  (forall x, In x (entries sts css) ->
     failed x = false /\ in_progress (legacy_travis_ok sts) x = false) ->
  exists s1 s2,
    statuses_loop sts None false = Next (s1, legacy_travis_ok sts)
    /\ check_suites_loop css s1 (legacy_travis_ok sts) = Next s2.
Proof.
  intro Hall.
  destruct (statuses_loop sts None false) as [[s1 ot1]|r] eqn:El.
  - destruct (statuses_loop_next _ _ _ _ _ El) as (_ & Hot & _).
    rewrite orb_false_r in Hot. subst ot1.
    destruct (check_suites_loop css s1 (legacy_travis_ok sts)) as [s2|r] eqn:Ec.
    + now exists s1, s2.
    + destruct (check_suites_loop_return _ _ _ _ Ec) as (x & Hin & Hx).
      destruct (Hall (OfSuite x)) as [Hf Hp].
      { apply in_or_app. right. now apply in_map. }
      destruct Hx as [[_ Hx]|[_ Hx]]; congruence.
  - destruct (statuses_loop_return _ _ _ _ (legacy_travis_ok sts) El) as (s & Hin & Hx).
    destruct (Hall (OfStatus s)) as [Hf Hp].
    { apply in_or_app. left. now apply in_map. }
    destruct Hx as [[_ Hx]|[_ Hx]]; congruence.
Qed.

(** C4: when every status and every check suite is ignored, or there is
    none, the verdict is Pending ([None]), never Success.  More generally,
    no short-circuit occurs (both loops run to their end) exactly when no
    entry is a non-ignored failure and none is pending or incomplete
    outside the Travis exception; the verdict is then Success if some entry
    is a non-ignored success and Pending otherwise.  A Failure verdict
    always comes from a non-ignored failed entry, so the completed loops
    never yield it. *)
Theorem C4_no_signal_is_pending c sts css t :
  status c = Val sts ->
  check_suites c = Val css ->
  ((forall x, In x (entries sts css) -> ignored x = true) ->
   fst (_get_commit_success c t) = Val None)
  /\ ((exists s1 ot s2,
         statuses_loop sts None false = Next (s1, ot)
         /\ check_suites_loop css s1 ot = Next s2)
      <-> (forall x, In x (entries sts css) ->
             failed x = false /\ in_progress (legacy_travis_ok sts) x = false))
  /\ ((forall x, In x (entries sts css) ->
         failed x = false /\ in_progress (legacy_travis_ok sts) x = false) ->
      fst (_get_commit_success c t) =
        Val (if existsb succeeded (entries sts css) then Some true else None))
  /\ (fst (_get_commit_success c t) = Val (Some false) ->
      exists x, In x (entries sts css) /\ failed x = true).
Proof.
  intros Hs Hc. rewrite (_get_commit_success_verdict c sts css t Hs Hc).
  assert (Hclear : (forall x, In x (entries sts css) ->
                      failed x = false /\ in_progress (legacy_travis_ok sts) x = false) ->
                   match statuses_loop sts None false with
                   | Return r => r
                   | Next (success, old_travis) =>
                       match check_suites_loop css success old_travis with
                       | Return r => r
                       | Next success => success
                       end
                   end
                   = (if existsb succeeded (entries sts css) then Some true else None)).
  { intro Hall. destruct (loops_complete sts css Hall) as (s1 & s2 & El & Ec).
    rewrite El, Ec. now destruct (loops_completed _ _ _ _ _ El Ec) as (_ & -> & _). }
  split; [|split; [|split]].
  - intros Hall.
    assert (Hnone : existsb succeeded (entries sts css) = false).
    { destruct (existsb succeeded (entries sts css)) eqn:E; [|reflexivity].
      apply existsb_exists in E. destruct E as (x & Hin & Hx).
      unfold succeeded in Hx. rewrite (Hall x Hin) in Hx. discriminate. }
    rewrite Hclear, Hnone; [reflexivity|].
    intros x Hin. unfold failed, in_progress. now rewrite (Hall x Hin).
  - split.
    + intros (s1 & ot & s2 & El & Ec).
      now destruct (loops_completed _ _ _ _ _ El Ec) as (_ & _ & Hall).
    + intro Hall. destruct (loops_complete sts css Hall) as (s1 & s2 & El & Ec).
      now exists s1, (legacy_travis_ok sts), s2.
  - intro Hall. now rewrite (Hclear Hall).
  - destruct (statuses_loop sts None false) as [[s1 ot1]|r] eqn:El.
    + destruct (check_suites_loop css s1 ot1) as [s2|r] eqn:Ec.
      * destruct (loops_completed _ _ _ _ _ El Ec) as (_ & -> & _).
        now destruct (existsb succeeded (entries sts css)).
      * intros [= ->].
        destruct (check_suites_loop_return _ _ _ _ Ec) as (x & Hin & [[Hx _]|[_ Hx]]);
          [discriminate|].
        exists (OfSuite x). split; [|exact Hx].
        apply in_or_app. right. now apply in_map.
    + intros [= ->].
      destruct (statuses_loop_return _ _ _ _ false El) as (x & Hin & [[Hx _]|[_ Hx]]);
        [discriminate|].
      exists (OfStatus x). split; [|exact Hx].
      apply in_or_app. left. now apply in_map.
Qed.

(** ** Runs that return *)

Lemma bind_inv {A B} (m : M A) (k : A -> M B) t b t' :
  bind m k t = (Val b, t') ->
  exists a t1, m t = (Val a, t1) /\ k a t1 = (Val b, t').
Proof.
  unfold bind. destruct (m t) as [[a|e] t1]; intro H; [|discriminate].
  now exists a, t1.
Qed.

Lemma ret_inv {A} (a b : A) t t' : ret a t = (Val b, t') -> a = b /\ t' = t.
Proof. unfold ret. intro H. inversion H. now split. Qed.

Lemma _git_call_inv cmd t u t' :
  _git_call cmd t = (Val u, t') ->
  check_output w t cmd = None /\ t' = t +++ [GitCheckOutput cmd].
Proof.
  unfold _git_call. destruct (check_output w t cmd); intro H; inversion H. now split.
Qed.

Lemma perform_inv c t u t' :
  perform c t = (Val u, t') -> effect w t c = None /\ t' = t +++ [c].
Proof.
  unfold perform. destruct (effect w t c); intro H; inversion H. now split.
Qed.

Lemma ask_inv {A} c (oracle : trace -> result A) t a t' :
  ask c oracle t = (Val a, t') -> oracle t = Val a /\ t' = t +++ [c].
Proof. unfold ask. intro H. inversion H. now split. Qed.

Lemma log_inv msg t u t' : log msg t = (Val u, t') -> t' = t +++ [Log msg].
Proof. unfold log. intro H. now inversion H. Qed.

Lemma lift_inv {A} (r : result A) t a t' : lift r t = (Val a, t') -> r = Val a /\ t' = t.
Proof. unfold lift. intro H. inversion H. now split. Qed.

Lemma subprocess_call_inv cmd t r t' :
  subprocess_call cmd t = (Val r, t') ->
  r = exit_status w t cmd /\ t' = t +++ [SubprocessCall cmd].
Proof. unfold subprocess_call. intro H. inversion H. now split. Qed.

(** A deletion that returns has run its one push, whether that push
    succeeded or failed with "unable to delete". *)
Lemma _git_delete_branch_inv remote branch t u t' :
  _git_delete_branch remote branch t = (Val u, t') ->
  t' = t +++ [GitCheckOutput ["git"; "push"; remote; ":" ++ branch]].
Proof.
  unfold _git_delete_branch, try_except, _git_call.
  destruct (check_output w t _) as [out|]; intro H.
  - destruct (contains "unable to delete" out); inversion H. reflexivity.
  - now inversion H.
Qed.

Lemma for_each_bump_inv bumpversion addons t u t' :
  for_each (bump_and_check bumpversion) addons t = (Val u, t') ->
  t' = t +++ flat_map (bump_events bumpversion) addons.
Proof.
  revert t. induction addons as [|a l IH]; intros t H; simpl in H.
  - apply ret_inv in H. destruct H as [_ ->]. simpl. now rewrite app_nil_r.
  - apply bind_inv in H. destruct H as (x & t1 & Ha & H).
    apply IH in H. subst t'. simpl. rewrite app_assoc. f_equal.
    unfold bump_and_check, bump_events in *.
    destruct bumpversion as [b|].
    + destruct (String.eqb b "").
      * apply ret_inv in Ha. destruct Ha as [_ ->]. now rewrite app_nil_r.
      * apply bind_inv in Ha. destruct Ha as (y & t2 & H1 & H2).
        apply perform_inv in H1. apply perform_inv in H2.
        destruct H1 as [_ ->]. destruct H2 as [_ ->]. now rewrite <- app_assoc.
    + apply ret_inv in Ha. destruct Ha as [_ ->]. now rewrite app_nil_r.
Qed.

Lemma for_each_publish_inv root dry_run addons t u t' :
  for_each (fun addon_dir => perform (BuildAndPublishWheel addon_dir root dry_run))
    addons t = (Val u, t') ->
  t' = t +++ map (fun addon_dir => BuildAndPublishWheel addon_dir root dry_run) addons.
Proof.
  revert t. induction addons as [|a l IH]; intros t H; simpl in H.
  - apply ret_inv in H. destruct H as [_ ->]. simpl. now rewrite app_nil_r.
  - apply bind_inv in H. destruct H as (x & t1 & Ha & H).
    apply IH in H. apply perform_inv in Ha. destruct Ha as [_ ->].
    subst t'. simpl. now rewrite <- app_assoc.
Qed.

Lemma publish_wheels_inv bumpversion addons dry_run t u t' :
  publish_wheels bumpversion addons dry_run t = (Val u, t') ->
  t' = t +++ publish_events bumpversion addons dry_run.
Proof.
  unfold publish_wheels, publish_events.
  destruct (SIMPLE_INDEX_ROOT cfg) as [root|].
  - destruct (truthy bumpversion && nonempty addons && negb (String.eqb root ""))%bool.
    + apply for_each_publish_inv.
    + intro H. apply ret_inv in H. destruct H as [_ ->]. now rewrite app_nil_r.
  - intro H. apply ret_inv in H. destruct H as [_ ->]. now rewrite app_nil_r.
Qed.

(** One step of the inversion of a run that returned. *)
Ltac run_inv :=
  match goal with
  | H : bind _ _ _ = (Val _, _) |- _ =>
      apply bind_inv in H; destruct H as (? & ? & ? & H); cbv beta in H
  | H : _git_call _ _ = (Val _, _) |- _ =>
      apply _git_call_inv in H; destruct H as [? ->]
  | H : perform _ _ = (Val _, _) |- _ =>
      apply perform_inv in H; destruct H as [? ->]
  | H : create_comment _ _ _ _ _ = (Val _, _) |- _ =>
      apply perform_inv in H; destruct H as [? ->]
  | H : log _ _ = (Val _, _) |- _ => apply log_inv in H; subst
  | H : lift _ _ = (Val _, _) |- _ => apply lift_inv in H; destruct H as [? ->]
  | H : ret _ _ = (Val _, _) |- _ => apply ret_inv in H; destruct H as [? ->]
  | H : subprocess_call _ _ = (Val _, _) |- _ =>
      apply subprocess_call_inv in H; destruct H as [? ->]
  | H : _git_delete_branch _ _ _ = (Val _, _) |- _ =>
      apply _git_delete_branch_inv in H; subst
  | H : for_each (bump_and_check _) _ _ = (Val _, _) |- _ =>
      apply for_each_bump_inv in H; subst
  | H : publish_wheels _ _ _ _ = (Val _, _) |- _ =>
      apply publish_wheels_inv in H; subst
  | H : pull_request _ _ _ _ = (Val _, _) |- _ =>
      apply ask_inv in H; destruct H as [? ->]
  | H : git_get_head_sha _ = (Val _, _) |- _ =>
      apply ask_inv in H; destruct H as [? ->]
  | H : git_modified_addon_dirs _ _ _ = (Val _, _) |- _ =>
      apply ask_inv in H; destruct H as [? ->]
  | H : commit _ _ _ _ = (Val _, _) |- _ =>
      apply ask_inv in H; destruct H as [? ->]
  | H : (if ?c then _ else _) _ = (Val _, _) |- _ => destruct c eqn:?
  end.

(** Both sides are the same calls, appended in another grouping. *)
Ltac same_trace :=
  unfold merged_trace, survey_events, addon_events, merge_events, closing_events;
  repeat match goal with E : nonempty _ = _ |- _ => rewrite E; clear E end;
  repeat rewrite <- app_assoc; cbn [app]; try reflexivity.

(** A Finalize that returns [True] decoded the branch, passed the race
    check and made exactly the calls of [merged_trace]; the modified addons
    are the answer given right after the checkout of the PR head. *)
Lemma _merge_bot_merge_pr_merged org repo merge_bot_branch dry_run t t' :
  _merge_bot_merge_pr org repo merge_bot_branch dry_run t = (Val true, t') ->
  exists pr target_branch username bumpversion addons gh_pr merge_sha,
    parse_merge_bot_branch codec merge_bot_branch
      = Val (pr, target_branch, username, bumpversion)
    /\ modified_addon_dirs_answer w
         (t +++ [GitCheckOutput ["git"; "checkout"; target_branch];
                 SubprocessCall ["git"; "merge-base"; "--is-ancestor";
                                 target_branch; merge_bot_branch];
                 GitCheckOutput ["git"; "fetch"; "origin";
                                 "refs/pull/" ++ str pr ++ "/head:tmp-pr-" ++ str pr];
                 GitCheckOutput ["git"; "checkout"; "tmp-pr-" ++ str pr]])
         "." target_branch = Val addons
    /\ t' = t +++ merged_trace org repo merge_bot_branch dry_run pr target_branch
                    username bumpversion addons gh_pr merge_sha.
Proof.
  unfold _merge_bot_merge_pr. intro H.
  do 2 run_inv. destruct x as [[[pr target_branch] username] bumpversion].
  do 4 run_inv.
  repeat run_inv; try congruence;
    match goal with
    | Hm : modified_addon_dirs_answer w _ _ _ = Val ?addons,
      Hp : pull_request_answer w _ _ _ _ = Val ?gh_pr,
      Hs : head_sha_answer w _ = Val ?merge_sha |- _ =>
        exists pr, target_branch, username, bumpversion, addons, gh_pr, merge_sha;
        split; [assumption|];
        split; [repeat rewrite <- app_assoc in Hm; exact Hm | same_trace]
    end.
Qed.

(** A Finalize that returns [False] saw the ancestor check fail. *)
Lemma _merge_bot_merge_pr_not_merged org repo merge_bot_branch dry_run t t' :
  _merge_bot_merge_pr org repo merge_bot_branch dry_run t = (Val false, t') ->
  exists pr target_branch username bumpversion,
    parse_merge_bot_branch codec merge_bot_branch
      = Val (pr, target_branch, username, bumpversion)
    /\ exit_status w (t +++ [GitCheckOutput ["git"; "checkout"; target_branch]])
         ["git"; "merge-base"; "--is-ancestor"; target_branch; merge_bot_branch] <> 0.
Proof.
  unfold _merge_bot_merge_pr. intro H.
  do 2 run_inv. destruct x as [[[pr target_branch] username] bumpversion].
  do 4 run_inv. subst.
  exists pr, target_branch, username, bumpversion. split; [assumption|].
  match type of H with
  | (if negb ?c then _ else _) _ = _ => destruct c eqn:Hrace
  end; simpl in H.
  - repeat run_inv; congruence.
  - now apply Z.eqb_neq.
Qed.

(** ** Claims about Status and Finalize *)

(** C6: a Status event whose SHA is not the current head of the merge-bot
    branch is discarded: Status returns normally and, apart from acquiring
    and releasing its working copy and reading the head, makes no call.  No
    intent is decoded (the statement holds for every codec, also one that
    raises on this branch name), no commit is looked up, no comment posted,
    no git command run. *)
Theorem C6_stale_status_is_discarded org repo merge_bot_branch sha t head :
  effect w t (TemporaryClone org repo merge_bot_branch) = None ->
  head_sha_answer w (t +++ [TemporaryClone org repo merge_bot_branch]) = Val head ->
  head <> sha ->
  merge_bot_status org repo merge_bot_branch sha t =
  (Val tt,
   if switch_enabled cfg "merge_bot"
   then t +++ [TemporaryClone org repo merge_bot_branch; HeadSha; ReleaseClone]
   else t).
Proof.
  intros Hclone Hhead Hne.
  unfold merge_bot_status, switchable.
  destruct (switch_enabled cfg "merge_bot"); [|reflexivity].
  unfold with_temporary_clone, perform. rewrite Hclone.
  unfold bind at 1. unfold git_get_head_sha, ask. rewrite Hhead.
  apply String.eqb_neq in Hne. rewrite Hne. cbn [negb]. unfold ret.
  cbv beta iota. now rewrite <- !app_assoc.
Qed.


(** Membership in a trace given as appended segments. *)
Ltac find_in :=
  match goal with
  | |- In _ (_ +++ _) => apply in_or_app; first [left; find_in | right; find_in]
  | |- In _ (_ :: _) => first [left; reflexivity | right; find_in]
  end.

(** What a dry run of the merge path never does. *)
Lemma merged_trace_dry org repo merge_bot_branch pr target_branch username
    bumpversion addons gh_pr merge_sha :
  Forall (fun c =>
            is_add_labels c = false /\ is_real_publish c = false /\
            (is_push c = true ->
             c = GitCheckOutput ["git"; "push"; "origin"; ":" ++ merge_bot_branch]))
    (merged_trace org repo merge_bot_branch true pr target_branch username
       bumpversion addons gh_pr merge_sha).
Proof.
  unfold merged_trace, survey_events, addon_events, merge_events, closing_events.
  repeat (apply Forall_app; split).
  - repeat constructor; discriminate.
  - repeat constructor; discriminate.
  - destruct (nonempty addons); repeat constructor; discriminate.
  - apply Forall_flat_map. apply Forall_forall. intros a _.
    unfold bump_events. destruct bumpversion as [b|]; [|constructor].
    destruct (String.eqb b ""); repeat constructor; discriminate.
  - repeat constructor; discriminate.
  - repeat constructor; discriminate.
  - unfold publish_events. destruct (SIMPLE_INDEX_ROOT cfg) as [root|]; [|constructor].
    destruct (truthy bumpversion && nonempty addons && negb (String.eqb root ""))%bool;
      [|constructor].
    apply Forall_map. apply Forall_forall. intros a _.
    repeat split; discriminate.
  - repeat constructor; discriminate.
  - repeat constructor; discriminate.
  - repeat constructor; discriminate.
Qed.

(** C10: a dry-run Finalize that merges does create the merge commit, does
    delete the remote merge-bot branch, does post the success comment and
    does close the pull request; what it holds back is the push of the
    target branch (its only [git push] is the branch deletion), the label
    (no [add_labels] call) and the wheel publication (every
    [build_and_publish_wheel] call carries [dry_run]); push and label are
    logged as [DRY-RUN] instead. *)
Theorem C10_dry_run_holds_back_push_label_publish org repo merge_bot_branch t t' :
  _merge_bot_merge_pr org repo merge_bot_branch true t = (Val true, t') ->
  exists pr target_branch username bumpversion gh_pr merge_sha new,
    parse_merge_bot_branch codec merge_bot_branch
      = Val (pr, target_branch, username, bumpversion)
    /\ t' = t +++ new
    /\ In (GitCheckOutput ["git"; "merge"; "--no-ff"; "--m";
                           merge_commit_msg pr target_branch username;
                           merge_bot_branch]) new
    /\ In (GitCheckOutput ["git"; "push"; "origin"; ":" ++ merge_bot_branch]) new
    /\ In (CreateComment org repo pr (merged_comment org target_branch merge_sha)) new
    /\ In (ClosePR org repo pr) new
    /\ In (Log ("DRY-RUN git push in " ++ org ++ "/" ++ repo ++ "@" ++ target_branch)) new
    /\ In (Log ("DRY-RUN add " ++ LABEL_MERGED ++ " label to PR " ++ url gh_pr)) new
    /\ (forall c, In c new ->
          is_add_labels c = false /\ is_real_publish c = false /\
          (is_push c = true ->
           c = GitCheckOutput ["git"; "push"; "origin"; ":" ++ merge_bot_branch])).
Proof.
  intro H. apply _merge_bot_merge_pr_merged in H.
  destruct H as (pr & target_branch & username & bumpversion & addons & gh_pr
                 & merge_sha & Hparse & _ & ->).
  exists pr, target_branch, username, bumpversion, gh_pr, merge_sha.
  eexists. split; [exact Hparse|]. split; [reflexivity|].
  assert (Hdry := merged_trace_dry org repo merge_bot_branch pr target_branch
                    username bumpversion addons gh_pr merge_sha).
  rewrite Forall_forall in Hdry.
  unfold merged_trace, merge_events, closing_events. cbv iota.
  repeat (split; [find_in|]). exact Hdry.
Qed.

(** ** Calls that a computation may make *)

Lemma emits_ret {A} P (a : A) : emits P (ret a).
Proof. intro t. exists []. simpl. now rewrite app_nil_r. Qed.

Lemma emits_raise {A} P e : emits P (@raise A e).
Proof. intro t. exists []. simpl. now rewrite app_nil_r. Qed.

Lemma emits_one {A} (P : call -> Prop) (m : M A) c :
  P c -> (forall t, snd (m t) = t +++ [c]) -> emits P m.
Proof. intros Hc Hm t. exists [c]. split; [apply Hm | now constructor]. Qed.

Lemma emits_perform (P : call -> Prop) c : P c -> emits P (perform c).
Proof.
  intro Hc. apply (emits_one P _ c Hc). intro t. unfold perform.
  now destruct (effect w t c).
Qed.

Lemma emits_ask {A} (P : call -> Prop) c (oracle : trace -> result A) :
  P c -> emits P (ask c oracle).
Proof. intro Hc. now apply (emits_one P _ c Hc). Qed.

Lemma emits_git_call (P : call -> Prop) cmd :
  P (GitCheckOutput cmd) -> emits P (_git_call cmd).
Proof.
  intro Hc. apply (emits_one P _ _ Hc). intro t. unfold _git_call.
  now destruct (check_output w t cmd).
Qed.

Lemma emits_bind {A B} P (m : M A) (k : A -> M B) :
  emits P m -> (forall a, emits P (k a)) -> emits P (bind m k).
Proof.
  intros Hm Hk t. destruct (Hm t) as (n1 & E1 & F1). unfold bind.
  destruct (m t) as [[a|e] t1]; simpl in E1; subst t1.
  - destruct (Hk a (t +++ n1)) as (n2 & E2 & F2). exists (n1 +++ n2).
    rewrite E2, app_assoc. split; [reflexivity | now apply Forall_app].
  - now exists n1.
Qed.

Lemma emits_try_except {A} P (m : M A) (h : exn -> M A) :
  emits P m -> (forall e, emits P (h e)) -> emits P (try_except m h).
Proof.
  intros Hm Hh t. destruct (Hm t) as (n1 & E1 & F1). unfold try_except.
  destruct (m t) as [[a|e] t1]; simpl in E1; subst t1.
  - now exists n1.
  - destruct (Hh e (t +++ n1)) as (n2 & E2 & F2). exists (n1 +++ n2).
    rewrite E2, app_assoc. split; [reflexivity | now apply Forall_app].
Qed.

Lemma emits_with_temporary_clone {A} (P : call -> Prop) org repo branch (body : M A) :
  P (TemporaryClone org repo branch) -> P ReleaseClone -> emits P body ->
  emits P (with_temporary_clone org repo branch body).
Proof.
  intros Hc Hr Hb t. unfold with_temporary_clone, perform.
  destruct (effect w t _).
  - exists [TemporaryClone org repo branch]. split; [reflexivity | now constructor].
  - destruct (Hb (t +++ [TemporaryClone org repo branch])) as (n & E & F).
    destruct (body _) as [r t2]. simpl in E. subst t2.
    exists (TemporaryClone org repo branch :: n +++ [ReleaseClone]). split.
    + simpl. now rewrite <- !app_assoc.
    + constructor; [assumption|]. apply Forall_app. split; [assumption | now constructor].
Qed.

Lemma emits_git_delete_branch (P : call -> Prop) remote branch :
  P (GitCheckOutput ["git"; "push"; remote; ":" ++ branch]) ->
  emits P (_git_delete_branch remote branch).
Proof.
  intro Hc. apply (emits_one P _ _ Hc). intro t.
  unfold _git_delete_branch, try_except, _git_call.
  destruct (check_output w t _) as [out|]; [|reflexivity].
  now destruct (contains "unable to delete" out).
Qed.

Lemma emits_intro_message (P : call -> Prop) :
  (forall lo hi, P (RandInt lo hi)) -> emits P _get_merge_bot_intro_message.
Proof.
  intro Hc. unfold _get_merge_bot_intro_message. apply emits_bind.
  - intro t. unfold randint.
    destruct (_ <? 0);
      (eexists [_]; split; [reflexivity | constructor; [apply Hc | constructor]]).
  - intro i. destruct (nth_error _ _); [apply emits_ret | apply emits_raise].
Qed.

(** The git commands of the guarded sequence of Start, and of its handlers:
    fetch, checkout, rebase, delete and push of the merge-bot branch
    computed from the base of the pull request. *)
Lemma start_guarded_git_commands org repo pr username bumpversion intro_message gh_pr :
  emits (fun c => forall cmd, c = GitCheckOutput cmd ->
                  In cmd (start_git_commands pr username bumpversion (base_ref gh_pr)))
        (try_except
           (start_rebase_and_push org repo pr username bumpversion intro_message
              (base_ref gh_pr))
           (fun e =>
              create_comment org repo pr (start_failure_comment username e) ;;
              raise e)).
Proof.
  assert (Hgit : forall cmd0,
            In cmd0 (start_git_commands pr username bumpversion (base_ref gh_pr)) ->
            forall cmd, GitCheckOutput cmd0 = GitCheckOutput cmd ->
            In cmd (start_git_commands pr username bumpversion (base_ref gh_pr))).
  { intros cmd0 Hin cmd E. now inversion E; subst. }
  apply emits_try_except.
  - unfold start_rebase_and_push.
    apply emits_with_temporary_clone; try discriminate.
    apply emits_bind; [apply emits_git_call, Hgit; simpl; tauto | intros _].
    apply emits_bind; [apply emits_git_call, Hgit; simpl; tauto | intros _].
    apply emits_bind; [apply emits_git_call, Hgit; simpl; tauto | intros _].
    apply emits_bind; [apply emits_git_delete_branch, Hgit; simpl; tauto | intros _].
    apply emits_bind; [apply emits_git_call, Hgit; simpl; tauto | intros _].
    apply emits_bind; [|intros m; apply emits_perform; discriminate].
    destruct (truthy intro_message); [apply emits_ret|].
    apply emits_intro_message; discriminate.
  - intro e. apply emits_bind; [apply emits_perform; discriminate | intros _].
    apply emits_raise.
Qed.

(** ** Runs that go on *)

Lemma bind_val {A B} (m : M A) (k : A -> M B) t a t1 :
  m t = (Val a, t1) -> bind m k t = k a t1.
Proof. unfold bind. now intros ->. Qed.

(** A Success verdict has read both the statuses and the check suites. *)
Lemma _get_commit_success_passed c t :
  fst (_get_commit_success c t) = Val (Some true) ->
  _get_commit_success c t = (Val (Some true), t +++ [CommitStatus; CheckSuites]).
Proof.
  unfold _get_commit_success, bind, ask, ret.
  destruct (status c) as [sts|e]; [|discriminate].
  destruct (statuses_loop sts None false) as [[s1 ot1]|r] eqn:El.
  - destruct (check_suites c) as [css|e]; [|discriminate].
    rewrite <- app_assoc. simpl.
    destruct (check_suites_loop css s1 ot1); simpl; now intros [= ->].
  - simpl. intros [= ->].
    destruct (statuses_loop_return _ _ _ _ false El) as (s & _ & [[? _]|[? _]]);
      discriminate.
Qed.

(** ** Runs that may raise *)

Lemma bind_cases {A B} (m : M A) (k : A -> M B) t r t' :
  bind m k t = (r, t') ->
  (exists e, m t = (Raise e, t') /\ r = Raise e)
  \/ (exists a t1, m t = (Val a, t1) /\ k a t1 = (r, t')).
Proof.
  unfold bind. destruct (m t) as [[a|e] t1]; intro H.
  - right. now exists a, t1.
  - left. exists e. now inversion H.
Qed.

Lemma _git_call_trace cmd t r t' :
  _git_call cmd t = (r, t') -> t' = t +++ [GitCheckOutput cmd].
Proof. unfold _git_call. destruct (check_output w t cmd); now intros [= _ <-]. Qed.

Lemma perform_trace c t r t' : perform c t = (r, t') -> t' = t +++ [c].
Proof. unfold perform. destruct (effect w t c); now intros [= _ <-]. Qed.

Lemma ask_trace {A} c (oracle : trace -> result A) t r t' :
  ask c oracle t = (r, t') -> t' = t +++ [c].
Proof. unfold ask. now intros [= _ <-]. Qed.

Lemma _git_delete_branch_trace remote branch t r t' :
  _git_delete_branch remote branch t = (r, t') ->
  t' = t +++ [GitCheckOutput ["git"; "push"; remote; ":" ++ branch]].
Proof.
  unfold _git_delete_branch, try_except, _git_call.
  destruct (check_output w t _) as [out|]; [|now intros [= _ <-]].
  destruct (contains "unable to delete" out); now intros [= _ <-].
Qed.

(** ** Start, step by step *)

Lemma randint_in_range lo hi t :
  lo <= hi ->
  exists i, lo <= i <= hi /\ randint lo hi t = (Val i, t +++ [RandInt lo hi]).
Proof.
  intro Hle. unfold randint.
  destruct (hi <? lo) eqn:E; [apply Z.ltb_lt in E; lia|].
  exists (lo + random_source w t mod (hi - lo + 1)). split; [|reflexivity].
  pose proof (Z.mod_pos_bound (random_source w t) (hi - lo + 1)). lia.
Qed.

(** What [_get_merge_bot_intro_message] does, by the size of the pool. *)
Lemma intro_message_cases t :
  match MERGE_BOT_INTRO_MESSAGES cfg with
  | [] => _get_merge_bot_intro_message t
          = (Raise (Exception (empty_range_error w 0 (-1))), t +++ [RandInt 0 (-1)])
  | _ :: _ =>
      exists m, In m (MERGE_BOT_INTRO_MESSAGES cfg) /\
        _get_merge_bot_intro_message t =
        (Val m, t +++ [RandInt 0 (Z.of_nat (length (MERGE_BOT_INTRO_MESSAGES cfg)) - 1)])
  end.
Proof.
  unfold _get_merge_bot_intro_message.
  destruct (MERGE_BOT_INTRO_MESSAGES cfg) as [|m0 l] eqn:Epool.
  - reflexivity.
  - rewrite <- Epool.
    assert (Hlen : 0 <= Z.of_nat (length (MERGE_BOT_INTRO_MESSAGES cfg)) - 1)
      by (rewrite Epool; simpl length; lia).
    destruct (randint_in_range 0 _ t Hlen) as (i & Hi & Hr).
    destruct (nth_error (MERGE_BOT_INTRO_MESSAGES cfg) (Z.to_nat i)) as [m|] eqn:En.
    + exists m. split; [now apply nth_error_In in En|].
      unfold bind. rewrite Hr, En. reflexivity.
    + apply nth_error_None in En. lia.
Qed.

Lemma _get_merge_bot_intro_message_inv t m t' :
  _get_merge_bot_intro_message t = (Val m, t') ->
  In m (MERGE_BOT_INTRO_MESSAGES cfg)
  /\ t' = t +++ [RandInt 0 (Z.of_nat (length (MERGE_BOT_INTRO_MESSAGES cfg)) - 1)].
Proof.
  intro H. pose proof (intro_message_cases t) as Hc.
  destruct (MERGE_BOT_INTRO_MESSAGES cfg) as [|m0 l].
  - congruence.
  - destruct Hc as (m' & Hin & Hc). rewrite Hc in H. injection H as <- <-.
    now split.
Qed.

Lemma try_except_inv {A} (m : M A) (h : exn -> M A) t a t' :
  try_except m h t = (Val a, t') ->
  m t = (Val a, t') \/ exists e t1, m t = (Raise e, t1) /\ h e t1 = (Val a, t').
Proof.
  unfold try_except. destruct (m t) as [[x|e] t1]; intro H.
  - now left.
  - right. now exists e, t1.
Qed.

Lemma with_temporary_clone_inv {A} org repo branch (body : M A) t a t' :
  with_temporary_clone org repo branch body t = (Val a, t') ->
  exists t2, body (t +++ [TemporaryClone org repo branch]) = (Val a, t2)
             /\ t' = t2 +++ [ReleaseClone].
Proof.
  unfold with_temporary_clone, perform.
  destruct (effect w t _); [discriminate|].
  destruct (body _) as [r t2]. intros [= -> <-]. now exists t2.
Qed.

Lemma git_user_can_push_inv org repo username t b t' :
  git_user_can_push org repo username t = (Val b, t') ->
  can_push_answer w (t +++ [Repository org repo]) org repo username = Val b
  /\ t' = t +++ [Repository org repo; UserCanPush org repo username].
Proof.
  unfold git_user_can_push. intro H. do 2 run_inv.
  apply ask_inv in H. destruct H as [H ->]. split; [exact H|].
  now rewrite <- app_assoc.
Qed.

(** A Start that returns, for a user who may push, has gone all the way. *)
Lemma merge_bot_start_all_the_way org repo pr username bumpversion dry_run
    intro_message t t' :
  merge_bot_start org repo pr username bumpversion dry_run intro_message t
    = (Val tt, t') ->
  switch_enabled cfg "merge_bot" = true ->
  can_push_answer w (t +++ [Login; Repository org repo]) org repo username
    = Val true ->
  exists gh_pr msg,
    pull_request_answer w
      (t +++ [Login; Repository org repo; UserCanPush org repo username])
      org repo pr = Val gh_pr
    /\ (if truthy intro_message
        then intro_message = Some msg
        else In msg (MERGE_BOT_INTRO_MESSAGES cfg))
    /\ let target_branch := base_ref gh_pr in
       let merge_bot_branch :=
         make_merge_bot_branch codec pr target_branch username bumpversion in
       t' = t +++ start_opening org repo pr username
              +++ [TemporaryClone org repo target_branch;
                   GitCheckOutput ["git"; "fetch"; "origin";
                                   "pull/" ++ str pr ++ "/head:" ++ merge_bot_branch];
                   GitCheckOutput ["git"; "checkout"; merge_bot_branch];
                   GitCheckOutput ["git"; "rebase"; "--autosquash"; target_branch];
                   GitCheckOutput ["git"; "push"; "origin"; ":" ++ merge_bot_branch];
                   GitCheckOutput ["git"; "push"; "origin"; merge_bot_branch]]
              +++ (if truthy intro_message then []
                   else [RandInt 0
                           (Z.of_nat (length (MERGE_BOT_INTRO_MESSAGES cfg)) - 1)])
              +++ [CreateComment org repo pr
                     (rebased_comment org repo merge_bot_branch msg);
                   ReleaseClone].
Proof.
  intros H Hsw Hmay. unfold merge_bot_start, switchable in H. rewrite Hsw in H.
  do 3 run_inv.
  match goal with
  | Hp : git_user_can_push _ _ _ _ = _ |- _ =>
      apply git_user_can_push_inv in Hp; destruct Hp as [Hperm ->];
      rewrite <- !app_assoc in Hperm; cbn [app] in Hperm
  end.
  rewrite Hmay in Hperm. injection Hperm as <-. cbn [negb] in H.
  do 2 run_inv.
  match goal with
  | Hp : pull_request_answer w _ _ _ _ = Val ?g |- _ =>
      rewrite <- !app_assoc in Hp; cbn [app] in Hp; rename Hp into Hpull;
      set (gh_pr := g) in *
  end.
  apply try_except_inv in H.
  destruct H as [H|(e & t1 & _ & H)]; [|repeat run_inv; discriminate].
  unfold start_rebase_and_push in H.
  apply with_temporary_clone_inv in H. destruct H as (t2 & H & ->).
  do 10 run_inv. run_inv.
  match goal with
  | Hi : (if truthy intro_message then _ else _) _ = (Val ?m, _) |- _ =>
      exists gh_pr, m; split; [exact Hpull|];
      destruct (truthy intro_message) eqn:Et
  end.
  - run_inv. subst. run_inv.
    destruct intro_message as [m|]; [|discriminate].
    split; [reflexivity|].
    cbv zeta. unfold start_opening, rebased_comment.
    repeat rewrite <- app_assoc. reflexivity.
  - match goal with
    | Hi : _get_merge_bot_intro_message _ = _ |- _ =>
        apply _get_merge_bot_intro_message_inv in Hi; destruct Hi as [Hin ->]
    end.
    run_inv. split; [exact Hin|].
    cbv zeta. unfold start_opening, rebased_comment.
    repeat rewrite <- app_assoc. reflexivity.
Qed.

(** Whatever Start does, its git commands are those of the merge-bot branch
    computed from the base that the pull request lookup answered. *)
Lemma merge_bot_start_git_commands org repo pr username bumpversion dry_run
    intro_message t :
  exists new,
    snd (merge_bot_start org repo pr username bumpversion dry_run intro_message t)
    = t +++ new
    /\ forall cmd, In (GitCheckOutput cmd) new ->
         exists gh_pr,
           pull_request_answer w
             (t +++ [Login; Repository org repo; UserCanPush org repo username])
             org repo pr = Val gh_pr
           /\ In cmd (start_git_commands pr username bumpversion (base_ref gh_pr)).
Proof.
  destruct (merge_bot_start org repo pr username bumpversion dry_run intro_message t)
    as [r t'] eqn:H. cbn [snd].
  unfold merge_bot_start, switchable in H.
  destruct (switch_enabled cfg "merge_bot").
  2:{ unfold ret in H. injection H as _ <-. exists []. split;
        [now rewrite app_nil_r | intros cmd []]. }
  apply bind_cases in H. destruct H as [(e & Hm & _)|(u & t1 & Hm & H)];
    apply perform_trace in Hm; subst.
  { exists [Login]. split; [reflexivity|]. intros cmd [E|[]]; discriminate. }
  apply bind_cases in H. destruct H as [(e & Hm & _)|(can_push & t1 & Hm & H)].
  { unfold git_user_can_push in Hm. apply bind_cases in Hm.
    destruct Hm as [(e' & Hm & _)|(u' & t2 & Hm & Hm2)];
      apply perform_trace in Hm; subst.
    - exists [Login; Repository org repo]. split; [now rewrite <- app_assoc|].
      intros cmd [E|[E|[]]]; discriminate.
    - apply ask_trace in Hm2. subst.
      exists [Login; Repository org repo; UserCanPush org repo username].
      split; [now rewrite <- !app_assoc|].
      intros cmd [E|[E|[E|[]]]]; discriminate. }
  apply git_user_can_push_inv in Hm. destruct Hm as [_ ->].
  rewrite <- !app_assoc in H. cbn [app] in H.
  destruct (negb can_push).
  { apply bind_cases in H. destruct H as [(e & Hm & _)|(gh_pr & t1 & Hm & H)];
      apply ask_trace in Hm; subst.
    - eexists [Login; _; _; _]. split; [now rewrite <- !app_assoc|].
      intros cmd [E|[E|[E|[E|[]]]]]; discriminate.
    - apply perform_trace in H. subst.
      eexists [Login; _; _; _; _]. split; [now rewrite <- !app_assoc|].
      intros cmd [E|[E|[E|[E|[E|[]]]]]]; discriminate. }
  apply bind_cases in H. destruct H as [(e & Hm & _)|(gh_pr & t1 & Hm & H)].
  { apply ask_trace in Hm. subst.
    eexists [Login; _; _; _]. split; [now rewrite <- !app_assoc|].
    intros cmd [E|[E|[E|[E|[]]]]]; discriminate. }
  apply ask_inv in Hm. destruct Hm as [Hpull ->].
  destruct (start_guarded_git_commands org repo pr username bumpversion intro_message
              gh_pr ((t +++ [Login; Repository org repo; UserCanPush org repo username])
                     +++ [PullRequest org repo pr])) as (n & E & F).
  cbv zeta in H. rewrite H in E. cbn [snd] in E. subst t'.
  exists ([Login; Repository org repo; UserCanPush org repo username;
           PullRequest org repo pr] +++ n).
  split; [now rewrite <- !app_assoc|].
  intros cmd [E|[E|[E|[E|Hin]]]]; try discriminate.
  exists gh_pr. split; [exact Hpull|].
  rewrite Forall_forall in F. exact (F _ Hin cmd eq_refl).
Qed.

(** C1 (amended): when the ancestor check of Finalize fails, Finalize has
    checked out the target branch, run the check and logged; what follows
    is one call of Start with the decoded pull request, user and bump
    policy, the caller's [dry_run] and the "something changed" message.
    The target branch is not an argument: Start reads it again from the
    base of the pull request.  Finalize returns [False] when that Start
    returns, and raises what Start raises.  There is no merge commit and no
    push of the target branch: the only git commands of the restart are the
    fetch, checkout, rebase, deletion and push of the merge-bot branch that
    encodes the pull request, the user, the bump policy and the base that
    the pull request lookup answers.  When that base is still the decoded
    target branch, this is the same intent and the same branch.  A restart
    that returns, for a user who may push, has fetched, rebased and pushed
    that branch and posted the "something changed" comment. *)
Theorem C1_race_restarts_start org repo merge_bot_branch dry_run t
    pr target_branch username bumpversion :
  parse_merge_bot_branch codec merge_bot_branch
    = Val (pr, target_branch, username, bumpversion) ->
  check_output w t ["git"; "checkout"; target_branch] = None ->
  exit_status w (t +++ [GitCheckOutput ["git"; "checkout"; target_branch]])
    ["git"; "merge-base"; "--is-ancestor"; target_branch; merge_bot_branch] <> 0 ->
  let h :=
    t +++ [GitCheckOutput ["git"; "checkout"; target_branch];
           SubprocessCall ["git"; "merge-base"; "--is-ancestor";
                           target_branch; merge_bot_branch];
           Log (merge_bot_branch ++ " can't be fast forwarded on " ++
                target_branch ++ ", rebasing again.")] in
  let changed :=
    "It looks like something changed on `" ++ target_branch ++
    "` in the meantime." ++ nl ++
    "Let me try again (no action is required from you)." in
  let restart :=
    merge_bot_start org repo pr username bumpversion dry_run (Some changed) h in
  let lookup :=
    pull_request_answer w
      (h +++ [Login; Repository org repo; UserCanPush org repo username])
      org repo pr in
  _merge_bot_merge_pr org repo merge_bot_branch dry_run t =
    (match fst restart with
     | Val _ => Val false
     | Raise e => Raise e
     end, snd restart)
  /\ exists new,
       snd restart = h +++ new
       /\ (forall cmd, In (GitCheckOutput cmd) new ->
             In (git_verb cmd) ["fetch"; "checkout"; "rebase"; "push"]
             /\ exists gh_pr,
                  lookup = Val gh_pr
                  /\ In cmd (start_git_commands pr username bumpversion
                               (base_ref gh_pr)))
       /\ (forall gh_pr,
             lookup = Val gh_pr ->
             base_ref gh_pr = target_branch ->
             make_merge_bot_branch codec pr target_branch username bumpversion
               = merge_bot_branch ->
             forall cmd, In (GitCheckOutput cmd) new ->
               In cmd [["git"; "fetch"; "origin";
                        "pull/" ++ str pr ++ "/head:" ++ merge_bot_branch];
                       ["git"; "checkout"; merge_bot_branch];
                       ["git"; "rebase"; "--autosquash"; target_branch];
                       ["git"; "push"; "origin"; ":" ++ merge_bot_branch];
                       ["git"; "push"; "origin"; merge_bot_branch]])
       /\ (switch_enabled cfg "merge_bot" = true ->
           can_push_answer w (h +++ [Login; Repository org repo]) org repo username
             = Val true ->
           fst restart = Val tt ->
           exists gh_pr,
             lookup = Val gh_pr
             /\ let base := base_ref gh_pr in
                let branch :=
                  make_merge_bot_branch codec pr base username bumpversion in
                new = start_opening org repo pr username
                      +++ [TemporaryClone org repo base;
                           GitCheckOutput ["git"; "fetch"; "origin";
                                           "pull/" ++ str pr ++ "/head:" ++ branch];
                           GitCheckOutput ["git"; "checkout"; branch];
                           GitCheckOutput ["git"; "rebase"; "--autosquash"; base];
                           GitCheckOutput ["git"; "push"; "origin"; ":" ++ branch];
                           GitCheckOutput ["git"; "push"; "origin"; branch];
                           CreateComment org repo pr
                             (rebased_comment org repo branch changed);
                           ReleaseClone]).
Proof.
  intros Hparse Hco Hrc h changed restart lookup. split.
  - unfold _merge_bot_merge_pr.
    rewrite (bind_val _ _ t (pr, target_branch, username, bumpversion) t)
      by (unfold lift; now rewrite Hparse).
    cbv beta iota.
    erewrite bind_val by (unfold _git_call; rewrite Hco; reflexivity).
    erewrite bind_val by reflexivity.
    apply Z.eqb_neq in Hrc. rewrite Hrc. cbn [negb].
    erewrite bind_val by reflexivity.
    unfold bind, ret. subst restart h changed. rewrite <- !app_assoc. cbn [app].
    now destruct (merge_bot_start _ _ _ _ _ _ _ _) as [[u|e] t1].
  - destruct (merge_bot_start_git_commands org repo pr username bumpversion dry_run
                (Some changed) h) as (new & E & F).
    fold restart in E. fold lookup in F.
    exists new. split; [exact E|]. split; [|split].
    + intros cmd Hin. destruct (F cmd Hin) as (gh_pr & Hl & Hc). split.
      * unfold start_git_commands in Hc. cbv zeta in Hc. simpl in Hc.
        destruct Hc as [<-|[<-|[<-|[<-|[<-|[]]]]]]; simpl; tauto.
      * now exists gh_pr.
    + intros gh_pr Hl Hbase Hmake cmd Hin.
      destruct (F cmd Hin) as (gh_pr' & Hl' & Hc).
      rewrite Hl in Hl'. injection Hl' as <-.
      unfold start_git_commands in Hc. cbv zeta in Hc.
      now rewrite Hbase, Hmake in Hc.
    + intros Hsw Hperm Hret.
      assert (Hrun : restart = (Val tt, h +++ new)).
      { rewrite <- E. destruct restart as [[[]|e] t1]; [reflexivity | discriminate]. }
      destruct (merge_bot_start_all_the_way org repo pr username bumpversion dry_run
                  (Some changed) h (h +++ new) Hrun Hsw Hperm)
        as (gh_pr & msg & Hl & Hmsg & Ht).
      exists gh_pr. split; [exact Hl|]. cbv zeta in *.
      change (truthy (Some changed)) with true in *.
      injection Hmsg as <-.
      apply app_inv_head in Ht. subst new. reflexivity.
Qed.

(** ** Substrings of the failure comments *)

Lemma prefix_app x s : String.prefix x (x ++ s) = true.
Proof.
  induction x as [|a x IH]; simpl; [now destruct s|].
  destruct (Ascii.ascii_dec a a); [exact IH | congruence].
Qed.

Lemma contains_prefix x s : String.prefix x s = true -> contains x s = true.
Proof. destruct s; simpl; now intros ->. Qed.

Lemma contains_here x s : contains x (x ++ s) = true.
Proof. apply contains_prefix, prefix_app. Qed.

Lemma contains_app_r x a s : contains x s = true -> contains x (a ++ s) = true.
Proof.
  intro H. induction a as [|c a IH]; simpl; [exact H|].
  rewrite IH. apply orb_true_r.
Qed.

(** ** Sequences that stop at the first failure *)

Lemma calls_cons (t : trace) (a : step) pre :
  t +++ calls (a :: pre) = (t +++ [fst a]) +++ calls pre.
Proof. unfold calls. simpl. now rewrite <- app_assoc. Qed.

Lemma passes_app pre post t :
  passes (pre ++ post) t = (passes pre t && passes post (t +++ calls pre))%bool.
Proof.
  revert t. induction pre as [|s pre IH]; intro t; cbn [passes app].
  - unfold calls. simpl. now rewrite app_nil_r.
  - destruct (stops t s); [reflexivity|].
    now rewrite IH, calls_cons.
Qed.

(** A sequence whose steps all go through has made all its calls. *)
Lemma run_steps_passes steps t :
  passes steps t = true -> run_steps steps t = (None, t +++ calls steps).
Proof.
  revert t. induction steps as [|s steps IH]; intros t H;
    cbn [passes run_steps] in *.
  - unfold calls. simpl. now rewrite app_nil_r.
  - destruct (stops t s); [discriminate|].
    now rewrite (IH _ H), calls_cons.
Qed.

(** A sequence stops at its first step that fails, with the exception of
    that step. *)
Lemma run_steps_stops pre s post t e :
  passes pre t = true ->
  stops (t +++ calls pre) s = Some e ->
  run_steps (pre ++ s :: post) t = (Some e, t +++ calls pre +++ [fst s]).
Proof.
  revert t. induction pre as [|a pre IH]; intros t Hp Hs;
    cbn [passes run_steps app] in *.
  - unfold calls in *. simpl in *. rewrite app_nil_r in Hs. now rewrite Hs.
  - destruct (stops t a); [discriminate|].
    rewrite calls_cons in Hs. rewrite (IH _ Hp Hs).
    unfold calls. simpl. now rewrite <- !app_assoc.
Qed.

(** A sequence that does not go through has a first step that fails. *)
Lemma passes_false steps t :
  passes steps t = false ->
  exists pre s post e,
    steps = (pre ++ s :: post)%list /\ passes pre t = true
    /\ stops (t +++ calls pre) s = Some e.
Proof.
  revert t. induction steps as [|a steps IH]; intros t H; simpl in H; [discriminate|].
  destruct (stops t a) as [e|] eqn:Ea.
  - exists [], a, steps, e. unfold calls. simpl. now rewrite app_nil_r.
  - destruct (IH _ H) as (pre & s & post & e & -> & Hp & Hs).
    exists (a :: pre), s, post, e. cbn [passes app]. rewrite Ea, calls_cons.
    now repeat split.
Qed.

Lemma run_steps_raises steps t :
  passes steps t = false -> exists e, fst (run_steps steps t) = Some e.
Proof.
  intro H. destruct (passes_false _ _ H) as (pre & s & post & e & -> & Hp & Hs).
  exists e. now rewrite (run_steps_stops _ _ _ _ _ Hp Hs).
Qed.

(** The message drawn is the one that [_get_merge_bot_intro_message]
    returns. *)
Lemma _get_merge_bot_intro_message_drawn t :
  _get_merge_bot_intro_message t =
  let hi := Z.of_nat (length (MERGE_BOT_INTRO_MESSAGES cfg)) - 1 in
  match raised t (RandInt 0 hi) with
  | Some e => (Raise e, t +++ [RandInt 0 hi])
  | None => (Val (drawn_message t), t +++ [RandInt 0 hi])
  end.
Proof.
  cbv zeta. unfold _get_merge_bot_intro_message, bind, randint, raised, drawn_message.
  destruct (_ <? 0) eqn:E; [reflexivity|].
  apply Z.ltb_ge in E.
  replace (0 + random_source w t
               mod (Z.of_nat (length (MERGE_BOT_INTRO_MESSAGES cfg)) - 1 - 0 + 1))
    with (random_source w t mod Z.of_nat (length (MERGE_BOT_INTRO_MESSAGES cfg)))
    by (rewrite Z.add_0_l; f_equal; lia).
  pose proof (Z.mod_pos_bound (random_source w t)
                (Z.of_nat (length (MERGE_BOT_INTRO_MESSAGES cfg)))) as Hb.
  destruct (nth_error (MERGE_BOT_INTRO_MESSAGES cfg) _) as [m|] eqn:En.
  - now rewrite (nth_error_nth _ _ "" En).
  - apply nth_error_None in En. lia.
Qed.

Lemma follows_git_call cmd (k : M unit) rest t :
  (check_output w t cmd = None -> follows k rest (t +++ [GitCheckOutput cmd])) ->
  follows (_git_call cmd ;; k) (strict (GitCheckOutput cmd) :: rest) t.
Proof.
  unfold follows, bind, _git_call, strict. cbn [run_steps]. unfold stops.
  cbn [raised fst snd]. intro Hk.
  destruct (check_output w t cmd); cbn [option_map andb]; [reflexivity | now apply Hk].
Qed.

Lemma follows_git_delete_branch remote branch (k : M unit) rest t :
  let c := GitCheckOutput ["git"; "push"; remote; ":" ++ branch] in
  (stops t (lenient c) = None -> follows k rest (t +++ [c])) ->
  follows (_git_delete_branch remote branch ;; k) (lenient c :: rest) t.
Proof.
  cbv zeta. unfold follows, bind, _git_delete_branch, try_except, _git_call, lenient.
  cbn [run_steps]. unfold stops. cbn [raised fst snd]. intro Hk.
  destruct (check_output w t _) as [out|]; cbn [option_map andb] in *.
  - destruct (contains "unable to delete" out); [now apply Hk | reflexivity].
  - now apply Hk.
Qed.

Lemma follows_create_comment org repo pr body t :
  follows (create_comment org repo pr body) [strict (CreateComment org repo pr body)] t.
Proof.
  unfold follows, create_comment, perform, strict. cbn [run_steps]. unfold stops.
  cbn [raised fst snd].
  destruct (effect w t _) as [[cmd out|msg]|]; reflexivity.
Qed.

(** The guarded sequence of Start is the sequence [start_steps], between
    the making and the release of the working copy. *)
Lemma start_rebase_and_push_run org repo pr username bumpversion intro_message
    target_branch t :
  let clone := TemporaryClone org repo target_branch in
  start_rebase_and_push org repo pr username bumpversion intro_message target_branch t =
  match raised t clone with
  | Some e => (Raise e, t +++ [clone])
  | None =>
      match run_steps (start_steps org repo pr username bumpversion intro_message
                         target_branch (t +++ [clone])) (t +++ [clone]) with
      | (None, t2) => (Val tt, t2 +++ [ReleaseClone])
      | (Some e, t2) => (Raise e, t2 +++ [ReleaseClone])
      end
  end.
Proof.
  cbv zeta. unfold start_rebase_and_push, with_temporary_clone, perform.
  change (raised t (TemporaryClone org repo target_branch))
    with (effect w t (TemporaryClone org repo target_branch)).
  destruct (effect w t _); [reflexivity|].
  set (h := t +++ [TemporaryClone org repo target_branch]).
  match goal with
  | |- (let (r, t2) := ?m h in _) = _ =>
      assert (Hf : follows m
                     (start_steps org repo pr username bumpversion intro_message
                        target_branch h) h)
  end.
  { unfold start_steps, start_git_steps. cbv zeta. cbn [app].
    apply follows_git_call. intros _.
    apply follows_git_call. intros _.
    apply follows_git_call. intros _.
    apply follows_git_delete_branch. intros _.
    apply follows_git_call. intros _.
    unfold calls, strict, lenient. cbn [map fst].
    repeat rewrite <- app_assoc. cbn [app].
    destruct (truthy intro_message).
    - apply follows_create_comment.
    - unfold follows, bind. rewrite _get_merge_bot_intro_message_drawn. cbv zeta.
      cbn [run_steps]. unfold stops at 1. cbn [fst snd].
      destruct (raised _ (RandInt 0 _)) as [e|] eqn:Er.
      + unfold raised in Er. destruct (_ <? 0); [|discriminate].
        now injection Er as <-.
      + apply follows_create_comment. }
  unfold follows in Hf. rewrite Hf.
  now destruct (run_steps _ h) as [[e|] t2].
Qed.


(** An [except] clause of Start: post the report, raise again. *)
Lemma report_and_reraise org repo pr body e t :
  (create_comment org repo pr body ;; @raise unit e) t =
  (Raise match raised t (CreateComment org repo pr body) with
         | None => e
         | Some e' => e'
         end,
   t +++ [CreateComment org repo pr body]).
Proof.
  unfold bind, create_comment, perform, raise. cbn [raised].
  now destruct (effect w t _).
Qed.

(** C7 (amended): provided the hosting API answers the calls made outside
    the guarded sequence (login, permission check, pull request lookup, and
    the posting of the "Sorry" comment or of the failure comment), Start
    behaves as follows.  Without push permission it posts the "Sorry"
    comment addressed to the user and returns normally, having run no git
    command.  With push permission it runs the guarded sequence: the making
    of the working copy, then fetch, checkout, rebase, deletion of the
    remote branch, push, the draw of an intro message when none was given,
    and the progress comment.  When every step goes through (a deletion
    that fails with "unable to delete" counts as going through), Start
    returns.  When the working copy cannot be made, or at the first step
    that fails, Start stops there, releases the working copy if it was
    made, posts a comment that reports the failure on the pull request and
    raises the exception of that step again.  So Start raises exactly when
    a step of the guarded sequence fails, and whenever it raises, the last
    thing it did was to post the report.  For a command failure the report
    quotes the command and its captured output, for any other exception
    its description. *)
Theorem C7_start_reports_then_reraises org repo pr username bumpversion dry_run
    intro_message t can_push gh_pr :
  let h := t +++ start_opening org repo pr username in
  let run := merge_bot_start org repo pr username bumpversion dry_run intro_message t in
  let target_branch := base_ref gh_pr in
  let clone := TemporaryClone org repo target_branch in
  let steps :=
    start_steps org repo pr username bumpversion intro_message target_branch
      (h +++ [clone]) in
  let sorry :=
    CreateComment org repo pr
      ("Sorry @" ++ username ++
       " you do not have push permission, so I can't merge for you.") in
  let report := start_report org repo pr username in
  switch_enabled cfg "merge_bot" = true ->
  effect w t Login = None ->
  effect w (t +++ [Login]) (Repository org repo) = None ->
  can_push_answer w (t +++ [Login; Repository org repo]) org repo username
    = Val can_push ->
  pull_request_answer w
    (t +++ [Login; Repository org repo; UserCanPush org repo username])
    org repo pr = Val gh_pr ->
  (can_push = false -> raised h sorry = None -> run = (Val tt, h +++ [sorry]))
  /\ (can_push = true ->
      (raised h clone = None ->
       passes steps (h +++ [clone]) = true ->
       run = (Val tt, h +++ [clone] +++ calls steps +++ [ReleaseClone]))
      /\ (forall e,
            raised h clone = Some e ->
            raised (h +++ [clone]) (report e) = None ->
            run = (Raise e, h +++ [clone; report e]))
      /\ (forall pre s post e,
            raised h clone = None ->
            steps = (pre ++ s :: post)%list ->
            passes pre (h +++ [clone]) = true ->
            stops (h +++ [clone] +++ calls pre) s = Some e ->
            raised (h +++ [clone] +++ calls pre +++ [fst s; ReleaseClone])
              (report e) = None ->
            run = (Raise e,
                   h +++ [clone] +++ calls pre
                     +++ [fst s; ReleaseClone; report e]))
      /\ ((exists e, fst run = Raise e) <->
          (raised h clone <> None \/ passes steps (h +++ [clone]) = false))
      /\ (forall e, fst run = Raise e ->
            exists e0 before,
              snd run = before +++ [report e0]
              /\ (raised before (report e0) = None -> e = e0)))
  /\ (forall cmd output,
        contains (join " " cmd)
          (start_failure_comment username (CalledProcessError cmd output)) = true
        /\ contains output
             (start_failure_comment username (CalledProcessError cmd output)) = true)
  /\ (forall msg,
        contains msg (start_failure_comment username (Exception msg)) = true).
Proof.
  intros h run target_branch clone steps sorry report Hsw Hlogin Hrepo Hperm Hpr.
  subst report.
  assert (Hrun : run =
            (if negb can_push
             then gh_pr <- pull_request org repo pr ;;
                  create_comment org repo pr
                    ("Sorry @" ++ username ++ " " ++
                     "you do not have push permission, so I can't merge for you.")
             else gh_pr <- pull_request org repo pr ;;
                  try_except
                    (start_rebase_and_push org repo pr username bumpversion
                       intro_message (base_ref gh_pr))
                    (fun e =>
                       create_comment org repo pr (start_failure_comment username e) ;;
                       raise e))
              (t +++ [Login; Repository org repo; UserCanPush org repo username])).
  { subst run. unfold merge_bot_start, switchable. rewrite Hsw.
    erewrite bind_val by (unfold perform; rewrite Hlogin; reflexivity).
    erewrite bind_val; [reflexivity|].
    unfold git_user_can_push.
    erewrite bind_val by (unfold perform; rewrite Hrepo; reflexivity).
    unfold ask. rewrite <- !app_assoc. cbn [app]. now rewrite Hperm. }
  assert (Hh : h = (t +++ [Login; Repository org repo; UserCanPush org repo username])
                   +++ [PullRequest org repo pr]).
  { subst h. unfold start_opening. now rewrite <- app_assoc. }
  split; [|split; [|split]].
  - intros -> Hsorry. rewrite Hrun. cbn [negb].
    erewrite bind_val by (unfold pull_request, ask; rewrite Hpr; reflexivity).
    unfold create_comment, perform. rewrite <- Hh.
    change (" " ++ "you do not have push permission, so I can't merge for you.")
      with " you do not have push permission, so I can't merge for you.".
    subst sorry. cbn [raised] in Hsorry. now rewrite Hsorry.
  - intros ->. cbn [negb] in Hrun.
    erewrite bind_val in Hrun by (unfold pull_request, ask; rewrite Hpr; reflexivity).
    rewrite <- Hh in Hrun. unfold try_except in Hrun.
    rewrite start_rebase_and_push_run in Hrun. cbv zeta in Hrun.
    fold target_branch in Hrun. fold clone in Hrun. fold steps in Hrun.
    clearbody run. subst run.
    split; [|split; [|split; [|split]]].
    + intros Hclone Hpass. rewrite Hclone, (run_steps_passes _ _ Hpass).
      now rewrite <- !app_assoc.
    + intros e Hclone Hreport. rewrite Hclone, report_and_reraise.
      fold (start_report org repo pr username e). rewrite Hreport. now rewrite <- !app_assoc.
    + intros pre s post e Hclone Hsplit Hpass Hstop Hreport.
      rewrite app_assoc in Hstop.
      rewrite Hclone, Hsplit, (run_steps_stops _ _ post _ _ Hpass Hstop).
      rewrite report_and_reraise. fold (start_report org repo pr username e).
      repeat rewrite <- app_assoc. repeat rewrite <- app_assoc in Hreport.
      cbn [app] in *. now rewrite Hreport.
    + destruct (raised h clone) as [e|] eqn:Hclone.
      * rewrite report_and_reraise. split; [intros _; left; discriminate|].
        intros _. eexists. reflexivity.
      * destruct (passes steps (h +++ [clone])) eqn:Hpass.
        -- rewrite (run_steps_passes _ _ Hpass). split.
           ++ intros (e & He). discriminate.
           ++ intros [Hc|Hc]; [now contradiction Hc | discriminate].
        -- destruct (run_steps_raises _ _ Hpass) as (e & He).
           destruct (run_steps steps (h +++ [clone])) as [o t2].
           cbn [fst] in He. subst o. rewrite report_and_reraise.
           split; [intros _; now right|]. intros _. eexists. reflexivity.
    + intros e He.
      destruct (raised h clone) as [e0|] eqn:Hclone.
      * rewrite report_and_reraise in *. cbn [fst snd] in *.
        exists e0, (h +++ [clone]). split; [reflexivity|].
        fold (start_report org repo pr username e0) in He.
        intros Hr. rewrite Hr in He. now injection He.
      * destruct (run_steps steps (h +++ [clone])) as [[e0|] t2]; [|discriminate].
        rewrite report_and_reraise in *. cbn [fst snd] in *.
        exists e0, (t2 +++ [ReleaseClone]). split; [reflexivity|].
        fold (start_report org repo pr username e0) in He.
        intros Hr. rewrite Hr in He. now injection He.
  - intros cmd output. unfold start_failure_comment. split.
    + repeat first [apply contains_here | apply contains_app_r].
    + repeat first [apply contains_here | apply contains_app_r].
  - intros msg. unfold start_failure_comment.
    repeat first [apply contains_here | apply contains_app_r].
Qed.

(** C9: Status takes no dry-run argument and the decoded branch name
    carries none (pull request, target branch, user and bump policy only);
    on a Success verdict Status runs Finalize with [dry_run = False].  So
    when such a Status returns and the target branch had not moved, the
    merge commit was created, the target branch was really pushed and the
    label really added. *)
Theorem C9_status_finalizes_without_dry_run org repo merge_bot_branch sha t
    pr target_branch username bumpversion gh_pr gh_commit :
  switch_enabled cfg "merge_bot" = true ->
  effect w t (TemporaryClone org repo merge_bot_branch) = None ->
  head_sha_answer w (t +++ [TemporaryClone org repo merge_bot_branch]) = Val sha ->
  parse_merge_bot_branch codec merge_bot_branch
    = Val (pr, target_branch, username, bumpversion) ->
  effect w (t +++ [TemporaryClone org repo merge_bot_branch; HeadSha]) Login = None ->
  effect w (t +++ [TemporaryClone org repo merge_bot_branch; HeadSha; Login])
    (Repository org repo) = None ->
  pull_request_answer w
    (t +++ [TemporaryClone org repo merge_bot_branch; HeadSha; Login;
            Repository org repo]) org repo pr = Val gh_pr ->
  commit_answer w
    (t +++ [TemporaryClone org repo merge_bot_branch; HeadSha; Login;
            Repository org repo; PullRequest org repo pr]) org repo sha
    = Val gh_commit ->
  fst (_get_commit_success gh_commit
         (t +++ status_opening org repo merge_bot_branch sha pr)) = Val (Some true) ->
  let h := t +++ status_opening org repo merge_bot_branch sha pr
             +++ [CommitStatus; CheckSuites] in
  merge_bot_status org repo merge_bot_branch sha t =
    (let (r, t2) :=
       try_except
         (_merge_bot_merge_pr org repo merge_bot_branch false ;; ret tt)
         (fun e =>
            create_comment org repo pr (finalize_failure_comment username e) ;;
            raise e) h in
     (r, t2 +++ [ReleaseClone]))
  /\ (exit_status w (h +++ [GitCheckOutput ["git"; "checkout"; target_branch]])
        ["git"; "merge-base"; "--is-ancestor"; target_branch; merge_bot_branch] = 0 ->
      forall t', merge_bot_status org repo merge_bot_branch sha t = (Val tt, t') ->
        In (GitCheckOutput ["git"; "merge"; "--no-ff"; "--m";
                            merge_commit_msg pr target_branch username;
                            merge_bot_branch]) t'
        /\ In (GitCheckOutput ["git"; "push"; "origin"; target_branch]) t'
        /\ In (AddLabels org repo pr LABEL_MERGED) t').
Proof.
  intros Hsw Hclone Hhead Hparse Hlogin Hrepo Hpr Hcommit Hverdict h.
  assert (Hrun : merge_bot_status org repo merge_bot_branch sha t =
    (let (r, t2) :=
       try_except
         (_merge_bot_merge_pr org repo merge_bot_branch false ;; ret tt)
         (fun e =>
            create_comment org repo pr (finalize_failure_comment username e) ;;
            raise e) h in
     (r, t2 +++ [ReleaseClone]))).
  { unfold merge_bot_status, switchable. rewrite Hsw.
    unfold with_temporary_clone at 1. unfold perform at 1. rewrite Hclone.
    erewrite bind_val
      by (unfold git_get_head_sha, ask; rewrite Hhead; reflexivity).
    rewrite String.eqb_refl. cbn [negb].
    rewrite (bind_val _ _ _ (pr, target_branch, username, bumpversion) _)
      by (unfold lift; now rewrite Hparse).
    cbv beta iota. rewrite <- !app_assoc. cbn [app].
    erewrite bind_val by (unfold perform; rewrite Hlogin; reflexivity).
    rewrite <- !app_assoc. cbn [app].
    erewrite bind_val by (unfold perform; rewrite Hrepo; reflexivity).
    rewrite <- !app_assoc. cbn [app].
    erewrite bind_val by (unfold pull_request, ask; rewrite Hpr; reflexivity).
    rewrite <- !app_assoc. cbn [app].
    erewrite bind_val by (unfold commit, ask; rewrite Hcommit; reflexivity).
    rewrite <- !app_assoc. cbn [app].
    apply _get_commit_success_passed in Hverdict.
    unfold status_opening in Hverdict.
    erewrite bind_val by exact Hverdict.
    subst h. unfold status_opening. now rewrite <- !app_assoc. }
  split; [exact Hrun|].
  intros Hrc t' Hret. rewrite Hrun in Hret. unfold try_except in Hret.
  destruct ((_merge_bot_merge_pr org repo merge_bot_branch false ;; ret tt) h)
    as [[u|e] t1] eqn:Ef.
  - inversion Hret; subst t'. clear Hret.
    apply bind_inv in Ef. destruct Ef as (merged & t2 & Hfin & Hr).
    apply ret_inv in Hr. destruct Hr as [_ ->].
    destruct merged.
    + apply _merge_bot_merge_pr_merged in Hfin.
      destruct Hfin as (pr' & target' & user' & bump' & addons & gh_pr' & merge_sha
                        & Hparse' & _ & ->).
      rewrite Hparse in Hparse'. inversion Hparse'; subst.
      unfold merged_trace, merge_events, closing_events. cbv iota.
      repeat split; apply in_or_app; left; apply in_or_app; right; find_in.
    + apply _merge_bot_merge_pr_not_merged in Hfin.
      destruct Hfin as (pr' & target' & user' & bump' & Hparse' & Hne).
      rewrite Hparse in Hparse'. inversion Hparse'; subst. contradiction.
  - unfold bind, create_comment, perform, raise in Hret.
    destruct (effect w t1 _); inversion Hret.
Qed.

(** ** Deleting the remote branch *)

(** [_git_delete_branch] swallows the "unable to delete" failure of its
    push. *)
Lemma _git_delete_branch_absent remote branch t output :
  check_output w t ["git"; "push"; remote; ":" ++ branch] = Some output ->
  contains "unable to delete" output = true ->
  _git_delete_branch remote branch t =
  (Val tt, t +++ [GitCheckOutput ["git"; "push"; remote; ":" ++ branch]]).
Proof.
  intros Hout Hmsg. unfold _git_delete_branch, try_except, _git_call.
  now rewrite Hout, Hmsg.
Qed.

(** Every other failure of the push is raised again. *)
Lemma _git_delete_branch_reraises remote branch t output :
  check_output w t ["git"; "push"; remote; ":" ++ branch] = Some output ->
  contains "unable to delete" output = false ->
  _git_delete_branch remote branch t =
  (Raise (CalledProcessError ["git"; "push"; remote; ":" ++ branch] output),
   t +++ [GitCheckOutput ["git"; "push"; remote; ":" ++ branch]]).
Proof.
  intros Hout Hmsg. unfold _git_delete_branch, try_except, _git_call.
  now rewrite Hout, Hmsg.
Qed.

(** ** More about the verdict *)

(** Ignored statuses leave the status loop as it is. *)
Lemma statuses_loop_filter sts success old_travis :
  statuses_loop (filter (fun s => negb (ignored (OfStatus s))) sts) success old_travis
  = statuses_loop sts success old_travis.
Proof.
  revert success old_travis.
  induction sts as [|a sts IH]; intros success old_travis; [reflexivity|].
  simpl. destruct (str_in (context a) (GITHUB_STATUS_IGNORED cfg)) eqn:Ei; simpl.
  - apply IH.
  - rewrite Ei. destruct (String.eqb (state a) "success"); [apply IH | reflexivity].
Qed.

Lemma check_suites_loop_filter css success old_travis :
  check_suites_loop (filter (fun c => negb (ignored (OfSuite c))) css) success old_travis
  = check_suites_loop css success old_travis.
Proof.
  revert success.
  induction css as [|a css IH]; intros success; [reflexivity|].
  simpl. destruct (str_in (app_name a) (GITHUB_CHECK_SUITES_IGNORED cfg)) eqn:Ei; simpl.
  - apply IH.
  - rewrite Ei. destruct (is_str (conclusion a) "success"); [apply IH|].
    destruct (negb (truthy (conclusion a))); [|reflexivity].
    destruct (String.eqb (app_name a) "Travis CI" && old_travis)%bool;
      [apply IH | reflexivity].
Qed.

Lemma existsb_entries sts css :
  existsb succeeded (entries sts css)
  = (existsb (fun s => succeeded (OfStatus s)) sts
     || existsb (fun c => succeeded (OfSuite c)) css)%bool.
Proof.
  unfold entries. rewrite existsb_app. f_equal.
  - induction sts as [|a l IH]; simpl; [reflexivity | now rewrite IH].
  - induction css as [|a l IH]; simpl; [reflexivity | now rewrite IH].
Qed.

(** When the two loops end in Success. *)
Lemma loops_success_iff sts css :
  match statuses_loop sts None false with
  | Return r => r
  | Next (success, old_travis) =>
      match check_suites_loop css success old_travis with
      | Return r => r
      | Next success => success
      end
  end = Some true
  <-> existsb succeeded (entries sts css) = true
      /\ (forall x, In x (entries sts css) ->
            failed x = false /\ in_progress (legacy_travis_ok sts) x = false).
Proof.
  rewrite existsb_entries.
  destruct (statuses_loop sts None false) as [[s1 ot1]|r] eqn:El.
  - destruct (statuses_loop_next _ _ _ _ _ El) as (-> & -> & Hst).
    rewrite orb_false_r.
    destruct (check_suites_loop css _ (legacy_travis_ok sts)) as [s2|r] eqn:Ec.
    + destruct (check_suites_loop_next _ _ _ _ Ec) as (-> & Hcs). split.
      * intro H. split.
        -- destruct (existsb (fun s => succeeded (OfStatus s)) sts);
             destruct (existsb (fun c => succeeded (OfSuite c)) css);
             simpl in *; congruence.
        -- intros x Hin. unfold entries in Hin. apply in_app_or in Hin.
           destruct Hin as [Hin|Hin]; apply in_map_iff in Hin;
             destruct Hin as (y & <- & Hy); [now apply Hst | now apply Hcs].
      * intros [H _].
        destruct (existsb (fun s => succeeded (OfStatus s)) sts);
          destruct (existsb (fun c => succeeded (OfSuite c)) css);
          simpl in *; congruence.
    + destruct (check_suites_loop_return _ _ _ _ Ec) as (x & Hin & Hx). split.
      * intros ->. destruct Hx as [[? _]|[? _]]; discriminate.
      * intros [_ Hall].
        assert (Hq : In (OfSuite x) (entries sts css))
          by (apply in_or_app; right; now apply in_map).
        destruct (Hall _ Hq) as [Hf Hp].
        destruct Hx as [[_ Hx]|[_ Hx]]; congruence.
  - destruct (statuses_loop_return _ _ _ _ (legacy_travis_ok sts) El)
      as (s & Hin & Hs). split.
    + intros ->. destruct Hs as [[? _]|[? _]]; discriminate.
    + intros [_ Hall].
      assert (Hq : In (OfStatus s) (entries sts css))
        by (apply in_or_app; left; now apply in_map).
      destruct (Hall _ Hq) as [Hf Hp].
      destruct Hs as [[_ Hs]|[_ Hs]]; congruence.
Qed.

(** X1: the verdict does not see ignored entries: dropping every status
    whose context is in [GITHUB_STATUS_IGNORED] and every check suite whose
    application is in [GITHUB_CHECK_SUITES_IGNORED] leaves the verdict as it
    is. *)
Theorem X1_ignored_entries_do_not_count c sts css t :
  status c = Val sts ->
  check_suites c = Val css ->
  fst (_get_commit_success c t)
  = fst (_get_commit_success
           (mk_commit
              (Val (filter (fun s => negb (ignored (OfStatus s))) sts))
              (Val (filter (fun x => negb (ignored (OfSuite x))) css))) t).
Proof.
  intros Hs Hc.
  rewrite (_get_commit_success_verdict c sts css t Hs Hc).
  rewrite (_get_commit_success_verdict
             (mk_commit
                (Val (filter (fun s => negb (ignored (OfStatus s))) sts))
                (Val (filter (fun x => negb (ignored (OfSuite x))) css)))
             _ _ t eq_refl eq_refl).
  rewrite statuses_loop_filter.
  destruct (statuses_loop sts None false) as [[s1 ot1]|r]; [|reflexivity].
  now rewrite check_suites_loop_filter.
Qed.

(** X2: the verdict is Success exactly when at least one non-ignored entry
    succeeded and no non-ignored entry is failed, pending or incomplete,
    the incomplete ["Travis CI"] suites covered by a successful legacy
    status apart. *)
Theorem X2_success_iff_all_clear c sts css t :
  status c = Val sts ->
  check_suites c = Val css ->
  (fst (_get_commit_success c t) = Val (Some true)
   <-> existsb succeeded (entries sts css) = true
       /\ (forall x, In x (entries sts css) ->
             failed x = false /\ in_progress (legacy_travis_ok sts) x = false)).
Proof.
  intros Hs Hc. rewrite (_get_commit_success_verdict c sts css t Hs Hc).
  rewrite <- loops_success_iff. split; [now intros [= ->] | now intros ->].
Qed.

Lemma existsb_permutation {A} (f : A -> bool) l l' :
  Permutation l l' -> existsb f l = existsb f l'.
Proof.
  intro HP.
  destruct (existsb f l) eqn:E; symmetry.
  - apply existsb_exists in E. destruct E as (x & Hin & Hx).
    apply existsb_exists. exists x. split; [|exact Hx].
    now apply (Permutation_in _ HP).
  - destruct (existsb f l') eqn:E'; [|reflexivity].
    apply existsb_exists in E'. destruct E' as (x & Hin & Hx).
    assert (existsb f l = true); [|congruence].
    apply existsb_exists. exists x. split; [|exact Hx].
    now apply (Permutation_in _ (Permutation_sym HP)).
Qed.

(** X3: whether the verdict is Success does not depend on the order in
    which the hosting API lists the statuses, nor on the order of the check
    suites. *)
Theorem X3_success_is_order_independent c c' sts sts' css css' t t' :
  status c = Val sts ->
  check_suites c = Val css ->
  status c' = Val sts' ->
  check_suites c' = Val css' ->
  Permutation sts sts' ->
  Permutation css css' ->
  (fst (_get_commit_success c t) = Val (Some true)
   <-> fst (_get_commit_success c' t') = Val (Some true)).
Proof.
  intros Hs Hc Hs' Hc' Ps Pc.
  rewrite (_get_commit_success_verdict c sts css t Hs Hc).
  rewrite (_get_commit_success_verdict c' sts' css' t' Hs' Hc').
  assert (Hiff : forall a b : option bool, a = b <-> Val a = Val b)
    by (intros a b; split; [now intros -> | now intros [= ->]]).
  rewrite <- !Hiff, !loops_success_iff, !existsb_entries.
  unfold legacy_travis_ok.
  rewrite (existsb_permutation _ _ _ Ps), (existsb_permutation _ sts sts' Ps),
          (existsb_permutation _ _ _ Pc).
  assert (Hin : forall x, In x (entries sts css) <-> In x (entries sts' css')).
  { intro x. unfold entries. rewrite !in_app_iff, !in_map_iff.
    split; (intros [(y & <- & Hy)|(y & <- & Hy)];
            [left|right]; exists y; split; try reflexivity).
    - now apply (Permutation_in _ Ps).
    - now apply (Permutation_in _ Pc).
    - now apply (Permutation_in _ (Permutation_sym Ps)).
    - now apply (Permutation_in _ (Permutation_sym Pc)). }
  split; intros [He Hall]; (split; [exact He|]); intros x Hx; apply Hall;
    now apply Hin.
Qed.

(** X4: the check suites are asked for only when the statuses leave the
    verdict open.  A failure of the status API is raised after that one
    call; a non-ignored pending or failed status decides the verdict after
    that one call, whatever the check-suite API would answer; and when no
    status decides, a failure of the check-suite API is raised. *)
Theorem X4_check_suites_fetched_only_when_needed c t :
  (forall e, status c = Raise e ->
     _get_commit_success c t = (Raise e, t +++ [CommitStatus]))
  /\ (forall sts s,
        status c = Val sts -> In s sts ->
        in_progress false (OfStatus s) = true \/ failed (OfStatus s) = true ->
        exists r, r <> Some true /\
          _get_commit_success c t = (Val r, t +++ [CommitStatus]))
  /\ (forall sts e,
        status c = Val sts ->
        (forall s, In s sts ->
           in_progress false (OfStatus s) = false /\ failed (OfStatus s) = false) ->
        check_suites c = Raise e ->
        _get_commit_success c t = (Raise e, t +++ [CommitStatus; CheckSuites])).
Proof.
  unfold _get_commit_success, bind, ask, ret. split; [|split].
  - now intros e ->.
  - intros sts s -> Hin Hs.
    destruct (statuses_loop sts None false) as [[s1 ot1]|r] eqn:El.
    + destruct (statuses_loop_next _ _ _ _ _ El) as (_ & _ & Hall).
      destruct (Hall s false Hin) as [Hf Hp]. destruct Hs; congruence.
    + exists r. split; [|reflexivity].
      destruct (statuses_loop_return _ _ _ _ false El) as (x & _ & [[-> _]|[-> _]]);
        discriminate.
  - intros sts e -> Hall ->.
    destruct (statuses_loop sts None false) as [[s1 ot1]|r] eqn:El.
    + now rewrite <- app_assoc.
    + destruct (statuses_loop_return _ _ _ _ false El) as (x & Hin & Hx).
      destruct (Hall x Hin) as [Hp Hf].
      destruct Hx as [[_ Hx]|[_ Hx]]; congruence.
Qed.

(** ** More about Start *)

(** X5: the intro message of Start's comment, when the caller gives none,
    is always one of [MERGE_BOT_INTRO_MESSAGES], whatever the random
    source answers, after the one call [randint(0, len - 1)]; with an empty
    pool that call is [randint(0, -1)]: it is made, and its [ValueError]
    is what [_get_merge_bot_intro_message] raises. *)
Theorem X5_intro_message_is_from_the_pool t :
  (MERGE_BOT_INTRO_MESSAGES cfg <> [] ->
   exists m, In m (MERGE_BOT_INTRO_MESSAGES cfg) /\
     _get_merge_bot_intro_message t =
     (Val m, t +++ [RandInt 0 (Z.of_nat (length (MERGE_BOT_INTRO_MESSAGES cfg)) - 1)]))
  /\ (MERGE_BOT_INTRO_MESSAGES cfg = [] ->
      _get_merge_bot_intro_message t
      = (Raise (Exception (empty_range_error w 0 (-1))), t +++ [RandInt 0 (-1)])).
Proof.
  pose proof (intro_message_cases t) as H.
  destruct (MERGE_BOT_INTRO_MESSAGES cfg); split; intro E; congruence.
Qed.

(** X6: a Start that returns has done nothing at all (the merge bot is
    switched off), or has declined (the user cannot push: the "Sorry"
    comment and nothing else), or has gone all the way: on a fresh clone of
    the pull request's base it fetched the pull request into the merge-bot
    branch, checked it out, rebased it, deleted the remote branch and only
    then pushed it, and posted the progress comment that names the branch,
    before releasing the clone.  The comment opens with the caller's intro
    message when one is given (no random draw is made), and with a message
    of the pool otherwise.  [dry_run] changes nothing. *)
Theorem X6_start_that_returns org repo pr username bumpversion dry_run
    intro_message t t' :
  (forall d, merge_bot_start org repo pr username bumpversion d intro_message t
             = merge_bot_start org repo pr username bumpversion dry_run intro_message t)
  /\ (merge_bot_start org repo pr username bumpversion dry_run intro_message t
        = (Val tt, t') ->
  (switch_enabled cfg "merge_bot" = false /\ t' = t)
  \/ (switch_enabled cfg "merge_bot" = true
      /\ can_push_answer w (t +++ [Login; Repository org repo]) org repo username
         = Val false
      /\ t' = t +++ start_opening org repo pr username
                +++ [CreateComment org repo pr
                       ("Sorry @" ++ username ++
                        " you do not have push permission, so I can't merge for you.")])
  \/ (switch_enabled cfg "merge_bot" = true
      /\ can_push_answer w (t +++ [Login; Repository org repo]) org repo username
         = Val true
      /\ exists gh_pr msg,
           pull_request_answer w
             (t +++ [Login; Repository org repo; UserCanPush org repo username])
             org repo pr = Val gh_pr
           /\ (if truthy intro_message
               then intro_message = Some msg
               else In msg (MERGE_BOT_INTRO_MESSAGES cfg))
           /\ let target_branch := base_ref gh_pr in
              let merge_bot_branch :=
                make_merge_bot_branch codec pr target_branch username bumpversion in
              t' = t +++ start_opening org repo pr username
                     +++ [TemporaryClone org repo target_branch;
                          GitCheckOutput ["git"; "fetch"; "origin";
                                          "pull/" ++ str pr ++ "/head:" ++ merge_bot_branch];
                          GitCheckOutput ["git"; "checkout"; merge_bot_branch];
                          GitCheckOutput ["git"; "rebase"; "--autosquash"; target_branch];
                          GitCheckOutput ["git"; "push"; "origin"; ":" ++ merge_bot_branch];
                          GitCheckOutput ["git"; "push"; "origin"; merge_bot_branch]]
                     +++ (if truthy intro_message then []
                          else [RandInt 0
                                  (Z.of_nat (length (MERGE_BOT_INTRO_MESSAGES cfg)) - 1)])
                     +++ [CreateComment org repo pr
                            (rebased_comment org repo merge_bot_branch msg);
                          ReleaseClone])).
Proof.
  split; [reflexivity|]. intro H.
  destruct (switch_enabled cfg "merge_bot") eqn:Hsw.
  - right.
    destruct (can_push_answer w (t +++ [Login; Repository org repo]) org repo username)
      as [[|]|e] eqn:Hperm.
    + right. split; [reflexivity|]. split; [reflexivity|].
      exact (merge_bot_start_all_the_way _ _ _ _ _ _ _ _ _ H Hsw Hperm).
    + left. split; [reflexivity|]. split; [reflexivity|].
      unfold merge_bot_start, switchable in H. rewrite Hsw in H.
      do 3 run_inv.
      match goal with
      | Hp : git_user_can_push _ _ _ _ = _ |- _ =>
          apply git_user_can_push_inv in Hp; destruct Hp as [Hp ->];
          rewrite <- !app_assoc in Hp; cbn [app] in Hp;
          rewrite Hperm in Hp; injection Hp as <-
      end.
      cbn [negb] in H. do 3 run_inv.
      unfold start_opening. now repeat rewrite <- app_assoc.
    + exfalso. unfold merge_bot_start, switchable in H. rewrite Hsw in H.
      do 3 run_inv.
      match goal with
      | Hp : git_user_can_push _ _ _ _ = _ |- _ =>
          apply git_user_can_push_inv in Hp; destruct Hp as [Hp _];
          rewrite <- !app_assoc in Hp; cbn [app] in Hp; congruence
      end.
  - left. split; [reflexivity|].
    unfold merge_bot_start, switchable in H. rewrite Hsw in H.
    apply ret_inv in H. now destruct H as [_ ->].
Qed.

(** X7: whatever happens, Start only logs in, looks up the repository, the
    permission and the pull request, comments on that pull request, clones,
    draws an intro message and runs the fetch, checkout, rebase, deletion
    and push of the merge-bot branch it computes: it never merges, never
    runs the ancestor check, never labels or closes the pull request, and
    never bumps, builds or publishes anything. *)
Theorem X7_start_only_rebases_and_announces org repo pr username bumpversion
    dry_run intro_message t :
  exists new,
    snd (merge_bot_start org repo pr username bumpversion dry_run intro_message t)
    = t +++ new
    /\ Forall (start_call org repo pr username bumpversion) new.
Proof.
  revert t. change (emits (start_call org repo pr username bumpversion)
                      (merge_bot_start org repo pr username bumpversion dry_run
                         intro_message)).
  unfold merge_bot_start, switchable.
  destruct (switch_enabled cfg "merge_bot"); [|apply emits_ret].
  apply emits_bind; [apply emits_perform; exact I | intros _].
  apply emits_bind.
  { apply emits_bind; [apply emits_perform; simpl; tauto | intros _].
    apply emits_ask; simpl; tauto. }
  intros can_push. destruct (negb can_push).
  { apply emits_bind; [apply emits_ask; simpl; tauto | intros _].
    apply emits_perform; simpl; tauto. }
  apply emits_bind; [apply emits_ask; simpl; tauto | intros gh_pr].
  assert (Hgit : forall cmd,
            In cmd (start_git_commands pr username bumpversion (base_ref gh_pr)) ->
            start_call org repo pr username bumpversion (GitCheckOutput cmd)).
  { intros cmd Hin. now exists (base_ref gh_pr). }
  apply emits_try_except.
  - unfold start_rebase_and_push.
    apply emits_with_temporary_clone; [simpl; tauto | exact I |].
    apply emits_bind; [apply emits_git_call, Hgit; simpl; tauto | intros _].
    apply emits_bind; [apply emits_git_call, Hgit; simpl; tauto | intros _].
    apply emits_bind; [apply emits_git_call, Hgit; simpl; tauto | intros _].
    apply emits_bind; [apply emits_git_delete_branch, Hgit; simpl; tauto | intros _].
    apply emits_bind; [apply emits_git_call, Hgit; simpl; tauto | intros _].
    apply emits_bind; [|intros m; apply emits_perform; simpl; tauto].
    destruct (truthy intro_message); [apply emits_ret|].
    apply emits_intro_message. intros; exact I.
  - intro e. apply emits_bind; [apply emits_perform; simpl; tauto | intros _].
    apply emits_raise.
Qed.

Lemma string_not_cons c s : s <> String c s.
Proof.
  induction s as [|a s IH]; [discriminate|].
  intros [= -> E]. now apply IH.
Qed.

(** X8: a first Start, for which the remote merge-bot branch does not exist
    yet, goes through: when the deletion fails with "unable to delete" and
    every other call succeeds, Start still pushes the rebased branch, posts
    the progress comment and returns normally. *)
Theorem X8_first_start_tolerates_absent_branch org repo pr username bumpversion
    dry_run intro_message gh_pr output t :
  let target_branch := base_ref gh_pr in
  let merge_bot_branch :=
    make_merge_bot_branch codec pr target_branch username bumpversion in
  switch_enabled cfg "merge_bot" = true ->
  (forall h c, effect w h c = None) ->
  (forall h, can_push_answer w h org repo username = Val true) ->
  (forall h, pull_request_answer w h org repo pr = Val gh_pr) ->
  (forall h cmd, cmd <> ["git"; "push"; "origin"; ":" ++ merge_bot_branch] ->
                 check_output w h cmd = None) ->
  (forall h, check_output w h ["git"; "push"; "origin"; ":" ++ merge_bot_branch]
             = Some output) ->
  contains "unable to delete" output = true ->
  truthy intro_message = true \/ MERGE_BOT_INTRO_MESSAGES cfg <> [] ->
  exists msg,
    merge_bot_start org repo pr username bumpversion dry_run intro_message t =
    (Val tt,
     t +++ start_opening org repo pr username
       +++ [TemporaryClone org repo target_branch;
            GitCheckOutput ["git"; "fetch"; "origin";
                            "pull/" ++ str pr ++ "/head:" ++ merge_bot_branch];
            GitCheckOutput ["git"; "checkout"; merge_bot_branch];
            GitCheckOutput ["git"; "rebase"; "--autosquash"; target_branch];
            GitCheckOutput ["git"; "push"; "origin"; ":" ++ merge_bot_branch];
            GitCheckOutput ["git"; "push"; "origin"; merge_bot_branch]]
       +++ (if truthy intro_message then []
            else [RandInt 0 (Z.of_nat (length (MERGE_BOT_INTRO_MESSAGES cfg)) - 1)])
       +++ [CreateComment org repo pr (rebased_comment org repo merge_bot_branch msg);
            ReleaseClone]).
Proof.
  intros target_branch merge_bot_branch Hsw Heff Hperm Hpull Hgit Hdel Hout Hintro.
  assert (Hcall : forall h cmd,
            cmd <> ["git"; "push"; "origin"; ":" ++ merge_bot_branch] ->
            _git_call cmd h = (Val tt, h +++ [GitCheckOutput cmd])).
  { intros h cmd Hne. unfold _git_call. now rewrite (Hgit h cmd Hne). }
  assert (Hperf : forall h c, perform c h = (Val tt, h +++ [c])).
  { intros h c. unfold perform. now rewrite Heff. }
  assert (Hmsg : forall h, exists msg,
            (if truthy intro_message
             then ret (match intro_message with Some m => m | None => "" end)
             else _get_merge_bot_intro_message) h =
            (Val msg,
             h +++ (if truthy intro_message then []
                    else [RandInt 0
                            (Z.of_nat (length (MERGE_BOT_INTRO_MESSAGES cfg)) - 1)]))).
  { intro h. destruct (truthy intro_message).
    - eexists. unfold ret. now rewrite app_nil_r.
    - destruct Hintro as [Hi|Hi]; [discriminate|].
      pose proof (intro_message_cases h) as Hc.
      destruct (MERGE_BOT_INTRO_MESSAGES cfg) as [|m0 l]; [congruence|].
      destruct Hc as (m & _ & Hc). now exists m. }
  destruct (Hmsg (t +++ start_opening org repo pr username
                    +++ [TemporaryClone org repo target_branch;
                         GitCheckOutput ["git"; "fetch"; "origin";
                           "pull/" ++ str pr ++ "/head:" ++ merge_bot_branch];
                         GitCheckOutput ["git"; "checkout"; merge_bot_branch];
                         GitCheckOutput ["git"; "rebase"; "--autosquash"; target_branch];
                         GitCheckOutput ["git"; "push"; "origin"; ":" ++ merge_bot_branch];
                         GitCheckOutput ["git"; "push"; "origin"; merge_bot_branch]]))
    as (msg & Em).
  exists msg.
  unfold merge_bot_start, switchable. rewrite Hsw.
  erewrite bind_val by apply Hperf.
  erewrite bind_val
    by (unfold git_user_can_push; erewrite bind_val by apply Hperf;
        unfold ask; rewrite Hperm; reflexivity).
  cbn [negb].
  erewrite bind_val by (unfold pull_request, ask; rewrite Hpull; reflexivity).
  unfold try_except, start_rebase_and_push, with_temporary_clone.
  rewrite Hperf. fold target_branch. fold merge_bot_branch.
  erewrite bind_val by (apply Hcall; discriminate).
  erewrite bind_val by (apply Hcall; discriminate).
  erewrite bind_val by (apply Hcall; discriminate).
  erewrite bind_val
    by (apply (_git_delete_branch_absent "origin" merge_bot_branch _ output);
        [apply Hdel | exact Hout]).
  erewrite bind_val
    by (apply Hcall; intros [= E]; exact (string_not_cons _ _ E)).
  unfold start_opening in *. repeat rewrite <- app_assoc in *. cbn [app] in *.
  erewrite bind_val by exact Em.
  unfold create_comment. rewrite Hperf. unfold rebased_comment.
  repeat rewrite <- app_assoc. reflexivity.
Qed.

(** ** More about Status *)

(** The reads of the aggregator: the statuses, and the check suites when
    the statuses leave the verdict open. *)
Lemma _get_commit_success_reads c t :
  snd (_get_commit_success c t) = t +++ [CommitStatus]
  \/ snd (_get_commit_success c t) = t +++ [CommitStatus; CheckSuites].
Proof.
  unfold _get_commit_success, bind, ask, ret.
  destruct (status c) as [sts|e]; [|now left].
  destruct (statuses_loop sts None false) as [[s1 ot1]|r]; [|now left].
  right. rewrite <- app_assoc.
  destruct (check_suites c) as [css|e]; [|reflexivity].
  now destruct (check_suites_loop css s1 ot1).
Qed.

(** Status up to the verdict: the working copy, the head, the decoded
    intent, the login and the three lookups. *)
Lemma merge_bot_status_opened org repo merge_bot_branch sha t
    pr target_branch username bumpversion gh_pr gh_commit :
  switch_enabled cfg "merge_bot" = true ->
  effect w t (TemporaryClone org repo merge_bot_branch) = None ->
  head_sha_answer w (t +++ [TemporaryClone org repo merge_bot_branch]) = Val sha ->
  parse_merge_bot_branch codec merge_bot_branch
    = Val (pr, target_branch, username, bumpversion) ->
  effect w (t +++ [TemporaryClone org repo merge_bot_branch; HeadSha]) Login = None ->
  effect w (t +++ [TemporaryClone org repo merge_bot_branch; HeadSha; Login])
    (Repository org repo) = None ->
  pull_request_answer w
    (t +++ [TemporaryClone org repo merge_bot_branch; HeadSha; Login;
            Repository org repo]) org repo pr = Val gh_pr ->
  commit_answer w
    (t +++ [TemporaryClone org repo merge_bot_branch; HeadSha; Login;
            Repository org repo; PullRequest org repo pr]) org repo sha
    = Val gh_commit ->
  merge_bot_status org repo merge_bot_branch sha t =
  (let (r, t2) :=
     (success <- _get_commit_success gh_commit ;;
      match success with
      | None => ret tt
      | Some true =>
          try_except
            (_merge_bot_merge_pr org repo merge_bot_branch false ;; ret tt)
            (fun e =>
               create_comment org repo pr (finalize_failure_comment username e) ;;
               raise e)
      | Some false =>
          create_comment org repo pr
            (aborted_comment org repo merge_bot_branch sha username) ;;
          _git_call ["git"; "push"; "origin"; ":" ++ merge_bot_branch]
      end) (t +++ status_opening org repo merge_bot_branch sha pr) in
   (r, t2 +++ [ReleaseClone])).
Proof.
  intros Hsw Hclone Hhead Hparse Hlogin Hrepo Hpr Hcommit.
  unfold merge_bot_status, switchable. rewrite Hsw.
  unfold with_temporary_clone at 1. unfold perform at 1. rewrite Hclone.
  erewrite bind_val
    by (unfold git_get_head_sha, ask; rewrite Hhead; reflexivity).
  rewrite String.eqb_refl. cbn [negb].
  rewrite (bind_val _ _ _ (pr, target_branch, username, bumpversion) _)
    by (unfold lift; now rewrite Hparse).
  cbv beta iota. rewrite <- !app_assoc. cbn [app].
  erewrite bind_val by (unfold perform; rewrite Hlogin; reflexivity).
  rewrite <- !app_assoc. cbn [app].
  erewrite bind_val by (unfold perform; rewrite Hrepo; reflexivity).
  rewrite <- !app_assoc. cbn [app].
  erewrite bind_val by (unfold pull_request, ask; rewrite Hpr; reflexivity).
  rewrite <- !app_assoc. cbn [app].
  erewrite bind_val by (unfold commit, ask; rewrite Hcommit; reflexivity).
  rewrite <- !app_assoc. cbn [app]. reflexivity.
Qed.

(** X9: on a Pending verdict Status does nothing: after the lookups and
    the reads of the aggregator it releases its working copy and returns;
    no comment, no git command, no Finalize. *)
Theorem X9_status_pending_is_a_no_op org repo merge_bot_branch sha t
    pr target_branch username bumpversion gh_pr gh_commit :
  switch_enabled cfg "merge_bot" = true ->
  effect w t (TemporaryClone org repo merge_bot_branch) = None ->
  head_sha_answer w (t +++ [TemporaryClone org repo merge_bot_branch]) = Val sha ->
  parse_merge_bot_branch codec merge_bot_branch
    = Val (pr, target_branch, username, bumpversion) ->
  effect w (t +++ [TemporaryClone org repo merge_bot_branch; HeadSha]) Login = None ->
  effect w (t +++ [TemporaryClone org repo merge_bot_branch; HeadSha; Login])
    (Repository org repo) = None ->
  pull_request_answer w
    (t +++ [TemporaryClone org repo merge_bot_branch; HeadSha; Login;
            Repository org repo]) org repo pr = Val gh_pr ->
  commit_answer w
    (t +++ [TemporaryClone org repo merge_bot_branch; HeadSha; Login;
            Repository org repo; PullRequest org repo pr]) org repo sha
    = Val gh_commit ->
  fst (_get_commit_success gh_commit
         (t +++ status_opening org repo merge_bot_branch sha pr)) = Val None ->
  exists reads,
    (reads = [CommitStatus] \/ reads = [CommitStatus; CheckSuites])
    /\ merge_bot_status org repo merge_bot_branch sha t =
       (Val tt,
        t +++ status_opening org repo merge_bot_branch sha pr
          +++ reads +++ [ReleaseClone]).
Proof.
  intros Hsw Hclone Hhead Hparse Hlogin Hrepo Hpr Hcommit Hverdict.
  rewrite (merge_bot_status_opened _ _ _ _ _ _ _ _ _ _ _
             Hsw Hclone Hhead Hparse Hlogin Hrepo Hpr Hcommit).
  unfold bind.
  destruct (_get_commit_success_reads gh_commit
              (t +++ status_opening org repo merge_bot_branch sha pr)) as [Hr|Hr];
    destruct (_get_commit_success gh_commit _) as [r t1];
    simpl in Hverdict, Hr; subst r t1; unfold ret;
    [exists [CommitStatus] | exists [CommitStatus; CheckSuites]];
    (split; [tauto|]); now rewrite <- !app_assoc.
Qed.

(** X10: on a Failure verdict Status first posts the "aborted due to failed
    check(s)" comment and then runs the deletion push of the merge-bot
    branch, and nothing else: Finalize is not attempted.  Status returns
    when that push succeeds and raises its failure otherwise; when the
    comment cannot be posted, the branch is not deleted. *)
Theorem X10_status_failure_comments_then_deletes org repo merge_bot_branch sha t
    pr target_branch username bumpversion gh_pr gh_commit :
  switch_enabled cfg "merge_bot" = true ->
  effect w t (TemporaryClone org repo merge_bot_branch) = None ->
  head_sha_answer w (t +++ [TemporaryClone org repo merge_bot_branch]) = Val sha ->
  parse_merge_bot_branch codec merge_bot_branch
    = Val (pr, target_branch, username, bumpversion) ->
  effect w (t +++ [TemporaryClone org repo merge_bot_branch; HeadSha]) Login = None ->
  effect w (t +++ [TemporaryClone org repo merge_bot_branch; HeadSha; Login])
    (Repository org repo) = None ->
  pull_request_answer w
    (t +++ [TemporaryClone org repo merge_bot_branch; HeadSha; Login;
            Repository org repo]) org repo pr = Val gh_pr ->
  commit_answer w
    (t +++ [TemporaryClone org repo merge_bot_branch; HeadSha; Login;
            Repository org repo; PullRequest org repo pr]) org repo sha
    = Val gh_commit ->
  fst (_get_commit_success gh_commit
         (t +++ status_opening org repo merge_bot_branch sha pr)) = Val (Some false) ->
  let comment :=
    CreateComment org repo pr
      (aborted_comment org repo merge_bot_branch sha username) in
  let delete := ["git"; "push"; "origin"; ":" ++ merge_bot_branch] in
  exists reads,
    (reads = [CommitStatus] \/ reads = [CommitStatus; CheckSuites])
    /\ let h := t +++ status_opening org repo merge_bot_branch sha pr +++ reads in
       (effect w h comment = None ->
        merge_bot_status org repo merge_bot_branch sha t =
        (match check_output w (h +++ [comment]) delete with
         | None => Val tt
         | Some output => Raise (CalledProcessError delete output)
         end,
         h +++ [comment; GitCheckOutput delete; ReleaseClone]))
       /\ (forall e, effect w h comment = Some e ->
           merge_bot_status org repo merge_bot_branch sha t =
           (Raise e, h +++ [comment; ReleaseClone])).
Proof.
  intros Hsw Hclone Hhead Hparse Hlogin Hrepo Hpr Hcommit Hverdict comment delete.
  assert (Hgen : forall reads,
    (let (r, t2) :=
       (create_comment org repo pr
          (aborted_comment org repo merge_bot_branch sha username) ;;
        _git_call ["git"; "push"; "origin"; ":" ++ merge_bot_branch])
         (t +++ status_opening org repo merge_bot_branch sha pr +++ reads) in
     (r, t2 +++ [ReleaseClone])) =
    match effect w (t +++ status_opening org repo merge_bot_branch sha pr +++ reads)
            comment with
    | None =>
        (match check_output w
                 ((t +++ status_opening org repo merge_bot_branch sha pr +++ reads)
                  +++ [comment]) delete with
         | None => Val tt
         | Some output => Raise (CalledProcessError delete output)
         end,
         (t +++ status_opening org repo merge_bot_branch sha pr +++ reads)
         +++ [comment; GitCheckOutput delete; ReleaseClone])
    | Some e =>
        (Raise e,
         (t +++ status_opening org repo merge_bot_branch sha pr +++ reads)
         +++ [comment; ReleaseClone])
    end).
  { intro reads. unfold bind, create_comment, perform, _git_call.
    fold comment. fold delete.
    destruct (effect w _ comment); [now rewrite <- !app_assoc|].
    destruct (check_output w _ delete); now rewrite <- !app_assoc. }
  assert (Hrun : exists reads,
            (reads = [CommitStatus] \/ reads = [CommitStatus; CheckSuites])
            /\ merge_bot_status org repo merge_bot_branch sha t =
               (let (r, t2) :=
                  (create_comment org repo pr
                     (aborted_comment org repo merge_bot_branch sha username) ;;
                   _git_call ["git"; "push"; "origin"; ":" ++ merge_bot_branch])
                    (t +++ status_opening org repo merge_bot_branch sha pr +++ reads) in
                (r, t2 +++ [ReleaseClone]))).
  { rewrite (merge_bot_status_opened _ _ _ _ _ _ _ _ _ _ _
               Hsw Hclone Hhead Hparse Hlogin Hrepo Hpr Hcommit).
    unfold bind at 1.
    destruct (_get_commit_success_reads gh_commit
                (t +++ status_opening org repo merge_bot_branch sha pr)) as [Hr|Hr];
      destruct (_get_commit_success gh_commit _) as [r t1];
      simpl in Hverdict, Hr; subst r t1;
      [exists [CommitStatus] | exists [CommitStatus; CheckSuites]];
      (split; [tauto|]); now rewrite <- !app_assoc. }
  destruct Hrun as (reads & Hreads & Hrun). exists reads. split; [exact Hreads|].
  cbv zeta. rewrite Hrun, Hgen.
  split; [intros Hc | intros e Hc]; now rewrite Hc.
Qed.

(** X11: on a Success verdict, a Finalize that raises is reported: Status
    posts the "could not be finalized" comment, which quotes the failed
    command and its output (or the exception's description), releases the
    working copy and raises the same exception.  A Finalize that returns,
    merged or not, makes Status return with no comment of its own. *)
Theorem X11_status_reports_a_failed_finalize org repo merge_bot_branch sha t
    pr target_branch username bumpversion gh_pr gh_commit :
  switch_enabled cfg "merge_bot" = true ->
  effect w t (TemporaryClone org repo merge_bot_branch) = None ->
  head_sha_answer w (t +++ [TemporaryClone org repo merge_bot_branch]) = Val sha ->
  parse_merge_bot_branch codec merge_bot_branch
    = Val (pr, target_branch, username, bumpversion) ->
  effect w (t +++ [TemporaryClone org repo merge_bot_branch; HeadSha]) Login = None ->
  effect w (t +++ [TemporaryClone org repo merge_bot_branch; HeadSha; Login])
    (Repository org repo) = None ->
  pull_request_answer w
    (t +++ [TemporaryClone org repo merge_bot_branch; HeadSha; Login;
            Repository org repo]) org repo pr = Val gh_pr ->
  commit_answer w
    (t +++ [TemporaryClone org repo merge_bot_branch; HeadSha; Login;
            Repository org repo; PullRequest org repo pr]) org repo sha
    = Val gh_commit ->
  fst (_get_commit_success gh_commit
         (t +++ status_opening org repo merge_bot_branch sha pr)) = Val (Some true) ->
  let h := t +++ status_opening org repo merge_bot_branch sha pr
             +++ [CommitStatus; CheckSuites] in
  (forall e t1,
     _merge_bot_merge_pr org repo merge_bot_branch false h = (Raise e, t1) ->
     effect w t1 (CreateComment org repo pr (finalize_failure_comment username e))
       = None ->
     merge_bot_status org repo merge_bot_branch sha t =
     (Raise e,
      t1 +++ [CreateComment org repo pr (finalize_failure_comment username e);
              ReleaseClone]))
  /\ (forall merged t1,
        _merge_bot_merge_pr org repo merge_bot_branch false h = (Val merged, t1) ->
        merge_bot_status org repo merge_bot_branch sha t
        = (Val tt, t1 +++ [ReleaseClone]))
  /\ (forall cmd output,
        contains (join " " cmd)
          (finalize_failure_comment username (CalledProcessError cmd output)) = true
        /\ contains output
             (finalize_failure_comment username (CalledProcessError cmd output)) = true)
  /\ (forall msg,
        contains msg (finalize_failure_comment username (Exception msg)) = true).
Proof.
  intros Hsw Hclone Hhead Hparse Hlogin Hrepo Hpr Hcommit Hverdict h.
  rewrite (merge_bot_status_opened _ _ _ _ _ _ _ _ _ _ _
             Hsw Hclone Hhead Hparse Hlogin Hrepo Hpr Hcommit).
  apply _get_commit_success_passed in Hverdict.
  erewrite bind_val by exact Hverdict. cbv iota.
  rewrite <- app_assoc. fold h.
  split; [|split; [|split]].
  - intros e t1 Hf Hc. unfold try_except, bind at 1. rewrite Hf.
    unfold bind, create_comment, perform, raise. rewrite Hc.
    now rewrite <- app_assoc.
  - intros merged t1 Hf. unfold try_except, bind. rewrite Hf. reflexivity.
  - intros cmd output. unfold finalize_failure_comment. split;
      repeat first [apply contains_here | apply contains_app_r].
  - intros msg. unfold finalize_failure_comment.
    repeat first [apply contains_here | apply contains_app_r].
Qed.

(** X12: a Status for the current head of a branch whose name does not
    decode raises the decoding error after reading the head: it logs in
    nowhere, posts no comment, runs no git command, and releases its
    working copy. *)
Theorem X12_status_on_undecodable_branch org repo merge_bot_branch sha t e :
  switch_enabled cfg "merge_bot" = true ->
  effect w t (TemporaryClone org repo merge_bot_branch) = None ->
  head_sha_answer w (t +++ [TemporaryClone org repo merge_bot_branch]) = Val sha ->
  parse_merge_bot_branch codec merge_bot_branch = Raise e ->
  merge_bot_status org repo merge_bot_branch sha t =
  (Raise e, t +++ [TemporaryClone org repo merge_bot_branch; HeadSha; ReleaseClone]).
Proof.
  intros Hsw Hclone Hhead Hparse.
  unfold merge_bot_status, switchable. rewrite Hsw.
  unfold with_temporary_clone, perform. rewrite Hclone.
  erewrite bind_val
    by (unfold git_get_head_sha, ask; rewrite Hhead; reflexivity).
  rewrite String.eqb_refl. cbn [negb].
  unfold bind, lift. rewrite Hparse. now rewrite <- !app_assoc.
Qed.

(** ** More about Finalize *)

(** X13: in a Finalize that merges, the version bumps happen on the
    merge-bot branch before the merge commit and the publications after the
    push of the target branch.  With a bump policy every modified addon is
    bumped and its wheel checked, once and in order, and, when
    [SIMPLE_INDEX_ROOT] is set, its wheel published with the caller's
    [dry_run]; without a bump policy nothing is bumped, checked or
    published, although the main-branch maintenance still runs when addons
    were modified. *)
Theorem X13_bumps_before_merge_publications_after org repo merge_bot_branch
    dry_run t t' :
  _merge_bot_merge_pr org repo merge_bot_branch dry_run t = (Val true, t') ->
  exists pr target_branch username bumpversion addons gh_pr merge_sha bumps wheels,
    parse_merge_bot_branch codec merge_bot_branch
      = Val (pr, target_branch, username, bumpversion)
    /\ modified_addon_dirs_answer w
         (t +++ removelast (survey_events merge_bot_branch pr target_branch))
         "." target_branch = Val addons
    /\ t' = t +++ survey_events merge_bot_branch pr target_branch
              +++ [GitCheckOutput ["git"; "checkout"; merge_bot_branch]]
              +++ (if nonempty addons
                   then [MainBranchBotActions org repo target_branch] else [])
              +++ bumps
              +++ merge_events org repo merge_bot_branch dry_run pr target_branch username
              +++ wheels
              +++ closing_events org repo merge_bot_branch dry_run pr target_branch
                    gh_pr merge_sha
    /\ (truthy bumpversion = false -> bumps = [] /\ wheels = [])
    /\ (forall b, bumpversion = Some b -> b <> "" ->
          bumps = flat_map (fun addon_dir =>
                              [BumpManifestVersion addon_dir b;
                               BuildAndCheckWheel addon_dir]) addons
          /\ wheels = match SIMPLE_INDEX_ROOT cfg with
                      | Some root =>
                          if String.eqb root "" then []
                          else map (fun addon_dir =>
                                      BuildAndPublishWheel addon_dir root dry_run)
                                   addons
                      | None => []
                      end).
Proof.
  intro H. apply _merge_bot_merge_pr_merged in H.
  destruct H as (pr & target_branch & username & bumpversion & addons & gh_pr
                 & merge_sha & Hparse & Haddons & ->).
  exists pr, target_branch, username, bumpversion, addons, gh_pr, merge_sha.
  exists (flat_map (bump_events bumpversion) addons),
         (publish_events bumpversion addons dry_run).
  split; [exact Hparse|]. split; [exact Haddons|]. split; [|split].
  - unfold merged_trace, addon_events. now repeat rewrite <- app_assoc.
  - intro Hb. unfold publish_events. rewrite Hb. simpl. split.
    + unfold bump_events. destruct bumpversion as [b|].
      * simpl in Hb. apply negb_false_iff in Hb. rewrite Hb.
        clear. induction addons; [reflexivity | assumption].
      * clear. induction addons; [reflexivity | assumption].
    + now destruct (SIMPLE_INDEX_ROOT cfg).
  - intros b -> Hb. apply String.eqb_neq in Hb. split.
    + unfold bump_events. now rewrite Hb.
    + unfold publish_events, truthy. rewrite Hb. simpl.
      destruct (SIMPLE_INDEX_ROOT cfg) as [root|]; [|reflexivity].
      destruct addons as [|a l]; simpl.
      * now destruct (String.eqb root "").
      * now destruct (String.eqb root "").
Qed.

(** ** Finalize, call by call *)

(** A loop that raises has made the calls of its first rounds. *)
Lemma for_each_bump_prefix bumpversion addons t r t' :
  for_each (bump_and_check bumpversion) addons t = (r, t') ->
  exists p rest,
    t' = t +++ p /\ p +++ rest = flat_map (bump_events bumpversion) addons
    /\ (forall u, r = Val u -> rest = []).
Proof.
  revert t. induction addons as [|a l IH]; intros t H; simpl in H.
  - unfold ret in H. injection H as <- <-. exists [], [].
    repeat split. now rewrite app_nil_r.
  - apply bind_cases in H. destruct H as [(e & Ha & ->)|(u & t1 & Ha & H)].
    + unfold bump_and_check, bump_events in *. simpl.
      destruct bumpversion as [b|]; [|discriminate].
      destruct (String.eqb b ""); [discriminate|].
      apply bind_cases in Ha. destruct Ha as [(e' & Ha & _)|(u & t1 & Ha & Hb)].
      * apply perform_trace in Ha. subst t'.
        eexists [_], _. split; [reflexivity|]. split; [reflexivity | discriminate].
      * apply perform_trace in Ha. apply perform_trace in Hb. subst.
        eexists [_; _], _. split; [now rewrite <- app_assoc|].
        split; [reflexivity | discriminate].
    + destruct (IH _ H) as (p & rest & -> & Hp & Hr).
      assert (Ht1 : t1 = t +++ bump_events bumpversion a).
      { unfold bump_and_check, bump_events in *.
        destruct bumpversion as [b|].
        - destruct (String.eqb b "").
          + unfold ret in Ha. injection Ha as _ <-. now rewrite app_nil_r.
          + apply bind_inv in Ha. destruct Ha as (y & t2 & H1 & H2).
            apply perform_trace in H1. apply perform_trace in H2. subst.
            now rewrite <- app_assoc.
        - unfold ret in Ha. injection Ha as _ <-. now rewrite app_nil_r. }
      subst t1. exists (bump_events bumpversion a +++ p), rest.
      split; [now rewrite app_assoc|]. split; [|exact Hr].
      simpl. now rewrite <- app_assoc, Hp.
Qed.

Lemma publish_wheels_prefix bumpversion addons dry_run t r t' :
  publish_wheels bumpversion addons dry_run t = (r, t') ->
  exists p rest,
    t' = t +++ p /\ p +++ rest = publish_events bumpversion addons dry_run
    /\ (forall u, r = Val u -> rest = []).
Proof.
  unfold publish_wheels, publish_events.
  assert (Hnone : ret tt t = (r, t') ->
            exists p rest : trace, t' = t +++ p /\ p +++ rest = []
                                   /\ (forall u, r = Val u -> rest = [])).
  { unfold ret. intros [= <- <-]. exists [], []. now rewrite app_nil_r. }
  destruct (SIMPLE_INDEX_ROOT cfg) as [root|]; [|exact Hnone].
  destruct (truthy bumpversion && nonempty addons && negb (String.eqb root ""))%bool;
    [|exact Hnone].
  clear Hnone. revert t. induction addons as [|a l IH]; intros t H; simpl in H.
  - unfold ret in H. injection H as <- <-. exists [], [].
    repeat split. now rewrite app_nil_r.
  - apply bind_cases in H. destruct H as [(e & Ha & ->)|(u & t1 & Ha & H)].
    + apply perform_trace in Ha. subst. simpl.
      eexists [_], _. split; [reflexivity|]. split; [reflexivity | discriminate].
    + apply perform_trace in Ha. subst t1.
      destruct (IH _ H) as (p & rest & -> & Hp & Hr).
      eexists (_ :: p), rest. split; [now rewrite <- app_assoc|].
      split; [|exact Hr]. simpl. now rewrite Hp.
Qed.

Lemma prefix_of_script (t p s : trace) :
  (exists rest, p +++ rest = s) -> exists rest, (t +++ p) +++ rest = t +++ s.
Proof. intros (rest & <-). exists rest. now rewrite app_assoc. Qed.

Lemma stopped (t p s s' : trace) (r : result bool) e :
  r = Raise e ->
  s = s' ->
  (exists rest, p +++ rest = s') ->
  exists rest, (t +++ p) +++ rest = t +++ s
               /\ ((r = Val true /\ rest = []) \/ exists e, r = Raise e).
Proof.
  intros -> <- (rest & <-). exists rest. split; [now rewrite app_assoc|].
  right. now exists e.
Qed.

Lemma stopped_in_loop (t q p rest fm s tail : trace) (r : result bool) e :
  r = Raise e ->
  p +++ rest = fm ->
  s = q +++ fm +++ tail ->
  exists R, ((t +++ q) +++ p) +++ R = t +++ s
            /\ ((r = Val true /\ R = []) \/ exists e, r = Raise e).
Proof.
  intros -> <- ->. exists (rest +++ tail). split.
  - now repeat rewrite <- app_assoc.
  - right. now exists e.
Qed.

(** One call of a run that may raise: either it raised, or the run goes on. *)
Ltac fstep H tr a :=
  apply bind_cases in H;
  let e := fresh "e" in
  let Hm := fresh "Hm" in
  let t1 := fresh "t1" in
  destruct H as [(e & Hm & ->)|(a & t1 & Hm & H)];
  [ apply tr in Hm; repeat rewrite <- app_assoc in Hm; cbn [app] in Hm; subst
  | apply tr in Hm; subst t1; repeat rewrite <- app_assoc in H; cbn [app] in H;
    cbv beta in H ].

(** The run raised at the call it has just made. *)
Ltac stop :=
  eapply stopped;
  [ reflexivity
  | unfold merged_trace, survey_events, addon_events, merge_events, closing_events;
    repeat match goal with E : nonempty _ = _ |- _ => rewrite E end;
    repeat rewrite <- app_assoc; cbn [app]; reflexivity
  | eexists; cbn [app]; repeat (rewrite <- app_assoc; cbn [app]); reflexivity ].

Lemma log_trace msg t (r : result unit) t' :
  log msg t = (r, t') -> t' = t +++ [Log msg].
Proof. unfold log. now intros [= _ <-]. Qed.

Lemma log_then_git_call_trace msg cmd t r t' :
  (log msg ;; _git_call cmd) t = (r, t') -> t' = t +++ [Log msg; GitCheckOutput cmd].
Proof.
  unfold bind, log. intro H. apply _git_call_trace in H. now rewrite <- app_assoc in H.
Qed.

Lemma log_then_perform_trace msg c t r t' :
  (log msg ;; perform c) t = (r, t') -> t' = t +++ [Log msg; c].
Proof.
  unfold bind, log. intro H. apply perform_trace in H. now rewrite <- app_assoc in H.
Qed.

(** One call, with what to do when it raised and when the run goes on. *)
Ltac fstepk H tr cl k :=
  apply bind_cases in H;
  let e := fresh "e" in
  let Hm := fresh "Hm" in
  let t1 := fresh "t1" in
  let a := fresh "a" in
  destruct H as [(e & Hm & ->)|(a & t1 & Hm & H)];
  [ apply tr in Hm; repeat rewrite <- app_assoc in Hm; cbn [app] in Hm; subst; cl
  | apply tr in Hm; subst t1; repeat rewrite <- app_assoc in H; cbn [app] in H;
    cbv beta in H; k a ].

(** The run reached the end of the merge script. *)
Ltac finished H addons gh_pr merge_sha :=
  unfold ret in H; injection H as <- <-;
  exists addons, gh_pr, merge_sha, [];
  rewrite app_nil_r; split; [|left; now split];
  unfold merged_trace, survey_events, addon_events, merge_events, closing_events;
  repeat match goal with E : nonempty _ = _ |- _ => rewrite E end;
  cbn [app]; repeat (rewrite <- app_assoc; cbn [app]); reflexivity.

(** From the deletion of the merge-bot branch to the closing of the PR. *)
Ltac closing_tail H addons :=
  let nobody := constr:(mk_pull "" "") in
  fstepk H _git_delete_branch_trace ltac:(exists addons, nobody, ""; stop) ltac:(fun _ =>
  fstepk H perform_trace ltac:(exists addons, nobody, ""; stop) ltac:(fun _ =>
  fstepk H (@ask_trace gh_pull) ltac:(exists addons, nobody, ""; stop) ltac:(fun gh_pr =>
  fstepk H (@ask_trace string) ltac:(exists addons, gh_pr, ""; stop) ltac:(fun sha =>
  unfold create_comment in H;
  fstepk H perform_trace ltac:(exists addons, gh_pr, sha; stop) ltac:(fun _ =>
  fstepk H perform_trace ltac:(exists addons, gh_pr, sha; stop) ltac:(fun _ =>
  first [ fstepk H log_then_perform_trace ltac:(exists addons, gh_pr, sha; stop)
            ltac:(fun _ =>
          fstepk H perform_trace ltac:(exists addons, gh_pr, sha; stop)
            ltac:(fun _ => finished H addons gh_pr sha))
        | fstepk H log_trace ltac:(exists addons, gh_pr, sha; stop)
            ltac:(fun _ =>
          fstepk H perform_trace ltac:(exists addons, gh_pr, sha; stop)
            ltac:(fun _ => finished H addons gh_pr sha)) ])))))).

(** From the bump loop to the end. *)
Ltac merge_tail H addons dry :=
  let nobody := constr:(mk_pull "" "") in
  let e := fresh "e" in
  let Hm := fresh "Hm" in
  let t1 := fresh "t1" in
  let u := fresh "u" in
  let p := fresh "p" in
  let rest := fresh "rest" in
  let Hp := fresh "Hp" in
  apply bind_cases in H; destruct H as [(e & Hm & ->)|(u & t1 & Hm & H)];
  [ apply for_each_bump_prefix in Hm; destruct Hm as (p & rest & -> & Hp & _);
    exists addons, nobody, "";
    eapply stopped_in_loop; [reflexivity | exact Hp |];
    unfold merged_trace, survey_events, addon_events;
    repeat match goal with E : nonempty _ = _ |- _ => rewrite E end;
    cbn [app]; repeat (rewrite <- app_assoc; cbn [app]); reflexivity
  | apply for_each_bump_inv in Hm; subst t1;
    repeat rewrite <- app_assoc in H; cbn [app] in H;
    fstepk H _git_call_trace ltac:(exists addons, nobody, ""; stop) ltac:(fun _ =>
    fstepk H _git_call_trace ltac:(exists addons, nobody, ""; stop) ltac:(fun _ =>
    destruct dry;
    [ fstepk H log_trace ltac:(exists addons, nobody, ""; stop) ltac:(fun _ => idtac)
    | fstepk H log_then_git_call_trace ltac:(exists addons, nobody, ""; stop)
        ltac:(fun _ => idtac) ];
    (let e := fresh "e" in
     let Hm := fresh "Hm" in
     let t1 := fresh "t1" in
     let u := fresh "u" in
     let p := fresh "p" in
     let rest := fresh "rest" in
     let Hp := fresh "Hp" in
     apply bind_cases in H; destruct H as [(e & Hm & ->)|(u & t1 & Hm & H)];
     [ apply publish_wheels_prefix in Hm; destruct Hm as (p & rest & -> & Hp & _);
       exists addons, nobody, "";
       eapply stopped_in_loop; [reflexivity | exact Hp |];
       unfold merged_trace, survey_events, addon_events, merge_events;
       repeat match goal with E : nonempty _ = _ |- _ => rewrite E end;
       cbn [app]; repeat (rewrite <- app_assoc; cbn [app]); reflexivity
     | apply publish_wheels_inv in Hm; subst t1;
       repeat rewrite <- app_assoc in H; cbn [app] in H;
       closing_tail H addons ]))) ].

(** On the merge path the calls of Finalize are an initial segment of the
    calls of a complete merge. *)
Lemma _merge_bot_merge_pr_prefix org repo merge_bot_branch dry_run t
    pr target_branch username bumpversion r t' :
  parse_merge_bot_branch codec merge_bot_branch
    = Val (pr, target_branch, username, bumpversion) ->
  exit_status w (t +++ [GitCheckOutput ["git"; "checkout"; target_branch]])
    ["git"; "merge-base"; "--is-ancestor"; target_branch; merge_bot_branch] = 0 ->
  _merge_bot_merge_pr org repo merge_bot_branch dry_run t = (r, t') ->
  exists addons gh_pr merge_sha rest,
    t' +++ rest
    = t +++ merged_trace org repo merge_bot_branch dry_run pr target_branch username
              bumpversion addons gh_pr merge_sha
    /\ ((r = Val true /\ rest = []) \/ exists e, r = Raise e).
Proof.
  intros Hparse Hrc H. unfold _merge_bot_merge_pr in H.
  rewrite (bind_val _ _ t (pr, target_branch, username, bumpversion) t) in H
    by (unfold lift; now rewrite Hparse).
  cbv beta iota in H.
  fstep H _git_call_trace u1; [exists [], (mk_pull "" ""), ""; stop|].
  erewrite bind_val in H by reflexivity. rewrite Hrc in H.
  change (negb (0 =? 0)) with false in H. cbv iota in H.
  repeat rewrite <- app_assoc in H. cbn [app] in H.
  fstep H _git_call_trace u2; [exists [], (mk_pull "" ""), ""; stop|].
  fstep H _git_call_trace u3; [exists [], (mk_pull "" ""), ""; stop|].
  fstep H (@ask_trace (list string)) addons; [exists [], (mk_pull "" ""), ""; stop|].
  fstep H _git_call_trace u4; [exists addons, (mk_pull "" ""), ""; stop|].
  destruct (nonempty addons) eqn:Ene.
  - fstep H perform_trace u5; [exists addons, (mk_pull "" ""), ""; stop|].
    merge_tail H addons dry_run.
  - unfold bind at 1 in H. unfold ret at 1 in H.
    merge_tail H addons dry_run.
Qed.

(** ** Runs that stop at the first failure *)

Lemma fail_fast_ret {A} tolerant (a : A) : fail_fast tolerant (ret a).
Proof.
  intros t r t' [= <- <-]. exists []. unfold calls. simpl.
  split; [now rewrite app_nil_r|]. split; [intros s []|reflexivity].
Qed.

Lemma fail_fast_bind {A B} tolerant (m : M A) (k : A -> M B) :
  fail_fast tolerant m -> (forall a, fail_fast tolerant (k a)) ->
  fail_fast tolerant (bind m k).
Proof.
  intros Hm Hk t r t' H. apply bind_cases in H.
  destruct H as [(e & Hr & ->)|(a & t1 & Hr & H)].
  - destruct (Hm _ _ _ Hr) as (steps & E & F & P). now exists steps.
  - destruct (Hm _ _ _ Hr) as (s1 & -> & F1 & P1). cbn beta iota in P1.
    destruct (Hk a _ _ _ H) as (s2 & -> & F2 & P2).
    exists (s1 ++ s2)%list. split; [|split].
    + unfold calls. now rewrite map_app, app_assoc.
    + intros s Hin. apply in_app_or in Hin. destruct Hin; auto.
    + destruct r as [b|e].
      * now rewrite passes_app, P1, P2.
      * destruct P2 as (pre & s & -> & Pp & Ps).
        exists (s1 ++ pre)%list, s. split; [now rewrite app_assoc|].
        split; [now rewrite passes_app, P1, Pp|].
        unfold calls in *. now rewrite map_app, app_assoc.
Qed.

(** One call, strict or tolerant, that stops the run exactly when it
    fails. *)
Lemma fail_fast_one {A} (tolerant : call -> Prop) (m : M A) (s : step) :
  (snd s = true -> tolerant (fst s)) ->
  (forall t, snd (m t) = t +++ [fst s]
             /\ match fst (m t) with
                | Val _ => stops t s = None
                | Raise e => stops t s = Some e
                end) ->
  fail_fast tolerant m.
Proof.
  intros Ht Hm t r t' H. destruct (Hm t) as [E P]. rewrite H in E, P.
  cbn [fst snd] in E, P. exists [s]. split; [exact E|]. split.
  - intros s' [<-|[]]. exact Ht.
  - destruct r as [a|e].
    + cbn [passes]. now rewrite P.
    + exists [], s. unfold calls. simpl. rewrite app_nil_r. now repeat split.
Qed.

Lemma fail_fast_git_call tolerant cmd : fail_fast tolerant (_git_call cmd).
Proof.
  apply (fail_fast_one tolerant _ (strict (GitCheckOutput cmd))); [discriminate|].
  intro t. unfold _git_call, stops, strict. cbn [raised fst snd].
  now destruct (check_output w t cmd).
Qed.

Lemma fail_fast_git_delete_branch (tolerant : call -> Prop) remote branch :
  tolerant (GitCheckOutput ["git"; "push"; remote; ":" ++ branch]) ->
  fail_fast tolerant (_git_delete_branch remote branch).
Proof.
  intro Ht.
  apply (fail_fast_one tolerant _
           (lenient (GitCheckOutput ["git"; "push"; remote; ":" ++ branch])));
    [intros _; exact Ht|].
  intro t. unfold _git_delete_branch, try_except, _git_call, stops, lenient.
  cbn [raised fst snd].
  destruct (check_output w t _) as [out|]; cbn [option_map andb]; [|now split].
  now destruct (contains "unable to delete" out).
Qed.

Lemma fail_fast_perform tolerant c :
  (forall t, raised t c = effect w t c) -> fail_fast tolerant (perform c).
Proof.
  intro Hc. apply (fail_fast_one tolerant _ (strict c)); [discriminate|].
  intro t. unfold perform, stops, strict. cbn [fst snd]. rewrite Hc.
  now destruct (effect w t c) as [[cmd out|msg]|].
Qed.

Lemma fail_fast_ask {A} tolerant c (oracle : trace -> result A) :
  (forall t, raised t c = error_of (oracle t)) -> fail_fast tolerant (ask c oracle).
Proof.
  intro Hc. apply (fail_fast_one tolerant _ (strict c)); [discriminate|].
  intro t. unfold ask, stops, strict. cbn [fst snd]. rewrite Hc.
  now destruct (oracle t) as [a|[cmd out|msg]].
Qed.

Lemma fail_fast_log tolerant msg : fail_fast tolerant (log msg).
Proof.
  apply (fail_fast_one tolerant _ (strict (Log msg))); [discriminate|].
  intro t. now split.
Qed.

Lemma fail_fast_for_each {A} tolerant (body : A -> M unit) xs :
  (forall x, fail_fast tolerant (body x)) -> fail_fast tolerant (for_each body xs).
Proof.
  intro Hb. induction xs as [|x xs IH]; simpl.
  - apply fail_fast_ret.
  - apply fail_fast_bind; [apply Hb | intros _; exact IH].
Qed.

(** The steps of Finalize after a passed ancestor check. *)
Ltac fail_fast_steps :=
  repeat first
    [ apply fail_fast_ret
    | apply fail_fast_git_call
    | apply fail_fast_log
    | apply fail_fast_git_delete_branch; reflexivity
    | apply fail_fast_perform; reflexivity
    | apply fail_fast_ask; reflexivity
    | apply fail_fast_bind; [|intro]
    | apply fail_fast_for_each; intro
    | match goal with
      | |- fail_fast _ (if ?b then _ else _) => destruct b
      | |- fail_fast _ (match ?o with Some _ => _ | None => _ end) => destruct o
      end ].

(** X14: on the merge path (the ancestor check passed) Finalize stops at
    the first call that fails.  Whatever the outcome, the calls it made are
    an initial segment of the calls of a complete merge, in the same order;
    it returns [True] only when all of them were made, and never returns
    [False].  Every call it made went through, except, when it raises, the
    last one, and the exception raised is the one of that last call; the
    only failure it tolerates is "unable to delete", of the deletion of the
    merge-bot branch.  So a failed merge or push is never followed by the
    deletion of the branch, the success comment, the label or the closing
    of the pull request. *)
Theorem X14_finalize_stops_at_the_first_failure org repo merge_bot_branch dry_run t
    pr target_branch username bumpversion r t' :
  parse_merge_bot_branch codec merge_bot_branch
    = Val (pr, target_branch, username, bumpversion) ->
  exit_status w (t +++ [GitCheckOutput ["git"; "checkout"; target_branch]])
    ["git"; "merge-base"; "--is-ancestor"; target_branch; merge_bot_branch] = 0 ->
  _merge_bot_merge_pr org repo merge_bot_branch dry_run t = (r, t') ->
  (exists addons gh_pr merge_sha rest,
     t' +++ rest
     = t +++ merged_trace org repo merge_bot_branch dry_run pr target_branch username
               bumpversion addons gh_pr merge_sha
     /\ ((r = Val true /\ rest = []) \/ exists e, r = Raise e))
  /\ exists steps,
       t' = t +++ calls steps
       /\ (forall s, In s steps -> snd s = true ->
             fst s = GitCheckOutput ["git"; "push"; "origin"; ":" ++ merge_bot_branch])
       /\ match r with
          | Val _ => passes steps t = true
          | Raise e =>
              exists pre s,
                steps = (pre ++ [s])%list
                /\ passes pre t = true
                /\ stops (t +++ calls pre) s = Some e
          end.
Proof.
  intros Hparse Hrc H. split.
  { exact (_merge_bot_merge_pr_prefix _ _ _ _ _ _ _ _ _ _ _ Hparse Hrc H). }
  set (tolerant := fun c =>
         c = GitCheckOutput ["git"; "push"; "origin"; ":" ++ merge_bot_branch]).
  change (exists steps,
            t' = t +++ calls steps
            /\ (forall s, In s steps -> snd s = true -> tolerant (fst s))
            /\ match r with
               | Val _ => passes steps t = true
               | Raise e =>
                   exists pre s,
                     steps = (pre ++ [s])%list
                     /\ passes pre t = true
                     /\ stops (t +++ calls pre) s = Some e
               end).
  unfold _merge_bot_merge_pr in H.
  rewrite (bind_val _ _ t (pr, target_branch, username, bumpversion) t) in H
    by (unfold lift; now rewrite Hparse).
  cbv beta iota in H.
  apply bind_cases in H. destruct H as [(e & Hm & ->)|(u & t1 & Hm & H)].
  { exact (fail_fast_git_call tolerant _ _ _ _ Hm). }
  apply _git_call_inv in Hm. destruct Hm as [Hco ->].
  erewrite bind_val in H by reflexivity. rewrite Hrc in H.
  change (negb (0 =? 0)) with false in H. cbv iota in H.
  match type of H with
  | ?m _ = _ => assert (Hff : fail_fast tolerant m)
  end.
  { unfold publish_wheels, bump_and_check, create_comment, pull_request,
      git_get_head_sha, git_modified_addon_dirs.
    fail_fast_steps. }
  destruct (Hff _ _ _ H) as (steps & -> & F & P).
  exists (strict (GitCheckOutput ["git"; "checkout"; target_branch])
          :: strict (SubprocessCall ["git"; "merge-base"; "--is-ancestor";
                                     target_branch; merge_bot_branch])
          :: steps).
  assert (H1 : stops t (strict (GitCheckOutput ["git"; "checkout"; target_branch]))
               = None).
  { unfold stops, strict. cbn [raised fst snd]. now rewrite Hco. }
  split; [|split].
  - unfold calls. simpl. now rewrite <- !app_assoc.
  - intros s [<-|[<-|Hin]]; [discriminate | discriminate | now apply F].
  - destruct r as [b|e].
    + cbn [passes]. rewrite H1. exact P.
    + destruct P as (pre & s & -> & Pp & Ps).
      exists (strict (GitCheckOutput ["git"; "checkout"; target_branch])
              :: strict (SubprocessCall ["git"; "merge-base"; "--is-ancestor";
                                         target_branch; merge_bot_branch])
              :: pre), s.
      split; [reflexivity|]. split.
      * cbn [passes]. rewrite H1. exact Pp.
      * rewrite !calls_cons. exact Ps.
Qed.

End MergeBot.

(** ** The claims on the example environments *)

(** C1, as stated, fails in two ways.  The restart can raise: here its
    rebase conflicts, and the exception comes out of Finalize.  And the
    restart need not be for the same target branch: here the branch was
    created for 12.0 and the pull request targets 13.0 by now, so Finalize
    rebases on 13.0 and pushes a merge-bot branch for 13.0, not the one it
    was called for. *)
Lemma C1_counterexample :
  parse_merge_bot_branch demo_codec demo_branch
    = Val (42, "12.0", "alice", Some "minor")
  /\ check_output conflict_world [] ["git"; "checkout"; "12.0"] = None
  /\ exit_status conflict_world [GitCheckOutput ["git"; "checkout"; "12.0"]]
       ["git"; "merge-base"; "--is-ancestor"; "12.0"; demo_branch] <> 0
  /\ fst (_merge_bot_merge_pr conflict_world demo_config demo_codec
            "OCA" "mis-builder" demo_branch false [])
     = Raise (CalledProcessError ["git"; "rebase"; "--autosquash"; "12.0"]
                "CONFLICT (content): Merge conflict in __manifest__.py")
  /\ check_output retargeted_world [] ["git"; "checkout"; "12.0"] = None
  /\ exit_status retargeted_world [GitCheckOutput ["git"; "checkout"; "12.0"]]
       ["git"; "merge-base"; "--is-ancestor"; "12.0"; demo_branch] <> 0
  /\ (let run := _merge_bot_merge_pr retargeted_world demo_config demo_codec
                   "OCA" "mis-builder" demo_branch false [] in
      fst run = Val false
      /\ In (TemporaryClone "OCA" "mis-builder" "13.0") (snd run)
      /\ In (GitCheckOutput ["git"; "rebase"; "--autosquash"; "13.0"]) (snd run)
      /\ In (GitCheckOutput ["git"; "push"; "origin";
                             "13.0-ocabot-merge-pr-42-by-alice-bump-minor"]) (snd run)
      /\ ~ In (GitCheckOutput ["git"; "push"; "origin"; demo_branch]) (snd run)).
Proof.
  split; [reflexivity|]. split; [reflexivity|]. split; [discriminate|].
  split; [reflexivity|]. split; [reflexivity|]. split; [discriminate|].
  cbv zeta. split; [reflexivity|].
  split; [vm_compute; tauto|]. split; [vm_compute; tauto|].
  split; [vm_compute; tauto|].
  vm_compute. intuition discriminate.
Qed.

(** A race whose restart goes through, the pull request still targeting
    12.0: Finalize returns [False]; the merge-bot branch, rebased again,
    was pushed; and apart from the checkout of the race check, the git
    commands were the five of Start for that same branch. *)
Lemma C1_witness :
  let run := _merge_bot_merge_pr moved_world demo_config demo_codec
               "OCA" "mis-builder" demo_branch false [] in
  fst run = Val false
  /\ In (GitCheckOutput ["git"; "push"; "origin"; demo_branch]) (snd run)
  /\ (forall cmd, In (GitCheckOutput cmd) (snd run) ->
        cmd = ["git"; "checkout"; "12.0"]
        \/ In cmd [["git"; "fetch"; "origin"; "pull/42/head:" ++ demo_branch];
                   ["git"; "checkout"; demo_branch];
                   ["git"; "rebase"; "--autosquash"; "12.0"];
                   ["git"; "push"; "origin"; ":" ++ demo_branch];
                   ["git"; "push"; "origin"; demo_branch]]).
Proof.
  pose proof (C1_race_restarts_start moved_world demo_config demo_codec
                "OCA" "mis-builder" demo_branch false []
                42 "12.0" "alice" (Some "minor") eq_refl eq_refl) as H.
  cbv zeta in H.
  destruct H as (E & new & Enew & _ & Hsame & Hdone); [discriminate|].
  destruct (Hdone eq_refl eq_refl eq_refl) as (gh_pr & Hl & Hnew).
  injection Hl as <-. cbv zeta. rewrite E. cbn [fst snd].
  split; [reflexivity|]. rewrite Enew. split.
  - rewrite Hnew. apply in_or_app. right. apply in_or_app. right.
    simpl. tauto.
  - intros cmd Hin. apply in_app_or in Hin. destruct Hin as [Hin|Hin].
    + left. destruct Hin as [[= <-]|[Hin|[Hin|[]]]]; [reflexivity | |]; discriminate.
    + right. exact (Hsame demo_pull eq_refl eq_refl eq_refl cmd Hin).
Defined.

(** C2, as stated, fails when a failure is read before the pending entry:
    the verdict is Failure. *)
Lemma C2_counterexample :
  let pending := mk_status "ci/test" "pending" in
  let c := mk_commit (Val [mk_status "ci/build" "failure"; pending]) (Val []) in
  ignored demo_config (OfStatus pending) = false
  /\ state pending = "pending"
  /\ fst (_get_commit_success demo_config c []) = Val (Some false).
Proof. repeat split. Qed.

(** A pending status after a success gives Pending; an incomplete
    ["Travis CI"] suite after a successful legacy status gives Success. *)
Lemma C2_witness :
  fst (_get_commit_success demo_config
         (mk_commit (Val [travis_passed; mk_status "ci/test" "pending"]) (Val [])) [])
  = Val None
  /\ fst (_get_commit_success demo_config
            (mk_commit (Val [travis_passed]) (Val [mk_suite "Travis CI" None])) [])
     = Val (Some true).
Proof.
  split.
  - apply (proj1 (C2_pending_unless_failure_first demo_config
                    (mk_commit (Val [travis_passed; mk_status "ci/test" "pending"])
                               (Val []))
                    [travis_passed; mk_status "ci/test" "pending"] [] []
                    eq_refl eq_refl)
             [OfStatus travis_passed] (OfStatus (mk_status "ci/test" "pending")) []
             eq_refl eq_refl).
    intros x [<-|[]]. reflexivity.
  - apply (proj2 (C2_pending_unless_failure_first demo_config
                    (mk_commit (Val [travis_passed]) (Val [mk_suite "Travis CI" None]))
                    [travis_passed] [mk_suite "Travis CI" None] []
                    eq_refl eq_refl) eq_refl).
    intros x [<-|[<-|[]]]; split; reflexivity.
Defined.

(** C3, as stated, fails when a pending entry is read before the failure:
    the verdict is Pending. *)
Lemma C3_counterexample :
  let broken := mk_status "ci/build" "failure" in
  let c := mk_commit (Val [mk_status "ci/test" "pending"; broken]) (Val []) in
  failed demo_config (OfStatus broken) = true
  /\ fst (_get_commit_success demo_config c []) = Val None.
Proof. repeat split. Qed.

(** A failed check suite after a successful status gives Failure. *)
Lemma C3_witness :
  fst (_get_commit_success demo_config
         (mk_commit (Val [travis_passed])
                    (Val [mk_suite "GitHub Actions" (Some "failure");
                          mk_suite "Travis CI" None])) [])
  = Val (Some false).
Proof.
  apply (C3_failure_unless_pending_first demo_config
           (mk_commit (Val [travis_passed])
                      (Val [mk_suite "GitHub Actions" (Some "failure");
                            mk_suite "Travis CI" None]))
           [travis_passed]
           [mk_suite "GitHub Actions" (Some "failure"); mk_suite "Travis CI" None] []
           [OfStatus travis_passed] (OfSuite (mk_suite "GitHub Actions" (Some "failure")))
           [OfSuite (mk_suite "Travis CI" None)]
           eq_refl eq_refl eq_refl eq_refl).
  intros x [<-|[]]. reflexivity.
Defined.

(** Only ignored entries: Pending, although one of them succeeded.  With a
    success that counts and an incomplete Travis suite covered by the
    legacy status, no short-circuit occurs and the verdict is Success. *)
Lemma C4_witness :
  fst (_get_commit_success demo_config
         (mk_commit (Val [mk_status "ci/runbot" "success"])
                    (Val [mk_suite "Codecov" None])) [])
  = Val None
  /\ fst (_get_commit_success demo_config
            (mk_commit (Val [mk_status "ci/runbot" "failure"; travis_passed])
                       (Val [mk_suite "Travis CI" None])) [])
     = Val (Some true).
Proof.
  split.
  - apply (proj1 (C4_no_signal_is_pending demo_config
                    (mk_commit (Val [mk_status "ci/runbot" "success"])
                               (Val [mk_suite "Codecov" None]))
                    [mk_status "ci/runbot" "success"] [mk_suite "Codecov" None] []
                    eq_refl eq_refl)).
    intros x [<-|[<-|[]]]; reflexivity.
  - apply (proj1 (proj2 (proj2 (C4_no_signal_is_pending demo_config
                    (mk_commit (Val [mk_status "ci/runbot" "failure"; travis_passed])
                               (Val [mk_suite "Travis CI" None]))
                    [mk_status "ci/runbot" "failure"; travis_passed]
                    [mk_suite "Travis CI" None] []
                    eq_refl eq_refl)))).
    intros x [<-|[<-|[<-|[]]]]; split; reflexivity.
Defined.

(** C5: on the failure verdict Status deletes the branch with a bare
    [_git_call], not with [_git_delete_branch]: when the remote branch is
    already gone the "unable to delete" failure is raised out of Status,
    although [_git_delete_branch] swallows the same failure of the same
    command. *)
Theorem C5_status_failure_path_raises_on_absent_branch :
  let output :=
    "error: unable to delete '12.0-ocabot-merge-pr-42-by-alice-bump-minor': remote ref does not exist" in
  let delete := ["git"; "push"; "origin"; ":" ++ demo_branch] in
  contains "unable to delete" output = true
  /\ fst (_get_commit_success demo_config
            (mk_commit (Val [travis_failed]) (Val [])) []) = Val (Some false)
  /\ fst (merge_bot_status gone_world demo_config demo_codec
            "OCA" "mis-builder" demo_branch "c0ffee" [])
     = Raise (CalledProcessError delete output)
  /\ (forall t, _git_delete_branch gone_world "origin" demo_branch t
                = (Val tt, t +++ [GitCheckOutput delete])).
Proof.
  intros output delete.
  split; [reflexivity|]. split; [reflexivity|]. split; [reflexivity|].
  intro t. now apply (_git_delete_branch_absent gone_world "origin" demo_branch t output).
Qed.

(** A status for an older commit of the branch. *)
Lemma C6_witness :
  merge_bot_status (calm_world []) demo_config demo_codec
    "OCA" "mis-builder" demo_branch "0ldc0de" []
  = (Val tt, [TemporaryClone "OCA" "mis-builder" demo_branch; HeadSha; ReleaseClone]).
Proof.
  apply (C6_stale_status_is_discarded (calm_world []) demo_config demo_codec
           "OCA" "mis-builder" demo_branch "0ldc0de" [] "c0ffee" eq_refl eq_refl).
  discriminate.
Defined.

(** C7, as stated, fails when the pull request cannot be looked up after
    the permission check passed: Start raises and no comment was posted. *)
Lemma C7_counterexample :
  can_push_answer lost_pull_world [Login; Repository "OCA" "mis-builder"]
    "OCA" "mis-builder" "alice" = Val true
  /\ merge_bot_start lost_pull_world demo_config demo_codec
       "OCA" "mis-builder" 42 "alice" (Some "minor") false None []
     = (Raise (Exception "404 Not Found"),
        [Login; Repository "OCA" "mis-builder";
         UserCanPush "OCA" "mis-builder" "alice";
         PullRequest "OCA" "mis-builder" 42]).
Proof. split; reflexivity. Qed.

(** Three runs of Start.  A conflicting rebase: Start stops there, releases
    the working copy, posts the failure comment and raises the failure of
    the rebase.  Nothing fails: Start returns after the progress comment.
    No push permission: the "Sorry" comment, and a normal return. *)
Lemma C7_witness :
  let failure := CalledProcessError ["git"; "rebase"; "--autosquash"; "12.0"]
                   "CONFLICT (content): Merge conflict in __manifest__.py" in
  let opening :=
    [Login; Repository "OCA" "mis-builder"; UserCanPush "OCA" "mis-builder" "alice";
     PullRequest "OCA" "mis-builder" 42] in
  merge_bot_start conflict_world demo_config demo_codec
    "OCA" "mis-builder" 42 "alice" (Some "minor") false None []
  = (Raise failure,
     opening +++
     [TemporaryClone "OCA" "mis-builder" "12.0";
      GitCheckOutput ["git"; "fetch"; "origin"; "pull/42/head:" ++ demo_branch];
      GitCheckOutput ["git"; "checkout"; demo_branch];
      GitCheckOutput ["git"; "rebase"; "--autosquash"; "12.0"];
      ReleaseClone;
      CreateComment "OCA" "mis-builder" 42 (start_failure_comment "alice" failure)])
  /\ merge_bot_start (calm_world []) demo_config demo_codec
       "OCA" "mis-builder" 42 "alice" (Some "minor") false (Some "Let me see.") []
     = (Val tt,
        opening +++
        [TemporaryClone "OCA" "mis-builder" "12.0";
         GitCheckOutput ["git"; "fetch"; "origin"; "pull/42/head:" ++ demo_branch];
         GitCheckOutput ["git"; "checkout"; demo_branch];
         GitCheckOutput ["git"; "rebase"; "--autosquash"; "12.0"];
         GitCheckOutput ["git"; "push"; "origin"; ":" ++ demo_branch];
         GitCheckOutput ["git"; "push"; "origin"; demo_branch];
         CreateComment "OCA" "mis-builder" 42
           (rebased_comment "OCA" "mis-builder" demo_branch "Let me see.");
         ReleaseClone])
  /\ merge_bot_start denied_world demo_config demo_codec
       "OCA" "mis-builder" 42 "alice" (Some "minor") false None []
     = (Val tt,
        opening +++
        [CreateComment "OCA" "mis-builder" 42
           "Sorry @alice you do not have push permission, so I can't merge for you."]).
Proof.
  intros failure opening. split; [|split].
  - pose proof (C7_start_reports_then_reraises conflict_world demo_config demo_codec
                  "OCA" "mis-builder" 42 "alice" (Some "minor") false None []
                  true demo_pull eq_refl eq_refl eq_refl eq_refl eq_refl) as H.
    cbv zeta in H. destruct H as (_ & H & _).
    destruct (H eq_refl) as (_ & _ & Hstep & _).
    exact (Hstep
             [strict (GitCheckOutput ["git"; "fetch"; "origin";
                                      "pull/42/head:" ++ demo_branch]);
              strict (GitCheckOutput ["git"; "checkout"; demo_branch])]
             (strict (GitCheckOutput ["git"; "rebase"; "--autosquash"; "12.0"]))
             (skipn 3 (start_steps conflict_world demo_config demo_codec
                         "OCA" "mis-builder" 42 "alice" (Some "minor") None "12.0"
                         (opening +++ [TemporaryClone "OCA" "mis-builder" "12.0"])))
             failure eq_refl eq_refl eq_refl eq_refl eq_refl).
  - pose proof (C7_start_reports_then_reraises (calm_world []) demo_config demo_codec
                  "OCA" "mis-builder" 42 "alice" (Some "minor") false
                  (Some "Let me see.") []
                  true demo_pull eq_refl eq_refl eq_refl eq_refl eq_refl) as H.
    cbv zeta in H. destruct H as (_ & H & _).
    destruct (H eq_refl) as (Hall & _).
    exact (Hall eq_refl eq_refl).
  - pose proof (C7_start_reports_then_reraises denied_world demo_config demo_codec
                  "OCA" "mis-builder" 42 "alice" (Some "minor") false None []
                  false demo_pull eq_refl eq_refl eq_refl eq_refl eq_refl) as H.
    cbv zeta in H. destruct H as (H & _).
    exact (H eq_refl eq_refl).
Defined.


(** A Success verdict on the current head, nothing moved. *)
Lemma C9_witness :
  let t' := snd (merge_bot_status (calm_world []) demo_config demo_codec
                   "OCA" "mis-builder" demo_branch "c0ffee" []) in
  In (GitCheckOutput ["git"; "merge"; "--no-ff"; "--m";
                      merge_commit_msg 42 "12.0" "alice"; demo_branch]) t'
  /\ In (GitCheckOutput ["git"; "push"; "origin"; "12.0"]) t'
  /\ In (AddLabels "OCA" "mis-builder" 42 LABEL_MERGED) t'.
Proof.
  intro t'.
  pose proof (C9_status_finalizes_without_dry_run (calm_world []) demo_config
                demo_codec "OCA" "mis-builder" demo_branch "c0ffee" []
                42 "12.0" "alice" (Some "minor") demo_pull
                (mk_commit (Val [travis_passed]) (Val []))
                eq_refl eq_refl eq_refl eq_refl eq_refl eq_refl eq_refl eq_refl
                eq_refl) as H.
  cbv zeta in H. destruct H as [_ H].
  exact (H eq_refl t' eq_refl).
Defined.

(** A dry run that merges a pull request touching one addon. *)
Lemma C10_witness :
  exists new,
    snd (_merge_bot_merge_pr (calm_world ["mis_builder"]) demo_config demo_codec
           "OCA" "mis-builder" demo_branch true []) = new
    /\ In (GitCheckOutput ["git"; "push"; "origin"; ":" ++ demo_branch]) new
    /\ In (BuildAndPublishWheel "mis_builder" "/var/simple-index" true) new
    /\ (forall c, In c new ->
          is_add_labels c = false /\ is_real_publish c = false /\
          (is_push c = true ->
           c = GitCheckOutput ["git"; "push"; "origin"; ":" ++ demo_branch])).
Proof.
  destruct (C10_dry_run_holds_back_push_label_publish (calm_world ["mis_builder"])
              demo_config demo_codec "OCA" "mis-builder" demo_branch []
              (snd (_merge_bot_merge_pr (calm_world ["mis_builder"]) demo_config
                      demo_codec "OCA" "mis-builder" demo_branch true [])) eq_refl)
    as (pr & target & user & bump & gh_pr & sha & new
        & Hparse & Ht & _ & Hdel & _ & _ & _ & _ & Hall).
  exists new. split; [exact Ht|]. split; [exact Hdel|]. split; [|exact Hall].
  simpl in Ht. rewrite <- Ht. vm_compute. tauto.
Defined.

(** ** The further properties on the example environments *)

Lemma X1_witness :
  fst (_get_commit_success demo_config
         (mk_commit (Val [mk_status "ci/runbot" "failure"; travis_passed])
                    (Val [mk_suite "Codecov" None])) [])
  = fst (_get_commit_success demo_config
           (mk_commit (Val [travis_passed]) (Val [])) []).
Proof.
  exact (X1_ignored_entries_do_not_count demo_config
           (mk_commit (Val [mk_status "ci/runbot" "failure"; travis_passed])
                      (Val [mk_suite "Codecov" None]))
           [mk_status "ci/runbot" "failure"; travis_passed]
           [mk_suite "Codecov" None] [] eq_refl eq_refl).
Defined.

Lemma X2_witness :
  fst (_get_commit_success demo_config
         (mk_commit (Val [travis_passed]) (Val [mk_suite "Travis CI" None])) [])
  = Val (Some true).
Proof.
  apply (proj2 (X2_success_iff_all_clear demo_config
                  (mk_commit (Val [travis_passed]) (Val [mk_suite "Travis CI" None]))
                  [travis_passed] [mk_suite "Travis CI" None] [] eq_refl eq_refl)).
  split; [reflexivity|].
  intros x [<-|[<-|[]]]; split; reflexivity.
Defined.

Lemma X3_witness :
  let a := mk_status "ci/build" "success" in
  fst (_get_commit_success demo_config
         (mk_commit (Val [a; travis_passed]) (Val [])) []) = Val (Some true)
  <-> fst (_get_commit_success demo_config
             (mk_commit (Val [travis_passed; a]) (Val [])) []) = Val (Some true).
Proof.
  intro a.
  apply (X3_success_is_order_independent demo_config
           (mk_commit (Val [a; travis_passed]) (Val []))
           (mk_commit (Val [travis_passed; a]) (Val []))
           [a; travis_passed] [travis_passed; a] [] [] [] []
           eq_refl eq_refl eq_refl eq_refl).
  - apply perm_swap.
  - apply Permutation_refl.
Defined.

Lemma X4_witness :
  exists r, r <> Some true /\
    _get_commit_success demo_config
      (mk_commit (Val [travis_passed; travis_failed])
                 (Raise (Exception "502 Bad Gateway"))) []
    = (Val r, [CommitStatus]).
Proof.
  apply (proj1 (proj2 (X4_check_suites_fetched_only_when_needed demo_config
                         (mk_commit (Val [travis_passed; travis_failed])
                                    (Raise (Exception "502 Bad Gateway"))) []))
           [travis_passed; travis_failed] travis_failed eq_refl).
  - right. now left.
  - now right.
Defined.

Lemma X5_witness :
  (exists m, In m (MERGE_BOT_INTRO_MESSAGES demo_config) /\
     _get_merge_bot_intro_message (calm_world []) demo_config [] =
     (Val m, [RandInt 0 1]))
  /\ _get_merge_bot_intro_message (calm_world []) mute_config [Login] =
     (Raise (Exception "empty range for randrange() (0, 0, 0)"),
      [Login; RandInt 0 (-1)]).
Proof.
  split.
  - apply (proj1 (X5_intro_message_is_from_the_pool (calm_world []) demo_config [])).
    discriminate.
  - apply (proj2 (X5_intro_message_is_from_the_pool (calm_world []) mute_config
                    [Login])).
    reflexivity.
Defined.

Lemma X6_witness :
  (exists msg,
     In msg (MERGE_BOT_INTRO_MESSAGES demo_config)
     /\ In (CreateComment "OCA" "mis-builder" 42
              (rebased_comment "OCA" "mis-builder" demo_branch msg))
           (snd (merge_bot_start (calm_world []) demo_config demo_codec
                   "OCA" "mis-builder" 42 "alice" (Some "minor") true None [])))
  /\ snd (merge_bot_start (calm_world []) off_config demo_codec
            "OCA" "mis-builder" 42 "alice" (Some "minor") false None [Login])
     = [Login].
Proof.
  split.
  - destruct (proj2 (X6_start_that_returns (calm_world []) demo_config demo_codec
                "OCA" "mis-builder" 42 "alice" (Some "minor") true None []
                (snd (merge_bot_start (calm_world []) demo_config demo_codec
                        "OCA" "mis-builder" 42 "alice" (Some "minor") true None [])))
                eq_refl)
      as [[Hoff _]|[(_ & Hf & _)|(_ & _ & gh_pr & msg & Hpull & Hmsg & Ht)]];
      [discriminate | discriminate |].
    injection Hpull as <-. exists msg. split; [exact Hmsg|].
    cbv zeta in Ht. rewrite Ht. do 4 (apply in_or_app; right). now left.
  - destruct (proj2 (X6_start_that_returns (calm_world []) off_config demo_codec
                "OCA" "mis-builder" 42 "alice" (Some "minor") false None [Login]
                (snd (merge_bot_start (calm_world []) off_config demo_codec
                        "OCA" "mis-builder" 42 "alice" (Some "minor") false None
                        [Login])))
                eq_refl)
      as [[_ Ht]|[(Hon & _)|(Hon & _)]]; [exact Ht | discriminate | discriminate].
Defined.

Lemma X8_witness :
  exists msg,
    merge_bot_start first_start_world demo_config demo_codec
      "OCA" "mis-builder" 42 "alice" (Some "minor") false
      (Some "On it.") []
    = (Val tt,
       [Login; Repository "OCA" "mis-builder"; UserCanPush "OCA" "mis-builder" "alice";
        PullRequest "OCA" "mis-builder" 42;
        TemporaryClone "OCA" "mis-builder" "12.0";
        GitCheckOutput ["git"; "fetch"; "origin"; "pull/42/head:" ++ demo_branch];
        GitCheckOutput ["git"; "checkout"; demo_branch];
        GitCheckOutput ["git"; "rebase"; "--autosquash"; "12.0"];
        GitCheckOutput ["git"; "push"; "origin"; ":" ++ demo_branch];
        GitCheckOutput ["git"; "push"; "origin"; demo_branch];
        CreateComment "OCA" "mis-builder" 42
          (rebased_comment "OCA" "mis-builder" demo_branch msg);
        ReleaseClone]).
Proof.
  apply (X8_first_start_tolerates_absent_branch first_start_world demo_config
           demo_codec "OCA" "mis-builder" 42 "alice" (Some "minor") false
           (Some "On it.") demo_pull
           "error: unable to delete '12.0-ocabot-merge-pr-42-by-alice-bump-minor': remote ref does not exist"
           []); try reflexivity.
  - intros h cmd Hne. simpl.
    destruct (list_eq_dec string_dec cmd _) as [E|E]; [|reflexivity].
    now destruct Hne.
  - now left.
Defined.

Lemma X9_witness :
  exists reads,
    (reads = [CommitStatus] \/ reads = [CommitStatus; CheckSuites])
    /\ merge_bot_status waiting_world demo_config demo_codec
         "OCA" "mis-builder" demo_branch "c0ffee" []
       = (Val tt,
          [] +++ status_opening "OCA" "mis-builder" demo_branch "c0ffee" 42
             +++ reads +++ [ReleaseClone]).
Proof.
  exact (X9_status_pending_is_a_no_op waiting_world demo_config demo_codec
           "OCA" "mis-builder" demo_branch "c0ffee" []
           42 "12.0" "alice" (Some "minor") demo_pull
           (mk_commit (Val [mk_status "ci/test" "pending"]) (Val []))
           eq_refl eq_refl eq_refl eq_refl eq_refl eq_refl eq_refl eq_refl eq_refl).
Defined.

Lemma X10_witness :
  let run := merge_bot_status red_world demo_config demo_codec
               "OCA" "mis-builder" demo_branch "c0ffee" [] in
  fst run = Val tt
  /\ In (CreateComment "OCA" "mis-builder" 42
           (aborted_comment "OCA" "mis-builder" demo_branch "c0ffee" "alice"))
        (snd run)
  /\ In (GitCheckOutput ["git"; "push"; "origin"; ":" ++ demo_branch]) (snd run).
Proof.
  intro run.
  destruct (X10_status_failure_comments_then_deletes red_world demo_config demo_codec
              "OCA" "mis-builder" demo_branch "c0ffee" []
              42 "12.0" "alice" (Some "minor") demo_pull
              (mk_commit (Val [travis_failed]) (Val []))
              eq_refl eq_refl eq_refl eq_refl eq_refl eq_refl eq_refl eq_refl eq_refl)
    as (reads & _ & Hok & _).
  cbv zeta in Hok. specialize (Hok eq_refl). subst run. rewrite Hok.
  split; [reflexivity|]. cbn [fst snd].
  split; apply in_or_app; right; [now left | right; now left].
Defined.

Lemma X11_witness :
  fst (merge_bot_status conflict_world demo_config demo_codec
         "OCA" "mis-builder" demo_branch "c0ffee" [])
  = Raise (CalledProcessError ["git"; "rebase"; "--autosquash"; "12.0"]
             "CONFLICT (content): Merge conflict in __manifest__.py").
Proof.
  pose proof (X11_status_reports_a_failed_finalize conflict_world demo_config
                demo_codec "OCA" "mis-builder" demo_branch "c0ffee" []
                42 "12.0" "alice" (Some "minor") demo_pull
                (mk_commit (Val [travis_passed]) (Val []))
                eq_refl eq_refl eq_refl eq_refl eq_refl eq_refl eq_refl eq_refl
                eq_refl) as H.
  cbv zeta in H. destruct H as (H & _).
  rewrite (H (CalledProcessError ["git"; "rebase"; "--autosquash"; "12.0"]
                "CONFLICT (content): Merge conflict in __manifest__.py")
             (snd (_merge_bot_merge_pr conflict_world demo_config demo_codec
                     "OCA" "mis-builder" demo_branch false
                     ([] +++ status_opening "OCA" "mis-builder" demo_branch "c0ffee" 42
                         +++ [CommitStatus; CheckSuites])))
             eq_refl eq_refl).
  reflexivity.
Defined.

Lemma X12_witness :
  merge_bot_status (calm_world []) demo_config demo_codec
    "OCA" "mis-builder" "12.0-fix-typo" "c0ffee" []
  = (Raise (Exception "not a merge bot branch"),
     [TemporaryClone "OCA" "mis-builder" "12.0-fix-typo"; HeadSha; ReleaseClone]).
Proof.
  exact (X12_status_on_undecodable_branch (calm_world []) demo_config demo_codec
           "OCA" "mis-builder" "12.0-fix-typo" "c0ffee" []
           (Exception "not a merge bot branch") eq_refl eq_refl eq_refl eq_refl).
Defined.

Lemma X13_witness :
  exists before after,
    snd (_merge_bot_merge_pr (calm_world ["mis_builder"]) demo_config demo_codec
           "OCA" "mis-builder" demo_branch false [])
    = before
      +++ [BumpManifestVersion "mis_builder" "minor"; BuildAndCheckWheel "mis_builder"]
      +++ merge_events "OCA" "mis-builder" demo_branch false 42 "12.0" "alice"
      +++ [BuildAndPublishWheel "mis_builder" "/var/simple-index" false]
      +++ after.
Proof.
  destruct (X13_bumps_before_merge_publications_after (calm_world ["mis_builder"])
              demo_config demo_codec "OCA" "mis-builder" demo_branch false []
              (snd (_merge_bot_merge_pr (calm_world ["mis_builder"]) demo_config
                      demo_codec "OCA" "mis-builder" demo_branch false [])) eq_refl)
    as (pr & target & user & bump & addons & gh_pr & sha & bumps & wheels
        & Hparse & Haddons & Ht & _ & Hbump).
  injection Hparse as <- <- <- <-. injection Haddons as <-.
  destruct (Hbump "minor" eq_refl) as [-> ->]; [discriminate|].
  exists (survey_events demo_branch 42 "12.0"
          +++ [GitCheckOutput ["git"; "checkout"; demo_branch];
               MainBranchBotActions "OCA" "mis-builder" "12.0"]),
         (closing_events "OCA" "mis-builder" demo_branch false 42 "12.0" gh_pr sha).
  rewrite Ht. cbn [nonempty flat_map map app SIMPLE_INDEX_ROOT demo_config].
  change (String.eqb "/var/simple-index" "") with false. cbv iota.
  now repeat rewrite <- app_assoc.
Defined.

(** A merge that conflicts: Finalize raises the failure of the merge
    command, which is the last call it made; the calls before it went
    through. *)
Lemma X14_witness :
  let run := _merge_bot_merge_pr merge_conflict_world demo_config demo_codec
               "OCA" "mis-builder" demo_branch false [] in
  let failure :=
    CalledProcessError ["git"; "merge"; "--no-ff"; "--m";
                        merge_commit_msg 42 "12.0" "alice"; demo_branch]
      "CONFLICT (content): Merge conflict in README.rst" in
  fst run = Raise failure
  /\ exists pre s,
       snd run = calls (pre ++ [s])
       /\ passes merge_conflict_world pre [] = true
       /\ stops merge_conflict_world (calls pre) s = Some failure.
Proof.
  cbv zeta.
  destruct (X14_finalize_stops_at_the_first_failure merge_conflict_world demo_config
              demo_codec "OCA" "mis-builder" demo_branch false []
              42 "12.0" "alice" (Some "minor") _ _ eq_refl eq_refl eq_refl)
    as (_ & steps & E & _ & pre & s & -> & Hp & Hs).
  split; [reflexivity|]. exists pre, s. split; [exact E|]. now split.
Defined.
